(** * Social media dashboard backend: route handlers over the relational store

    A shallow embedding of the Express route modules
    [backend/src/routes/facebookRoutes.js], [instagramRoutes.js] and
    [twitterRoutes.js] together with the tables of [backend/database.sql].

    - A table is the list of its rows plus the counter of its [SERIAL] column.
    - A SQL statement is a function on tables; its [$n] parameters are the
      function's arguments.
    - A route handler is a function from the request ([req.userId], the body
      or query fields) and the tables it names to the new tables and the HTTP
      response.  A request is served at one instant [now], the value of
      [NOW()] and [CURRENT_TIMESTAMP] for its statements.
    - The provider (Graph API, Twitter API) is a function from the outgoing
      request to [Some reply], or [None] when [axios] throws; handlers return
      the list of provider requests they made.
    - The database itself is assumed reachable.  A statement the database
      refuses (a parameter outside the type of its column, a user that is
      no row of [users], an exhausted sequence) makes [pool.query] throw;
      the statements below are total, and a theorem that depends on a
      statement being accepted says so in its hypotheses. *)

From Stdlib Require Import ZArith List Ascii String Bool Lia.
From Stdlib Require Import Permutation.
Import ListNotations.
Local Open Scope string_scope.
Local Open Scope list_scope.
Local Open Scope Z_scope.

(** ** JavaScript values *)

Module Js.

(** [!s] is false exactly for a present, non-empty string. *)
Definition truthy_string (s : option string) : bool :=
  match s with
  | Some s => negb (s =? "")%string
  | None => false
  end.

(** [n] as a condition: [undefined], [null] and [0] are falsy. *)
Definition truthy_number (n : option Z) : bool :=
  match n with
  | Some n => negb (n =? 0)%Z
  | None => false
  end.

(** [s || null] *)
Definition or_null (s : option string) : option string :=
  if truthy_string s then s else None.

(** [n || 0] *)
Definition or_zero (n : option Z) : Z :=
  match n with
  | Some n => n
  | None => 0
  end.

(** [s || ''] *)
Definition or_empty (s : option string) : string :=
  match s with
  | Some s => s
  | None => ""
  end.

End Js.

(** ** HTTP responses

    [res.json(x)] answers 200 with [x]; [res.status(c).json({ error: m })]
    answers [c] with the message [m]. *)

Inductive response (A : Type) : Type :=
| Json (payload : A)
| Fail (code : Z) (error : string).

Arguments Json {A} payload.
Arguments Fail {A} code error.

Definition status {A} (r : response A) : Z :=
  match r with
  | Json _ => 200
  | Fail c _ => c
  end.

(** ** SQL statements on tables *)

Module Sql.

Record table (Row : Type) : Type := Table { rows : list Row; serial : Z }.

Arguments Table {Row} rows serial.
Arguments rows {Row} t.
Arguments serial {Row} t.

Definition empty {Row} : table Row := Table [] 1.

(** The values of an [INTEGER] column, also of a parameter compared with
    one. *)
Definition int4 (n : Z) : Prop := -2147483648 <= n <= 2147483647.

Definition int4_opt (n : option Z) : Prop :=
  match n with
  | Some n => int4 n
  | None => True
  end.

(** The strings a [TEXT] column or parameter takes: those without the
    character of code 0. *)
Fixpoint no_nul (s : string) : bool :=
  match s with
  | EmptyString => true
  | String c s => negb (Ascii.eqb c Ascii.zero) && no_nul s
  end.

Definition text (s : string) : Prop := no_nul s = true.

Definition text_opt (s : option string) : Prop :=
  match s with
  | Some s => text s
  | None => True
  end.

(** The values of a [VARCHAR(n)] column. *)
Definition varchar (n : nat) (s : string) : Prop :=
  (String.length s <= n)%nat /\ text s.

(** The instants, in seconds from the epoch, of the years 0001 to 9999: each
    is a value of a [TIMESTAMP] column and has a plain ISO date. *)
Definition timestamp (t : Z) : Prop := -62135596800 <= t <= 253402300799.

(** [REFERENCES users(id)]: the user is a row of [users]. *)
Definition references (users : list Z) (u : Z) : Prop := In u users.

(** The sequence of the [SERIAL] column can serve [n] more statements. *)
Definition has_serial {Row} (t : table Row) (n : Z) : Prop :=
  1 <= serial t /\ serial t + n - 1 <= 2147483647.

Section Statements.
Context {Row : Type}.

(** [SELECT * FROM t WHERE c] *)
Definition select_where (c : Row -> bool) (t : list Row) : list Row :=
  filter c t.

(** [UPDATE t SET ... WHERE c] *)
Definition update_where (c : Row -> bool) (set : Row -> Row)
    (t : list Row) : list Row :=
  map (fun r => if c r then set r else r) t.

(** The rows an [UPDATE ... WHERE c RETURNING *] hands back. *)
Definition returning (c : Row -> bool) (set : Row -> Row)
    (t : list Row) : list Row :=
  map set (filter c t).

(** [DELETE FROM t WHERE c] *)
Definition delete_where (c : Row -> bool) (t : list Row) : list Row :=
  filter (fun r => negb (c r)) t.

Lemma update_where_length c set t :
  List.length (update_where c set t) = List.length t.
Proof. apply length_map. Qed.

Lemma update_where_none c set t :
  (forall r, In r t -> c r = false) -> update_where c set t = t.
Proof.
  induction t as [|r t IH]; intros H; simpl; [reflexivity|].
  rewrite (H r (or_introl eq_refl)), IH; [reflexivity|].
  intros r' Hr'. apply H. now right.
Qed.

Lemma select_where_none c t :
  (forall r, In r t -> c r = false) -> select_where c t = [].
Proof.
  unfold select_where.
  induction t as [|r t IH]; intros H; simpl; [reflexivity|].
  rewrite (H r (or_introl eq_refl)). apply IH.
  intros r' Hr'. apply H. now right.
Qed.

Lemma in_update_where c set t r' :
  In r' (update_where c set t) <->
  exists r, In r t /\ r' = (if c r then set r else r).
Proof.
  unfold update_where. rewrite in_map_iff.
  split; intros [r [H1 H2]]; exists r; intuition congruence.
Qed.

End Statements.

(** Tables with a [UNIQUE] key. *)
Section Keyed.
Context {Key Row : Type}.
Variable key_eqb : Key -> Key -> bool.
Hypothesis key_eqb_eq : forall a b, key_eqb a b = true <-> a = b.
Variable row_key : Row -> Key.

Definition has_key (k : Key) (r : Row) : bool := key_eqb (row_key r) k.

Definition conflict (k : Key) (t : list Row) : bool :=
  existsb (has_key k) t.

Definition lookup (k : Key) (t : list Row) : option Row :=
  find (has_key k) t.

(** The [UNIQUE(...)] constraint of the schema. *)
Definition unique (t : list Row) : Prop := NoDup (map row_key t).

Lemma key_eqb_refl k : key_eqb k k = true.
Proof. now apply key_eqb_eq. Qed.

Lemma key_eqb_neq a b : key_eqb a b = false <-> a <> b.
Proof.
  split.
  - intros H E. apply key_eqb_eq in E. congruence.
  - intros H. destruct (key_eqb a b) eqn:E; [|reflexivity].
    apply key_eqb_eq in E. contradiction.
Qed.

Lemma conflict_lookup k t :
  conflict k t = true <-> exists r, lookup k t = Some r.
Proof.
  unfold conflict, lookup.
  induction t as [|r t IH]; simpl.
  - split; [discriminate|intros [r H]; discriminate].
  - destruct (has_key k r); simpl; [|exact IH].
    split; eauto.
Qed.

Lemma conflict_false_lookup k t :
  conflict k t = false <-> lookup k t = None.
Proof.
  unfold conflict, lookup.
  induction t as [|r t IH]; simpl; [tauto|].
  destruct (has_key k r); simpl; [|exact IH].
  split; discriminate.
Qed.

Lemma lookup_key k t r : lookup k t = Some r -> row_key r = k.
Proof.
  unfold lookup. intros H. apply find_some in H as [_ H].
  now apply key_eqb_eq.
Qed.

Lemma lookup_In k t r : lookup k t = Some r -> In r t.
Proof. unfold lookup. intros H. now apply find_some in H. Qed.

Lemma conflict_In k t :
  conflict k t = true <-> exists r, In r t /\ row_key r = k.
Proof.
  unfold conflict. rewrite existsb_exists.
  split; intros [r [H1 H2]]; exists r; split; auto;
    now apply key_eqb_eq.
Qed.

(** *** [INSERT ... ON CONFLICT (key) DO UPDATE SET ...] *)
Section Upsert.
Context {Params : Type}.
Variable params_key : Params -> Key.
(** The row a fresh insert creates, from the serial id, the current
    timestamp and the statement's parameters. *)
Variable inserted : Z -> Z -> Params -> Row.
(** The [DO UPDATE SET] clause. *)
Variable updated : Params -> Row -> Row.
Hypothesis inserted_key :
  forall i now p, row_key (inserted i now p) = params_key p.
Hypothesis updated_key :
  forall p r, row_key (updated p r) = row_key r.

(** The serial default is evaluated before the conflict is detected,
    so the sequence advances on either branch. *)
Definition upsert (now : Z) (p : Params) (t : table Row) : table Row :=
  let k := params_key p in
  Table
    (if conflict k (rows t)
     then update_where (has_key k) (updated p) (rows t)
     else rows t ++ [inserted (serial t) now p])
    (serial t + 1).

(** [for (const x of page) await pool.query(upsert, ...)] *)
Definition upsert_all (now : Z) (page : list Params) (t : table Row)
    : table Row :=
  fold_left (fun t p => upsert now p t) page t.

(** A sequence of synchronisations, each with its own instant. *)
Definition upsert_calls (calls : list (Z * list Params))
    (t : table Row) : table Row :=
  fold_left (fun t c => upsert_all (fst c) (snd c) t) calls t.

Lemma lookup_update_where k k' set t :
  (forall r, row_key (set r) = row_key r) ->
  lookup k (update_where (has_key k') set t) =
  option_map (fun r => if has_key k' r then set r else r) (lookup k t).
Proof.
  intros Hset. unfold lookup, update_where.
  induction t as [|r t IH]; simpl; [reflexivity|].
  assert (E : has_key k (if has_key k' r then set r else r) = has_key k r).
  { unfold has_key. destruct (key_eqb (row_key r) k'); [|reflexivity].
    now rewrite Hset. }
  rewrite E. destruct (has_key k r); simpl; [reflexivity|exact IH].
Qed.

Lemma lookup_app k t x :
  lookup k (t ++ [x]) =
  match lookup k t with
  | Some r => Some r
  | None => if has_key k x then Some x else None
  end.
Proof.
  unfold lookup. induction t as [|r t IH]; simpl; [reflexivity|].
  destruct (has_key k r); [reflexivity|exact IH].
Qed.

(** What a single upsert does to the row of each key. *)
Lemma lookup_upsert now p t k :
  lookup k (rows (upsert now p t)) =
  if key_eqb (params_key p) k
  then Some match lookup k (rows t) with
            | Some r => updated p r
            | None => inserted (serial t) now p
            end
  else lookup k (rows t).
Proof.
  unfold upsert; simpl.
  destruct (conflict (params_key p) (rows t)) eqn:C.
  - rewrite lookup_update_where by apply updated_key.
    destruct (key_eqb (params_key p) k) eqn:E.
    + apply key_eqb_eq in E; subst k.
      apply conflict_lookup in C as [r Hr]. rewrite Hr; simpl.
      unfold has_key. rewrite (lookup_key _ _ _ Hr), key_eqb_refl.
      reflexivity.
    + destruct (lookup k (rows t)) as [r|] eqn:Hr; simpl; [|reflexivity].
      unfold has_key. rewrite (lookup_key _ _ _ Hr).
      destruct (key_eqb k (params_key p)) eqn:E'; [|reflexivity].
      apply key_eqb_eq in E'. subst k. rewrite key_eqb_refl in E.
      discriminate.
  - rewrite lookup_app. unfold has_key at 1. rewrite inserted_key.
    destruct (key_eqb (params_key p) k) eqn:E.
    + apply key_eqb_eq in E; subst k.
      apply conflict_false_lookup in C. now rewrite C.
    + now destruct (lookup k (rows t)).
Qed.

(** No upsert removes a key. *)
Lemma conflict_upsert now p t k :
  conflict k (rows t) = true ->
  conflict k (rows (upsert now p t)) = true.
Proof.
  rewrite !conflict_lookup. intros [r Hr].
  rewrite lookup_upsert, Hr.
  destruct (key_eqb (params_key p) k); eauto.
Qed.

Lemma conflict_upsert_all now page t k :
  conflict k (rows t) = true ->
  conflict k (rows (upsert_all now page t)) = true.
Proof.
  unfold upsert_all. revert t.
  induction page as [|p page IH]; intros t H; simpl; [exact H|].
  apply IH. now apply conflict_upsert.
Qed.

Lemma map_key_update_where k set t :
  (forall r, row_key (set r) = row_key r) ->
  map row_key (update_where (has_key k) set t) = map row_key t.
Proof.
  intros Hset. unfold update_where. rewrite map_map.
  apply map_ext. intros r. destruct (has_key k r); auto.
Qed.

(** Upserts maintain the [UNIQUE] constraint. *)
Lemma unique_upsert now p t :
  unique (rows t) -> unique (rows (upsert now p t)).
Proof.
  unfold unique, upsert; simpl. intros U.
  destruct (conflict (params_key p) (rows t)) eqn:C.
  - now rewrite map_key_update_where by apply updated_key.
  - rewrite map_app; simpl. rewrite inserted_key.
    apply NoDup_app; [exact U|repeat constructor; intros []|].
    intros k Hk [<-|[]].
    apply in_map_iff in Hk as [r [Hk Hr]].
    assert (conflict (params_key p) (rows t) = true)
      by (apply conflict_In; eauto).
    congruence.
Qed.

Lemma unique_upsert_all now page t :
  unique (rows t) -> unique (rows (upsert_all now page t)).
Proof.
  unfold upsert_all. revert t.
  induction page as [|p page IH]; intros t H; simpl; [exact H|].
  apply IH. now apply unique_upsert.
Qed.

(** *** Rows survive upserts

    [ident] projects a row on columns the [DO UPDATE SET] clause does not
    assign. *)
Section Survival.
Context {Ident : Type}.
Variable ident : Row -> Ident.
Hypothesis ident_updated : forall p r, ident (updated p r) = ident r.

Lemma upsert_keeps_rows now p t r :
  In r (rows t) ->
  exists r', In r' (rows (upsert now p t)) /\ ident r' = ident r.
Proof.
  intros Hin. unfold upsert; simpl.
  destruct (conflict (params_key p) (rows t)).
  - exists (if has_key (params_key p) r then updated p r else r). split.
    + apply in_update_where. eauto.
    + destruct (has_key (params_key p) r); auto.
  - exists r. split; [apply in_or_app; now left|reflexivity].
Qed.

Lemma upsert_all_keeps_rows now page t r :
  In r (rows t) ->
  exists r', In r' (rows (upsert_all now page t)) /\ ident r' = ident r.
Proof.
  unfold upsert_all. revert t r.
  induction page as [|p page IH]; intros t r Hin; simpl; [eauto|].
  destruct (upsert_keeps_rows now p t r Hin) as [r1 [H1 E1]].
  destruct (IH _ _ H1) as [r2 [H2 E2]].
  exists r2. split; [exact H2|congruence].
Qed.
End Survival.

(** An upsert on an existing key leaves the number of rows as it is and
    the rows of other keys as they are. *)
Lemma upsert_existing_length now p t :
  conflict (params_key p) (rows t) = true ->
  List.length (rows (upsert now p t)) = List.length (rows t).
Proof.
  intros C. unfold upsert; simpl. rewrite C. apply update_where_length.
Qed.

Lemma upsert_other_rows now p t r :
  In r (rows t) -> row_key r <> params_key p ->
  In r (rows (upsert now p t)).
Proof.
  intros Hin Hk. unfold upsert; simpl.
  destruct (conflict (params_key p) (rows t)).
  - apply in_update_where. exists r. split; [exact Hin|].
    unfold has_key. apply key_eqb_neq in Hk. now rewrite Hk.
  - apply in_or_app. now left.
Qed.

(** *** The columns an upsert determines

    [data] projects a row on the columns that do not record when the
    row was first inserted (its serial id and its timestamp default);
    on these the statement acts as a function of its parameters. *)
Section Content.
Context {Data : Type}.
Variable data : Row -> Data.
Variable inserted_data : Params -> Data.
Variable updated_data : Params -> Data -> Data.
Hypothesis data_inserted :
  forall i now p, data (inserted i now p) = inserted_data p.
Hypothesis data_updated :
  forall p r, data (updated p r) = updated_data p (data r).
Hypothesis updated_updated :
  forall p q d, updated_data p (updated_data q d) = updated_data p d.
Hypothesis updated_inserted :
  forall p, updated_data p (inserted_data p) = inserted_data p.

Definition content (t : table Row) (k : Key) : option Data :=
  option_map data (lookup k (rows t)).

Definition act (p : Params) (o : option Data) : option Data :=
  Some match o with
       | Some d => updated_data p d
       | None => inserted_data p
       end.

Definition act_at (k : Key) (p : Params) (o : option Data) :=
  if key_eqb (params_key p) k then act p o else o.

Definition acts (k : Key) (page : list Params) (o : option Data) :=
  fold_left (fun o p => act_at k p o) page o.

Definition mentions (k : Key) (page : list Params) : bool :=
  existsb (fun p => key_eqb (params_key p) k) page.

(** The last statement of a page that addresses [k]. *)
Fixpoint last_for (k : Key) (page : list Params) : option Params :=
  match page with
  | [] => None
  | p :: page =>
      match last_for k page with
      | Some q => Some q
      | None => if key_eqb (params_key p) k then Some p else None
      end
  end.

Lemma content_upsert now p t k :
  content (upsert now p t) k = act_at k p (content t k).
Proof.
  unfold content, act_at, act. rewrite lookup_upsert.
  destruct (key_eqb (params_key p) k); [|reflexivity].
  destruct (lookup k (rows t)); simpl;
    now rewrite ?data_updated, ?data_inserted.
Qed.

Lemma content_upsert_all now page t k :
  content (upsert_all now page t) k = acts k page (content t k).
Proof.
  unfold upsert_all, acts. revert t.
  induction page as [|p page IH]; intros t; simpl; [reflexivity|].
  now rewrite IH, content_upsert.
Qed.

Lemma acts_app k p1 p2 o :
  acts k (p1 ++ p2) o = acts k p2 (acts k p1 o).
Proof. apply fold_left_app. Qed.

Lemma content_upsert_calls calls t k :
  content (upsert_calls calls t) k =
  acts k (List.concat (map snd calls)) (content t k).
Proof.
  unfold upsert_calls. revert t.
  induction calls as [|c calls IH]; intros t; simpl; [reflexivity|].
  now rewrite IH, content_upsert_all, acts_app.
Qed.

Lemma last_for_mentions k page :
  last_for k page = None <-> mentions k page = false.
Proof.
  induction page as [|p page IH]; simpl; [tauto|].
  destruct (last_for k page) as [q|].
  - split; [discriminate|]. intros H.
    apply orb_false_elim in H as [_ H]. apply IH in H. discriminate.
  - destruct (key_eqb (params_key p) k); simpl.
    + split; discriminate.
    + split; intros _; [now apply IH|reflexivity].
Qed.

Lemma acts_unmentioned k page o :
  mentions k page = false -> acts k page o = o.
Proof.
  unfold acts. revert o.
  induction page as [|p page IH]; intros o H; simpl in *;
    [reflexivity|].
  apply orb_false_elim in H as [H1 H2].
  unfold act_at at 2. rewrite H1. now apply IH.
Qed.

(** On an existing row only the last statement for its key shows. *)
Lemma acts_some k page d :
  acts k page (Some d) =
  Some match last_for k page with
       | Some p => updated_data p d
       | None => d
       end.
Proof.
  unfold acts. revert d.
  induction page as [|p page IH]; intros d; simpl; [reflexivity|].
  replace (act_at k p (Some d))
    with (if key_eqb (params_key p) k
          then Some (updated_data p d) else Some d) by reflexivity.
  destruct (key_eqb (params_key p) k); rewrite IH;
    destruct (last_for k page); try reflexivity.
  now rewrite updated_updated.
Qed.

(** After a page, the row of a key it mentions is a fixed point of
    the page's last statement for that key. *)
Lemma acts_settled k page o p :
  last_for k page = Some p ->
  exists d, acts k page o = Some d /\ updated_data p d = d.
Proof.
  unfold acts. revert o.
  induction page as [|q page IH]; intros o H; simpl in *;
    [discriminate|].
  destruct (last_for k page) as [q'|] eqn:L.
  - injection H as ->. now apply IH.
  - destruct (key_eqb (params_key q) k) eqn:E; [|discriminate].
    injection H as ->.
    apply last_for_mentions in L.
    fold (acts k page (act_at k p o)). rewrite acts_unmentioned by exact L.
    unfold act_at, act. rewrite E.
    destruct o as [d|]; eexists; split; try reflexivity; auto.
Qed.

(** Replaying a page changes nothing. *)
Lemma acts_idempotent k page o :
  acts k page (acts k page o) = acts k page o.
Proof.
  destruct (last_for k page) as [p|] eqn:L.
  - destruct (acts_settled k page o p L) as [d [-> Hd]].
    now rewrite acts_some, L, Hd.
  - apply last_for_mentions in L. now rewrite !acts_unmentioned.
Qed.

(** Pages of a set are key-disjoint when a key is mentioned by at
    most one page of the set. *)
Definition disjoint_pages (base : list (list Params)) : Prop :=
  forall p q k, In p base -> In q base ->
    mentions k p = true -> mentions k q = true -> p = q.

(** A sequence of calls replays the pages of [base]: every call
    carries a page of the set, and every page of the set is
    carried by some call. *)
Definition replays (base : list (list Params))
    (calls : list (Z * list Params)) : Prop :=
  forall p, In p base <-> In p (map snd calls).

Lemma acts_concat_absorbed k p0 pages o :
  (forall p, In p pages -> mentions k p = true -> p = p0) ->
  acts k (List.concat pages) (acts k p0 o) = acts k p0 o.
Proof.
  induction pages as [|p pages IH]; intros H; simpl; [reflexivity|].
  rewrite acts_app.
  destruct (mentions k p) eqn:M.
  - rewrite (H p (or_introl eq_refl) M), acts_idempotent.
    apply IH. intros; apply H; simpl; auto.
  - rewrite (acts_unmentioned k p) by exact M.
    apply IH. intros; apply H; simpl; auto.
Qed.

Lemma acts_concat_single k p0 pages o :
  mentions k p0 = true ->
  (forall p, In p pages -> mentions k p = true -> p = p0) ->
  In p0 pages ->
  acts k (List.concat pages) o = acts k p0 o.
Proof.
  intros M0.
  induction pages as [|p pages IH]; intros H Hin; simpl; [destruct Hin|].
  rewrite acts_app.
  destruct (mentions k p) eqn:M.
  - rewrite (H p (or_introl eq_refl) M).
    apply acts_concat_absorbed. intros; apply H; simpl; auto.
  - rewrite (acts_unmentioned k p) by exact M.
    apply IH; [intros; apply H; simpl; auto|].
    destruct Hin as [->|Hin]; [congruence|exact Hin].
Qed.

Lemma acts_concat_unmentioned k pages o :
  (forall p, In p pages -> mentions k p = false) ->
  acts k (List.concat pages) o = o.
Proof.
  induction pages as [|p pages IH]; intros H; simpl; [reflexivity|].
  rewrite acts_app, (acts_unmentioned k p) by (apply H; simpl; auto).
  apply IH. intros; apply H; simpl; auto.
Qed.

(** Replays of one set of key-disjoint pages agree on the content. *)
Lemma content_replays base calls1 calls2 t k :
  disjoint_pages base ->
  replays base calls1 -> replays base calls2 ->
  content (upsert_calls calls1 t) k =
  content (upsert_calls calls2 t) k.
Proof.
  intros D R1 R2. rewrite !content_upsert_calls.
  destruct (existsb (mentions k) base) eqn:E.
  - apply existsb_exists in E as [p0 [Hin M0]].
    transitivity (acts k p0 (content t k)); [|symmetry];
      (apply acts_concat_single;
       [exact M0
       |intros p Hp M; apply (D p p0 k); auto;
        first [now apply R1|now apply R2]
       |first [now apply R1|now apply R2]]).
  - assert (N : forall p, In p base -> mentions k p = false).
    { intros p Hp. destruct (mentions k p) eqn:M; [|reflexivity].
      assert (existsb (mentions k) base = true)
        by (apply existsb_exists; eauto).
      congruence. }
    rewrite !acts_concat_unmentioned; auto.
    + intros p Hp. apply N. now apply R2.
    + intros p Hp. apply N. now apply R1.
Qed.

End Content.
End Upsert.

Lemma unique_update_where c set t :
  (forall r, row_key (set r) = row_key r) ->
  unique t -> unique (update_where c set t).
Proof.
  intros Hset. unfold unique, update_where. rewrite map_map.
  erewrite map_ext; [intros U; exact U|].
  intros r; simpl. destruct (c r); auto.
Qed.

(** Under the [UNIQUE] constraint a key selects at most one row. *)
Lemma unique_filter_key k t :
  unique t -> (List.length (filter (has_key k) t) <= 1)%nat.
Proof.
  unfold unique. induction t as [|r t IH]; simpl; intros U; [lia|].
  inversion U as [|? ? Hnin U']; subst.
  destruct (has_key k r) eqn:E; [|auto].
  simpl. replace (filter (has_key k) t) with (@nil Row); [simpl; lia|].
  symmetry. apply select_where_none. intros r' Hr'.
  destruct (has_key k r') eqn:E'; [|reflexivity].
  exfalso. apply Hnin. apply in_map_iff. exists r'. split; [|exact Hr'].
  unfold has_key in *. apply key_eqb_eq in E, E'. congruence.
Qed.

End Keyed.

(** Keys [(user_id, native id)] and [(parent id, native id)]. *)
Definition owner_key_eqb (a b : Z * string) : bool :=
  (fst a =? fst b) && String.eqb (snd a) (snd b).

Definition parent_key_eqb (a b : string * string) : bool :=
  String.eqb (fst a) (fst b) && String.eqb (snd a) (snd b).

Lemma owner_key_eqb_eq a b : owner_key_eqb a b = true <-> a = b.
Proof.
  destruct a as [u x], b as [v y]; unfold owner_key_eqb; simpl.
  rewrite andb_true_iff, Z.eqb_eq, String.eqb_eq.
  split; [intros [-> ->]; reflexivity|intros [= -> ->]; auto].
Qed.

Lemma parent_key_eqb_eq a b : parent_key_eqb a b = true <-> a = b.
Proof.
  destruct a as [u x], b as [v y]; unfold parent_key_eqb; simpl.
  rewrite andb_true_iff, !String.eqb_eq.
  split; [intros [-> ->]; reflexivity|intros [= -> ->]; auto].
Qed.

(** *** The selection flag of a resource table

    The three resource tables carry [user_id], a native id and
    [is_selected]; the two statements of the select routes are the same
    up to the table's name. *)
Section Selection.
Context {Row : Type}.
Variables (owner : Row -> Z) (native : Row -> string).
Variables (flag : Row -> bool) (set_flag : bool -> Row -> Row).
Hypothesis owner_set : forall b r, owner (set_flag b r) = owner r.
Hypothesis native_set : forall b r, native (set_flag b r) = native r.
Hypothesis flag_set : forall b r, flag (set_flag b r) = b.

Definition resource_key (r : Row) : Z * string := (owner r, native r).

Definition owned_by (u : Z) (r : Row) : bool := owner r =? u.

(** [UPDATE t SET is_selected = FALSE WHERE user_id = $1] *)
Definition deselect_all (u : Z) (t : list Row) : list Row :=
  update_where (owned_by u) (set_flag false) t.

(** [UPDATE t SET is_selected = TRUE
     WHERE user_id = $1 AND native_id = $2 RETURNING *] *)
Definition select_one (u : Z) (k : string) (t : list Row) : list Row :=
  update_where (has_key owner_key_eqb resource_key (u, k))
    (set_flag true) t.

Definition select_one_returning (u : Z) (k : string) (t : list Row)
    : list Row :=
  returning (has_key owner_key_eqb resource_key (u, k)) (set_flag true) t.

(** [SELECT * FROM t WHERE user_id = $1 AND is_selected = TRUE] *)
Definition selected_rows (u : Z) (t : list Row) : list Row :=
  select_where (fun r => owned_by u r && flag r) t.

Lemma resource_key_set b r : resource_key (set_flag b r) = resource_key r.
Proof. unfold resource_key. now rewrite owner_set, native_set. Qed.

Lemma has_resource_key_set u k b r :
  has_key owner_key_eqb resource_key (u, k) (set_flag b r) =
  has_key owner_key_eqb resource_key (u, k) r.
Proof. unfold has_key. now rewrite resource_key_set. Qed.

Lemma has_resource_key_owned u k r :
  has_key owner_key_eqb resource_key (u, k) r = true ->
  owned_by u r = true.
Proof.
  unfold has_key, owner_key_eqb, owned_by; simpl.
  intros H. now apply andb_true_iff in H.
Qed.

(** After the deselect statement no row of the owner is selected. *)
Lemma selected_rows_deselect_all u t :
  selected_rows u (deselect_all u t) = [].
Proof.
  unfold selected_rows, select_where, deselect_all, update_where.
  induction t as [|r t IH]; simpl; [reflexivity|].
  destruct (owned_by u r) eqn:E.
  - unfold owned_by at 1. rewrite owner_set. fold (owned_by u r).
    now rewrite E, flag_set.
  - now rewrite E.
Qed.

(** Rows of other owners are not touched by either statement. *)
Lemma deselect_all_other u t r :
  In r t -> owned_by u r = false -> In r (deselect_all u t).
Proof.
  intros Hin E. apply in_update_where. exists r. now rewrite E.
Qed.

(** After both statements the selected rows of the owner are exactly
    the rows the second statement returned. *)
Lemma selected_rows_select_one u k t :
  selected_rows u (select_one u k (deselect_all u t)) =
  select_one_returning u k (deselect_all u t).
Proof.
  unfold selected_rows, select_where, select_one, select_one_returning,
    returning, deselect_all, update_where.
  induction t as [|r t IH]; simpl; [reflexivity|].
  destruct (owned_by u r) eqn:O.
  - rewrite has_resource_key_set.
    destruct (has_key owner_key_eqb resource_key (u, k) r) eqn:K; simpl.
    + unfold owned_by at 1. rewrite !owner_set. fold (owned_by u r).
      now rewrite O, flag_set, IH.
    + unfold owned_by at 1. rewrite owner_set. fold (owned_by u r).
      now rewrite O, flag_set, IH.
  - destruct (has_key owner_key_eqb resource_key (u, k) r) eqn:K.
    + apply has_resource_key_owned in K. congruence.
    + simpl. now rewrite O, IH.
Qed.

Lemma select_one_returning_key u k t r :
  In r (select_one_returning u k t) ->
  owner r = u /\ native r = k /\ flag r = true.
Proof.
  unfold select_one_returning, returning. rewrite in_map_iff.
  intros [r0 [<- H]]. apply filter_In in H as [_ H].
  rewrite owner_set, native_set, flag_set.
  apply owner_key_eqb_eq in H. now injection H.
Qed.

Lemma select_one_returning_length u k t :
  unique resource_key t ->
  (List.length (select_one_returning u k t) <= 1)%nat.
Proof.
  intros U. unfold select_one_returning, returning.
  rewrite length_map.
  apply (unique_filter_key owner_key_eqb owner_key_eqb_eq); exact U.
Qed.

Lemma unique_deselect_all u t :
  unique resource_key t -> unique resource_key (deselect_all u t).
Proof. apply unique_update_where. apply resource_key_set. Qed.

Lemma unique_select_one u k t :
  unique resource_key t -> unique resource_key (select_one u k t).
Proof. apply unique_update_where. apply resource_key_set. Qed.

(** Without a matching row the second statement changes nothing and
    returns nothing. *)
Lemma select_one_missing u k t :
  conflict owner_key_eqb resource_key (u, k) t = false ->
  select_one u k (deselect_all u t) = deselect_all u t /\
  select_one_returning u k (deselect_all u t) = [].
Proof.
  intros C.
  assert (N : forall r, In r (deselect_all u t) ->
            has_key owner_key_eqb resource_key (u, k) r = false).
  { intros r' Hr'. apply in_update_where in Hr' as [r [Hr ->]].
    assert (K : has_key owner_key_eqb resource_key (u, k) r = false).
    { destruct (has_key owner_key_eqb resource_key (u, k) r) eqn:K;
        [|reflexivity].
      unfold conflict in C.
      assert (existsb (has_key owner_key_eqb resource_key (u, k)) t = true)
        by (apply existsb_exists; eauto).
      congruence. }
    destruct (owned_by u r); [now rewrite has_resource_key_set|exact K]. }
  split.
  - now apply update_where_none.
  - unfold select_one_returning, returning.
    replace (filter (has_key owner_key_eqb resource_key (u, k))
               (deselect_all u t)) with (@nil Row); [reflexivity|].
    symmetry. now apply select_where_none.
Qed.


(** A successful select under the [UNIQUE] constraint: one row returned,
    and it is the owner's only selected row. *)
Lemma select_one_success u k t r rest :
  unique resource_key t ->
  select_one_returning u k (deselect_all u t) = r :: rest ->
  rest = [] /\
  selected_rows u (select_one u k (deselect_all u t)) = [r] /\
  owner r = u /\ native r = k /\ flag r = true.
Proof.
  intros U E.
  assert (L := select_one_returning_length u k _ (unique_deselect_all u t U)).
  rewrite E in L. destruct rest; [|simpl in L; lia].
  split; [reflexivity|]. split.
  - now rewrite selected_rows_select_one.
  - apply (select_one_returning_key u k (deselect_all u t)).
    rewrite E. now left.
Qed.

End Selection.
End Sql.

(** ** [ORDER BY c DESC] and [LIMIT n] *)

Module Order.
Section By.
Context {Row : Type}.
Variable column : Row -> Z.

Fixpoint insert_desc (r : Row) (l : list Row) : list Row :=
  match l with
  | [] => [r]
  | x :: l' =>
      if column x <=? column r then r :: l else x :: insert_desc r l'
  end.

(** [ORDER BY column DESC]; rows that tie keep the table's order. *)
Definition order_by_desc (l : list Row) : list Row :=
  fold_right insert_desc [] l.

(** Each row is followed by rows with a value no larger. *)
Definition descending (l : list Row) : Prop :=
  forall i j a b, (i <= j)%nat ->
    nth_error l i = Some a -> nth_error l j = Some b -> column b <= column a.

(** [LIMIT n] on rows already selected and ordered. *)
Definition limit (n : Z) (l : list Row) : list Row := firstn (Z.to_nat n) l.
End By.
End Order.

(** ** The [verifyToken] middleware of the three route modules *)

Module Auth.

(** [s.startsWith(p)] *)
Fixpoint starts_with (p s : string) : bool :=
  match p, s with
  | EmptyString, _ => true
  | String a p', String b s' => Ascii.eqb a b && starts_with p' s'
  | String _ _, EmptyString => false
  end.

Fixpoint skip (n : nat) (s : string) : string :=
  match n, s with
  | O, _ => s
  | S n', String _ s' => skip n' s'
  | S _, EmptyString => EmptyString
  end.

(** [s.replace(p, "")] for a string pattern: the first occurrence of [p]
    is removed. *)
Fixpoint remove_first (p s : string) : string :=
  if starts_with p s then skip (String.length p) s
  else
    match s with
    | EmptyString => EmptyString
    | String c s' => String c (remove_first p s')
    end.

(** The middleware answers itself or hands [req.userId] to the route. *)
Inductive verdict : Type :=
| Reject (code : Z) (error : string)
| Next (userId : Z).

(** [jwt_verify token] stands for [jwt.verify(token, JWT_SECRET, ...)]:
    the [userId] of the decoded payload, or [None] on an error. *)
Definition verifyToken (jwt_verify : string -> option Z)
    (authorization : option string) : verdict :=
  if negb (Js.truthy_string authorization)
  then Reject 403 "Token required"
  else
    match jwt_verify (remove_first "Bearer " (Js.or_empty authorization)) with
    | None => Reject 403 "Invalid token"
    | Some userId => Next userId
    end.

End Auth.

(** ** Tables shared by the three route modules (database.sql) *)

Module SocialAccount.
Record row : Type := Row {
  id : Z;
  user_id : Z;
  platform : string;
  access_token : option string;
  refresh_token : option string;
  connected : bool;
  created_at : Z
}.

(** [WHERE user_id = $1 AND platform = $2] *)
Definition of_platform (u : Z) (p : string) (r : row) : bool :=
  (user_id r =? u) && String.eqb (platform r) p.
End SocialAccount.

Module ScheduledPost.
Record row : Type := Row {
  id : Z;
  user_id : Z;
  page_id : option string;
  content : string;
  scheduled_time : Z;
  status : string;
  media_url : option string;
  facebook_post_id : option string;
  published_at : option Z;
  created_at : Z
}.

(** [WHERE id = $1]; a [NULL] parameter matches no row. *)
Definition has_id (postId : option Z) (r : row) : bool :=
  match postId with
  | Some i => id r =? i
  | None => false
  end.

(** [WHERE id = $1 AND user_id = $2] *)
Definition has_id_of (postId : option Z) (u : Z) (r : row) : bool :=
  has_id postId r && (user_id r =? u).

(** [SET status = $1, facebook_post_id = $2, published_at = NOW()] *)
Definition set_published (st : string) (remote : string) (now : Z)
    (r : row) : row :=
  Row (id r) (user_id r) (page_id r) (content r) (scheduled_time r)
    st (media_url r) (Some remote) (Some now) (created_at r).

(** [UPDATE scheduled_posts SET status = $1, facebook_post_id = $2,
     published_at = NOW() WHERE id = $3] *)
Definition mark_published (remote : string) (now : Z) (postId : option Z)
    (t : list row) : list row :=
  Sql.update_where (has_id postId) (set_published "published" remote now) t.
End ScheduledPost.

(** ** facebookRoutes.js *)

Module Facebook.

(** *** facebook_pages *)
Module Page.
Record row : Type := Row {
  id : Z;
  user_id : Z;
  page_id : string;
  page_name : string;
  page_access_token : string;
  profile_picture_url : option string;
  followers_count : Z;
  is_selected : bool;
  created_at : Z
}.

(** [UNIQUE(user_id, page_id)] *)
Definition key (r : row) : Z * string := (user_id r, page_id r).

Definition set_is_selected (b : bool) (r : row) : row :=
  Row (id r) (user_id r) (page_id r) (page_name r) (page_access_token r)
    (profile_picture_url r) (followers_count r) b (created_at r).

(** A page of [response.data.data] from [me/accounts]. *)
Record json : Type := Json {
  j_id : string;
  j_name : string;
  j_access_token : string;
  j_picture_url : option string;   (* page.picture?.data?.url *)
  j_followers_count : option Z
}.

(** The parameters [$1 .. $6] of the upsert statement. *)
Record params : Type := Params {
  p_user_id : Z;
  p_page_id : string;
  p_page_name : string;
  p_page_access_token : string;
  p_profile_picture_url : option string;
  p_followers_count : Z
}.

Definition params_of (userId : Z) (page : json) : params :=
  Params userId (j_id page) (j_name page) (j_access_token page)
    (Js.or_null (j_picture_url page))
    (Js.or_zero (j_followers_count page)).

Definition params_key (p : params) : Z * string :=
  (p_user_id p, p_page_id p).

(** [INSERT INTO facebook_pages (user_id, page_id, page_name,
     page_access_token, profile_picture_url, followers_count)
     VALUES ($1, $2, $3, $4, $5, $6)]: [id], [is_selected] and
    [created_at] take their defaults. *)
Definition inserted (serial now : Z) (p : params) : row :=
  Row serial (p_user_id p) (p_page_id p) (p_page_name p)
    (p_page_access_token p) (p_profile_picture_url p)
    (p_followers_count p) false now.

(** [DO UPDATE SET page_name = $3, page_access_token = $4,
     followers_count = $6] *)
Definition updated (p : params) (r : row) : row :=
  Row (id r) (user_id r) (page_id r) (p_page_name p)
    (p_page_access_token p) (profile_picture_url r)
    (p_followers_count p) (is_selected r) (created_at r).

Definition upsert : Z -> params -> Sql.table row -> Sql.table row :=
  Sql.upsert Sql.owner_key_eqb key params_key inserted updated.

(** The loop of [GET /pages] over the fetched pages. *)
Definition store_pages (userId now : Z) (pages : list json)
    (t : Sql.table row) : Sql.table row :=
  Sql.upsert_all Sql.owner_key_eqb key params_key inserted updated
    now (map (params_of userId) pages) t.

(** Successive [GET /pages] synchronisations of one user, each given by
    its instant and the page list the provider returned. *)
Definition store_calls (userId : Z) (calls : list (Z * list json))
    (t : Sql.table row) : Sql.table row :=
  Sql.upsert_calls Sql.owner_key_eqb key params_key inserted updated
    (map (fun c => (fst c, map (params_of userId) (snd c))) calls) t.

Definition lookup (userId : Z) (pageId : string) (t : Sql.table row)
    : option row :=
  Sql.lookup Sql.owner_key_eqb key (userId, pageId) (Sql.rows t).

(** The columns other than the serial id and the creation timestamp. *)
Definition data (r : row)
    : Z * string * string * string * option string * Z * bool :=
  (user_id r, page_id r, page_name r, page_access_token r,
   profile_picture_url r, followers_count r, is_selected r).

(** [ORDER BY followers_count DESC] *)
Fixpoint insert_desc (r : row) (l : list row) : list row :=
  match l with
  | [] => [r]
  | x :: l' =>
      if followers_count x <=? followers_count r
      then r :: l
      else x :: insert_desc r l'
  end.

Definition order_by_followers_desc (l : list row) : list row :=
  fold_right insert_desc [] l.
End Page.

(** [GET /pages].  [graph token] is the reply of [me/accounts]:
    [None] when the call throws, [Some d] with [d] the [data] array of the
    body ([None] when the body has none). *)
Definition get_pages (graph : option string -> option (option (list Page.json)))
    (userId now : Z) (accounts : list SocialAccount.row)
    (pages : Sql.table Page.row)
    : Sql.table Page.row * response (list Page.row) * list (option string) :=
  match Sql.select_where (SocialAccount.of_platform userId "facebook")
          accounts with
  | [] => (pages, Fail 400 "Facebook account not connected", [])
  | account :: _ =>
      let accessToken := SocialAccount.access_token account in
      match graph accessToken with
      | None => (pages, Fail 500 "Failed to fetch pages", [accessToken])
      | Some data =>
          let fetched := match data with Some l => l | None => [] end in
          let pages' := Page.store_pages userId now fetched pages in
          (pages',
           Json (Page.order_by_followers_desc
                   (Sql.select_where (fun r => Page.user_id r =? userId)
                      (Sql.rows pages'))),
           [accessToken])
      end
  end.

Definition deselect_all : Z -> list Page.row -> list Page.row :=
  Sql.deselect_all Page.user_id Page.set_is_selected.

Definition select_one : Z -> string -> list Page.row -> list Page.row :=
  Sql.select_one Page.user_id Page.page_id Page.set_is_selected.

Definition select_one_returning
    : Z -> string -> list Page.row -> list Page.row :=
  Sql.select_one_returning Page.user_id Page.page_id Page.set_is_selected.

Definition selected_rows : Z -> list Page.row -> list Page.row :=
  Sql.selected_rows Page.user_id Page.is_selected.

(** [POST /pages/select]: the reply carries the first returned row. *)
Definition select_page (userId : Z) (pageId : option string)
    (pages : list Page.row) : list Page.row * response Page.row :=
  match pageId with
  | None => (pages, Fail 400 "Page ID required")
  | Some pid =>
      if String.eqb pid "" then (pages, Fail 400 "Page ID required")
      else
        let pages1 := deselect_all userId pages in
        let result := select_one_returning userId pid pages1 in
        let pages2 := select_one userId pid pages1 in
        match result with
        | [] => (pages2, Fail 404 "Page not found")
        | page :: _ => (pages2, Json page)
        end
  end.

(** [GET /pages/selected]: [null] when no row is selected. *)
Definition get_selected_page (userId : Z) (pages : list Page.row)
    : response (option Page.row) :=
  match selected_rows userId pages with
  | [] => Json None
  | page :: _ => Json (Some page)
  end.

(** [POST /disconnect] *)
Definition disconnect (userId : Z) (pages : list Page.row)
    (accounts : list SocialAccount.row)
    : list Page.row * list SocialAccount.row * response string :=
  (Sql.delete_where (fun r => Page.user_id r =? userId) pages,
   Sql.delete_where (SocialAccount.of_platform userId "facebook") accounts,
   Json "Facebook account disconnected").

(** *** facebook_insights *)
Module Insight.
Record row : Type := Row {
  id : Z;
  user_id : Z;
  page_id : string;
  metric_name : string;
  metric_value : Z;
  insight_date : Z;     (* the calendar day, counted from the epoch *)
  created_at : Z
}.

(** [UNIQUE(page_id, metric_name, insight_date)] *)
Definition key (r : row) : string * string * Z :=
  (page_id r, metric_name r, insight_date r).

Definition key_eqb (a b : string * string * Z) : bool :=
  String.eqb (fst (fst a)) (fst (fst b)) &&
  String.eqb (snd (fst a)) (snd (fst b)) &&
  (snd a =? snd b).

(** One entry of [metric.values]. *)
Record value_json : Type := Value { v_value : Z; v_end_time : Z }.

(** One entry of [response.data.data]. *)
Record metric_json : Type := Metric {
  m_name : string;
  m_values : option (list value_json)
}.

(** [new Date(end_time * 1000).toISOString().split('T')[0]]: the UTC day
    of the instant, 86400000 ms to the day. *)
Definition date_of (end_time : Z) : Z := (end_time * 1000) / 86400000.

(** [INSERT INTO facebook_insights (user_id, page_id, metric_name,
     metric_value, insight_date) VALUES ($1, $2, $3, $4, $5)
     ON CONFLICT (page_id, metric_name, insight_date) DO NOTHING] *)
Definition insert_or_ignore (now userId : Z) (pageId name : string)
    (value date : Z) (t : Sql.table row) : Sql.table row :=
  Sql.Table
    (if Sql.conflict key_eqb key (pageId, name, date) (Sql.rows t)
     then Sql.rows t
     else Sql.rows t ++ [Row (Sql.serial t) userId pageId name value date now])
    (Sql.serial t + 1).

(** [for (const value of metric.values || [])] *)
Definition store_values (now userId : Z) (pageId name : string)
    (values : list value_json) (t : Sql.table row) : Sql.table row :=
  fold_left
    (fun t v =>
       insert_or_ignore now userId pageId name (v_value v)
         (date_of (v_end_time v)) t)
    values t.

(** [for (const metric of response.data.data || [])] *)
Definition store_insights (now userId : Z) (pageId : string)
    (metrics : list metric_json) (t : Sql.table row) : Sql.table row :=
  fold_left
    (fun t m =>
       store_values now userId pageId (m_name m)
         (match m_values m with Some l => l | None => [] end) t)
    metrics t.

Definition lookup (pageId name : string) (date : Z) (t : Sql.table row)
    : option row :=
  Sql.lookup key_eqb key (pageId, name, date) (Sql.rows t).

(** The request to [/{page_id}/insights]. *)
Record request : Type := Request {
  q_page_id : string;
  q_access_token : string;
  q_since_until : option (Z * Z)
}.
End Insight.

(** [GET /insights].  [parse_ms] stands for [new Date(s).getTime()]. *)
Definition get_insights
    (graph : Insight.request -> option (option (list Insight.metric_json)))
    (parse_ms : string -> Z)
    (userId now : Z) (startDate endDate : option string)
    (pages : list Page.row) (insights : Sql.table Insight.row)
    : Sql.table Insight.row * response (list Insight.metric_json)
      * list Insight.request :=
  match selected_rows userId pages with
  | [] => (insights, Fail 400 "No page selected", [])
  | page :: _ =>
      let range :=
        match startDate, endDate with
        | Some s, Some e =>
            if Js.truthy_string startDate && Js.truthy_string endDate
            then Some (parse_ms s / 1000, parse_ms e / 1000)
            else None
        | _, _ => None
        end in
      let req :=
        Insight.Request (Page.page_id page) (Page.page_access_token page)
          range in
      match graph req with
      | None => (insights, Fail 500 "Failed to fetch insights", [req])
      | Some data =>
          let metrics := match data with Some l => l | None => [] end in
          (Insight.store_insights now userId (Page.page_id page) metrics
             insights,
           Json metrics, [req])
      end
  end.

(** *** Publishing a scheduled post *)

(** The body posted to [/{page_id}/feed]. *)
Record feed_request : Type := FeedRequest {
  f_page_id : string;
  f_message : string;
  f_access_token : string;
  f_link : option string
}.

(** [WHERE page_id = $1]; the scheduled post's [page_id] may be [NULL]. *)
Definition page_of (pageId : option string) (r : Page.row) : bool :=
  match pageId with
  | Some p => String.eqb (Page.page_id r) p
  | None => false
  end.

(** [POST /publish].  [graph req] is [Some id] with the id of the created
    post, or [None] when the call throws.  The reply carries
    [facebookPostId]. *)
Definition publish (graph : feed_request -> option string)
    (userId now : Z) (postId : option Z)
    (pages : list Page.row) (posts : list ScheduledPost.row)
    : list ScheduledPost.row * response string * list feed_request :=
  match Sql.select_where (ScheduledPost.has_id_of postId userId) posts with
  | [] => (posts, Fail 404 "Post not found", [])
  | post :: _ =>
      match Sql.select_where (page_of (ScheduledPost.page_id post)) pages with
      | [] => (posts, Fail 400 "Page not found", [])
      | page :: _ =>
          let postData :=
            FeedRequest (Page.page_id page) (ScheduledPost.content post)
              (Page.page_access_token page)
              (if Js.truthy_string (ScheduledPost.media_url post)
               then ScheduledPost.media_url post else None) in
          match graph postData with
          | None => (posts, Fail 500 "Failed to publish post", [postData])
          | Some remote =>
              (ScheduledPost.mark_published remote now postId posts,
               Json remote, [postData])
          end
      end
  end.

End Facebook.

(** ** instagramRoutes.js *)

Module Instagram.

(** *** instagram_accounts *)
Module Account.
Record row : Type := Row {
  id : Z;
  user_id : Z;
  instagram_id : string;
  username : string;
  profile_picture_url : option string;
  bio : option string;
  followers_count : Z;
  is_selected : bool;
  access_token : string;
  created_at : Z
}.

(** [UNIQUE(user_id, instagram_id)] *)
Definition key (r : row) : Z * string := (user_id r, instagram_id r).

Definition set_is_selected (b : bool) (r : row) : row :=
  Row (id r) (user_id r) (instagram_id r) (username r)
    (profile_picture_url r) (bio r) (followers_count r) b (access_token r)
    (created_at r).
(** The body of [graph.instagram.com/me]. *)
Record json : Type := Json {
  j_id : string;
  j_username : string;
  j_profile_picture_url : option string;
  j_biography : option string;
  j_followers_count : option Z
}.

(** The parameters [$1 .. $7] of the upsert statement. *)
Record params : Type := Params {
  p_user_id : Z;
  p_instagram_id : string;
  p_username : string;
  p_profile_picture_url : option string;
  p_bio : option string;
  p_followers_count : Z;
  p_access_token : string
}.

Definition params_of (userId : Z) (accessToken : string) (account : json)
    : params :=
  Params userId (j_id account) (j_username account)
    (Js.or_null (j_profile_picture_url account))
    (Js.or_null (j_biography account))
    (Js.or_zero (j_followers_count account)) accessToken.

Definition params_key (p : params) : Z * string :=
  (p_user_id p, p_instagram_id p).

(** [INSERT INTO instagram_accounts (user_id, instagram_id, username,
     profile_picture_url, bio, followers_count, access_token)
     VALUES ($1, ..., $7)]: [id], [is_selected] and [created_at] take their
    defaults. *)
Definition inserted (serial now : Z) (p : params) : row :=
  Row serial (p_user_id p) (p_instagram_id p) (p_username p)
    (p_profile_picture_url p) (p_bio p) (p_followers_count p) false
    (p_access_token p) now.

(** [DO UPDATE SET username = $3, profile_picture_url = $4, bio = $5,
     followers_count = $6, access_token = $7] *)
Definition updated (p : params) (r : row) : row :=
  Row (id r) (user_id r) (instagram_id r) (p_username p)
    (p_profile_picture_url p) (p_bio p) (p_followers_count p)
    (is_selected r) (p_access_token p) (created_at r).

Definition upsert : Z -> params -> Sql.table row -> Sql.table row :=
  Sql.upsert Sql.owner_key_eqb key params_key inserted updated.
End Account.

(** *** instagram_media *)
Module Media.
Record row : Type := Row {
  id : Z;
  user_id : Z;
  instagram_id : string;
  media_id : string;
  caption : option string;
  media_type : option string;
  media_url : option string;
  likes_count : Z;
  comments_count : Z;
  created_time : Z;
  fetched_at : Z
}.

(** [UNIQUE(instagram_id, media_id)] *)
Definition key (r : row) : string * string := (instagram_id r, media_id r).

(** An item of [response.data.data] from [/{instagram_id}/media]. *)
Record json : Type := Json {
  j_id : string;
  j_caption : option string;
  j_media_type : option string;
  j_media_url : option string;
  j_timestamp : option Z;
  j_like_count : option Z;
  j_comments_count : option Z
}.

(** The parameters [$1 .. $9] of the upsert statement. *)
Record params : Type := Params {
  p_user_id : Z;
  p_instagram_id : string;
  p_media_id : string;
  p_caption : option string;
  p_media_type : option string;
  p_media_url : option string;
  p_likes_count : Z;
  p_comments_count : Z;
  p_created_time : Z
}.

(** [media.timestamp || new Date().toISOString()]: the application's clock
    is read at the request's instant. *)
Definition params_of (userId : Z) (instagramId : string) (now : Z)
    (media : json) : params :=
  Params userId instagramId (j_id media) (Js.or_null (j_caption media))
    (j_media_type media) (Js.or_null (j_media_url media))
    (Js.or_zero (j_like_count media)) (Js.or_zero (j_comments_count media))
    (match j_timestamp media with Some t => t | None => now end).

Definition params_key (p : params) : string * string :=
  (p_instagram_id p, p_media_id p).

(** [INSERT INTO instagram_media (user_id, instagram_id, media_id, caption,
     media_type, media_url, likes_count, comments_count, created_time)
     VALUES ($1, ..., $9)]: [id] and [fetched_at] take their defaults. *)
Definition inserted (serial now : Z) (p : params) : row :=
  Row serial (p_user_id p) (p_instagram_id p) (p_media_id p) (p_caption p)
    (p_media_type p) (p_media_url p) (p_likes_count p) (p_comments_count p)
    (p_created_time p) now.

(** [DO UPDATE SET caption = $4, likes_count = $7, comments_count = $8] *)
Definition updated (p : params) (r : row) : row :=
  Row (id r) (user_id r) (instagram_id r) (media_id r) (p_caption p)
    (media_type r) (media_url r) (p_likes_count p) (p_comments_count p)
    (created_time r) (fetched_at r).

Definition upsert : Z -> params -> Sql.table row -> Sql.table row :=
  Sql.upsert Sql.parent_key_eqb key params_key inserted updated.

(** The loop of [GET /media] over the fetched items. *)
Definition store_media (userId : Z) (instagramId : string) (now : Z)
    (items : list json) (t : Sql.table row) : Sql.table row :=
  Sql.upsert_all Sql.parent_key_eqb key params_key inserted updated
    now (map (params_of userId instagramId now) items) t.

(** Successive [GET /media] synchronisations of one account. *)
Definition store_calls (userId : Z) (instagramId : string)
    (calls : list (Z * list json)) (t : Sql.table row) : Sql.table row :=
  Sql.upsert_calls Sql.parent_key_eqb key params_key inserted updated
    (map (fun c =>
            (fst c, map (params_of userId instagramId (fst c)) (snd c)))
       calls) t.

Definition lookup (instagramId mediaId : string) (t : Sql.table row)
    : option row :=
  Sql.lookup Sql.parent_key_eqb key (instagramId, mediaId) (Sql.rows t).

(** The columns other than the serial id and the two timestamps
    ([created_time] falls back on the clock when the provider sends no
    timestamp). *)
Definition data (r : row)
    : Z * string * string * option string * option string * option string
      * Z * Z :=
  (user_id r, instagram_id r, media_id r, caption r, media_type r,
   media_url r, likes_count r, comments_count r).

(** The request to [/{instagram_id}/media]; [limit] defaults to 10. *)
Record request : Type := Request {
  q_instagram_id : string;
  q_access_token : string;
  q_limit : string
}.
End Media.

Definition deselect_all : Z -> list Account.row -> list Account.row :=
  Sql.deselect_all Account.user_id Account.set_is_selected.

Definition select_one : Z -> string -> list Account.row -> list Account.row :=
  Sql.select_one Account.user_id Account.instagram_id Account.set_is_selected.

Definition select_one_returning
    : Z -> string -> list Account.row -> list Account.row :=
  Sql.select_one_returning Account.user_id Account.instagram_id
    Account.set_is_selected.

Definition selected_rows : Z -> list Account.row -> list Account.row :=
  Sql.selected_rows Account.user_id Account.is_selected.

(** [POST /accounts/select] *)
Definition select_account (userId : Z) (instagramId : option string)
    (accounts : list Account.row) : list Account.row * response Account.row :=
  match instagramId with
  | None => (accounts, Fail 400 "Instagram ID required")
  | Some iid =>
      if String.eqb iid "" then (accounts, Fail 400 "Instagram ID required")
      else
        let accounts1 := deselect_all userId accounts in
        let result := select_one_returning userId iid accounts1 in
        let accounts2 := select_one userId iid accounts1 in
        match result with
        | [] => (accounts2, Fail 404 "Instagram account not found")
        | account :: _ => (accounts2, Json account)
        end
  end.

(** [GET /accounts/selected] *)
Definition get_selected_account (userId : Z) (accounts : list Account.row)
    : response (option Account.row) :=
  match selected_rows userId accounts with
  | [] => Json None
  | account :: _ => Json (Some account)
  end.

(** [GET /media].  [graph req] is [None] when the call throws, else the
    [data] array of the body, if any. *)
Definition get_media
    (graph : Media.request -> option (option (list Media.json)))
    (userId now : Z) (limit : option string)
    (accounts : list Account.row) (media : Sql.table Media.row)
    : Sql.table Media.row * response (list Media.json)
      * list Media.request :=
  match selected_rows userId accounts with
  | [] => (media, Fail 400 "No Instagram account selected", [])
  | account :: _ =>
      let req :=
        Media.Request (Account.instagram_id account)
          (Account.access_token account)
          (match limit with Some l => l | None => "10" end) in
      match graph req with
      | None => (media, Fail 500 "Failed to fetch media", [req])
      | Some data =>
          let items := match data with Some l => l | None => [] end in
          (Media.store_media userId (Account.instagram_id account) now items
             media,
           Json items, [req])
      end
  end.

(** *** Publishing a photo *)

(** The two calls of the publish route: the container on
    [/{instagram_id}/media], then [/{instagram_id}/media_publish]. *)
Inductive publish_request : Type :=
| CreateContainer (instagram_id image_url caption access_token : string)
| PublishContainer (instagram_id creation_id access_token : string).

(** [POST /publish].  [graph req] is the [id] of the reply, or [None] when
    the call throws.  The reply carries [mediaId]. *)
Definition publish (graph : publish_request -> option string)
    (userId now : Z) (postId : option Z) (caption imageUrl : option string)
    (accounts : list Account.row) (posts : list ScheduledPost.row)
    : list ScheduledPost.row * response string * list publish_request :=
  if negb (Js.truthy_string imageUrl)
  then (posts, Fail 400 "Image URL required", [])
  else
    match selected_rows userId accounts with
    | [] => (posts, Fail 400 "No Instagram account selected", [])
    | account :: _ =>
        let create :=
          CreateContainer (Account.instagram_id account)
            (Js.or_empty imageUrl)
            (Js.or_empty (Js.or_null caption))
            (Account.access_token account) in
        match graph create with
        | None => (posts, Fail 500 "Failed to publish to Instagram", [create])
        | Some containerId =>
            let pub :=
              PublishContainer (Account.instagram_id account) containerId
                (Account.access_token account) in
            match graph pub with
            | None =>
                (posts, Fail 500 "Failed to publish to Instagram",
                 [create; pub])
            | Some mediaId =>
                (if Js.truthy_number postId
                 then ScheduledPost.mark_published mediaId now postId posts
                 else posts,
                 Json mediaId, [create; pub])
            end
        end
    end.

(** [GET /accounts].  [graph token] is the body of [/me], or [None] when
    the call throws.  The stored token column is [NOT NULL]: with no token
    on the social account the upsert statement throws, after the serial
    default has drawn a value from the sequence.  The reply is the stored
    row, or the provider's body when the final select finds none. *)
Definition get_accounts (graph : option string -> option Account.json)
    (userId now : Z) (social : list SocialAccount.row)
    (accounts : Sql.table Account.row)
    : Sql.table Account.row * response (Account.row + Account.json)
      * list (option string) :=
  match Sql.select_where (SocialAccount.of_platform userId "instagram")
          social with
  | [] => (accounts, Fail 400 "Instagram account not connected", [])
  | connection :: _ =>
      let accessToken := SocialAccount.access_token connection in
      match graph accessToken with
      | None =>
          (accounts, Fail 500 "Failed to fetch Instagram accounts",
           [accessToken])
      | Some igAccount =>
          match accessToken with
          | None =>
              (Sql.Table (Sql.rows accounts) (Sql.serial accounts + 1),
               Fail 500 "Failed to fetch Instagram accounts",
               [accessToken])
          | Some token =>
              let accounts' :=
                Account.upsert now (Account.params_of userId token igAccount)
                  accounts in
              (accounts',
               Json match Sql.select_where
                            (Sql.has_key Sql.owner_key_eqb Account.key
                               (userId, Account.j_id igAccount))
                            (Sql.rows accounts') with
                    | dbAccount :: _ => inl dbAccount
                    | [] => inr igAccount
                    end,
               [accessToken])
          end
      end
  end.

(** [POST /disconnect] *)
Definition disconnect (userId : Z) (accounts : list Account.row)
    (media : list Media.row) (social : list SocialAccount.row)
    : list Account.row * list Media.row * list SocialAccount.row
      * response string :=
  (Sql.delete_where (fun r => Account.user_id r =? userId) accounts,
   Sql.delete_where (fun r => Media.user_id r =? userId) media,
   Sql.delete_where (SocialAccount.of_platform userId "instagram") social,
   Json "Instagram account disconnected").

(** [GET /media/stored].  [limit] is the query field, 20 when absent;
    [parse_int] stands for the database reading the parameter of [LIMIT]
    as an integer, which fails on text that is no number, as [LIMIT] does
    on a negative one. *)
Definition get_stored_media (parse_int : string -> option Z)
    (userId : Z) (limit : option string) (media : list Media.row)
    : response (list Media.row) :=
  match match limit with Some l => parse_int l | None => Some 20 end with
  | None => Fail 500 "Failed to get media"
  | Some n =>
      if n <? 0 then Fail 500 "Failed to get media"
      else
        Json (Order.limit n
                (Order.order_by_desc Media.created_time
                   (Sql.select_where (fun r => Media.user_id r =? userId)
                      media)))
  end.

(** The request to [/{instagram_id}/insights]. *)
Record insights_request : Type := InsightsRequest {
  i_instagram_id : string;
  i_access_token : string
}.

(** [GET /insights]: a failing provider call is answered with an empty
    list.  [Metric] stands for the entries of the body's [data] array. *)
Definition get_insights {Metric : Type}
    (graph : insights_request -> option (option (list Metric)))
    (userId : Z) (accounts : list Account.row)
    : response (list Metric) * list insights_request :=
  match selected_rows userId accounts with
  | [] => (Fail 400 "No Instagram account selected", [])
  | account :: _ =>
      let req :=
        InsightsRequest (Account.instagram_id account)
          (Account.access_token account) in
      match graph req with
      | None => (Json [], [req])
      | Some data => (Json match data with Some l => l | None => [] end, [req])
      end
  end.

End Instagram.

(** ** twitterRoutes.js *)

Module Twitter.

(** *** twitter_accounts *)
Module Account.
Record row : Type := Row {
  id : Z;
  user_id : Z;
  twitter_id : string;
  username : string;
  profile_picture_url : option string;
  bio : option string;
  followers_count : Z;
  is_selected : bool;
  access_token : string;
  refresh_token : option string;
  created_at : Z
}.

(** [UNIQUE(user_id, twitter_id)] *)
Definition key (r : row) : Z * string := (user_id r, twitter_id r).

Definition set_is_selected (b : bool) (r : row) : row :=
  Row (id r) (user_id r) (twitter_id r) (username r)
    (profile_picture_url r) (bio r) (followers_count r) b (access_token r)
    (refresh_token r) (created_at r).
End Account.

(** *** twitter_tweets *)
Module Tweet.
Record row : Type := Row {
  id : Z;
  user_id : Z;
  twitter_id : string;
  tweet_id : string;
  text : option string;
  likes_count : Z;
  retweets_count : Z;
  replies_count : Z;
  created_time : Z;
  fetched_at : Z
}.

(** [UNIQUE(twitter_id, tweet_id)] *)
Definition key (r : row) : string * string := (twitter_id r, tweet_id r).

(** [tweet.public_metrics] *)
Record metrics_json : Type := Metrics {
  m_like_count : option Z;
  m_retweet_count : option Z;
  m_reply_count : option Z
}.

(** An item of [response.data.data] from [/users/{id}/tweets]. *)
Record json : Type := Json {
  j_id : string;
  j_text : option string;
  j_created_at : option Z;
  j_public_metrics : option metrics_json
}.

(** [tweet.public_metrics?.f || 0] *)
Definition metric (f : metrics_json -> option Z) (t : json) : Z :=
  match j_public_metrics t with
  | Some m => Js.or_zero (f m)
  | None => 0
  end.

(** The parameters [$1 .. $8] of the upsert statement. *)
Record params : Type := Params {
  p_user_id : Z;
  p_twitter_id : string;
  p_tweet_id : string;
  p_text : option string;
  p_likes_count : Z;
  p_retweets_count : Z;
  p_replies_count : Z;
  p_created_time : Z
}.

Definition params_of (userId : Z) (twitterId : string) (now : Z)
    (tweet : json) : params :=
  Params userId twitterId (j_id tweet) (j_text tweet)
    (metric m_like_count tweet) (metric m_retweet_count tweet)
    (metric m_reply_count tweet)
    (match j_created_at tweet with Some t => t | None => now end).

Definition params_key (p : params) : string * string :=
  (p_twitter_id p, p_tweet_id p).

(** [INSERT INTO twitter_tweets (user_id, twitter_id, tweet_id, text,
     likes_count, retweets_count, replies_count, created_time)
     VALUES ($1, ..., $8)] *)
Definition inserted (serial now : Z) (p : params) : row :=
  Row serial (p_user_id p) (p_twitter_id p) (p_tweet_id p) (p_text p)
    (p_likes_count p) (p_retweets_count p) (p_replies_count p)
    (p_created_time p) now.

(** [DO UPDATE SET text = $4, likes_count = $5, retweets_count = $6,
     replies_count = $7] *)
Definition updated (p : params) (r : row) : row :=
  Row (id r) (user_id r) (twitter_id r) (tweet_id r) (p_text p)
    (p_likes_count p) (p_retweets_count p) (p_replies_count p)
    (created_time r) (fetched_at r).

Definition upsert : Z -> params -> Sql.table row -> Sql.table row :=
  Sql.upsert Sql.parent_key_eqb key params_key inserted updated.

(** The loop of [GET /tweets] over the fetched tweets. *)
Definition store_tweets (userId : Z) (twitterId : string) (now : Z)
    (tweets : list json) (t : Sql.table row) : Sql.table row :=
  Sql.upsert_all Sql.parent_key_eqb key params_key inserted updated
    now (map (params_of userId twitterId now) tweets) t.

Definition lookup (twitterId tweetId : string) (t : Sql.table row)
    : option row :=
  Sql.lookup Sql.parent_key_eqb key (twitterId, tweetId) (Sql.rows t).

(** The request to [/users/{twitter_id}/tweets]. *)
Record request : Type := Request {
  q_twitter_id : string;
  q_bearer : string;
  q_max_results : string
}.
End Tweet.

Definition deselect_all : Z -> list Account.row -> list Account.row :=
  Sql.deselect_all Account.user_id Account.set_is_selected.

Definition select_one : Z -> string -> list Account.row -> list Account.row :=
  Sql.select_one Account.user_id Account.twitter_id Account.set_is_selected.

Definition select_one_returning
    : Z -> string -> list Account.row -> list Account.row :=
  Sql.select_one_returning Account.user_id Account.twitter_id
    Account.set_is_selected.

Definition selected_rows : Z -> list Account.row -> list Account.row :=
  Sql.selected_rows Account.user_id Account.is_selected.

(** [POST /accounts/select] *)
Definition select_account (userId : Z) (twitterId : option string)
    (accounts : list Account.row) : list Account.row * response Account.row :=
  match twitterId with
  | None => (accounts, Fail 400 "Twitter ID required")
  | Some tid =>
      if String.eqb tid "" then (accounts, Fail 400 "Twitter ID required")
      else
        let accounts1 := deselect_all userId accounts in
        let result := select_one_returning userId tid accounts1 in
        let accounts2 := select_one userId tid accounts1 in
        match result with
        | [] => (accounts2, Fail 404 "Twitter account not found")
        | account :: _ => (accounts2, Json account)
        end
  end.

(** [GET /accounts/selected] *)
Definition get_selected_account (userId : Z) (accounts : list Account.row)
    : response (option Account.row) :=
  match selected_rows userId accounts with
  | [] => Json None
  | account :: _ => Json (Some account)
  end.

(** [GET /tweets] *)
Definition get_tweets
    (api : Tweet.request -> option (option (list Tweet.json)))
    (userId now : Z) (limit : option string)
    (accounts : list Account.row) (tweets : Sql.table Tweet.row)
    : Sql.table Tweet.row * response (list Tweet.json)
      * list Tweet.request :=
  match selected_rows userId accounts with
  | [] => (tweets, Fail 400 "No Twitter account selected", [])
  | account :: _ =>
      let req :=
        Tweet.Request (Account.twitter_id account)
          (Account.access_token account)
          (match limit with Some l => l | None => "10" end) in
      match api req with
      | None => (tweets, Fail 500 "Failed to fetch tweets", [req])
      | Some data =>
          let items := match data with Some l => l | None => [] end in
          (Tweet.store_tweets userId (Account.twitter_id account) now items
             tweets,
           Json items, [req])
      end
  end.

(** *** Posting a tweet *)

(** The call to [/2/tweets]: the text and the bearer token. *)
Record tweet_request : Type := TweetRequest {
  t_text : string;
  t_bearer : string
}.

(** The two checks on [text] at the head of [POST /tweet]; a string
    counts one character per cell, as [text.length] counts code units. *)
Definition text_missing (text : option string) : bool :=
  negb (Js.truthy_string text).

Definition text_too_long (text : string) : bool :=
  (280 <? Z.of_nat (String.length text)).

(** [POST /tweet].  [api req] is [Some id] with the id of the created
    tweet, or [None] when the call throws.  The reply carries [tweetId]. *)
Definition post_tweet (api : tweet_request -> option string)
    (userId now : Z) (postId : option Z) (text : option string)
    (accounts : list Account.row) (posts : list ScheduledPost.row)
    : list ScheduledPost.row * response string * list tweet_request :=
  if text_missing text
  then (posts, Fail 400 "Tweet text required", [])
  else
    if text_too_long (Js.or_empty text)
    then (posts, Fail 400 "Tweet must be 280 characters or less", [])
    else
      match selected_rows userId accounts with
      | [] => (posts, Fail 400 "No Twitter account selected", [])
      | account :: _ =>
          let req :=
            TweetRequest (Js.or_empty text) (Account.access_token account) in
          match api req with
          | None => (posts, Fail 500 "Failed to post tweet", [req])
          | Some tweetId =>
              (if Js.truthy_number postId
               then ScheduledPost.mark_published tweetId now postId posts
               else posts,
               Json tweetId, [req])
          end
      end.

(** [POST /disconnect] *)
Definition disconnect (userId : Z) (accounts : list Account.row)
    (tweets : list Tweet.row) (social : list SocialAccount.row)
    : list Account.row * list Tweet.row * list SocialAccount.row
      * response string :=
  (Sql.delete_where (fun r => Account.user_id r =? userId) accounts,
   Sql.delete_where (fun r => Tweet.user_id r =? userId) tweets,
   Sql.delete_where (SocialAccount.of_platform userId "twitter") social,
   Json "Twitter account disconnected").

(** [GET /tweets/stored]; [limit] and [parse_int] as for the stored media
    of Instagram. *)
Definition get_stored_tweets (parse_int : string -> option Z)
    (userId : Z) (limit : option string) (tweets : list Tweet.row)
    : response (list Tweet.row) :=
  match match limit with Some l => parse_int l | None => Some 20 end with
  | None => Fail 500 "Failed to get tweets"
  | Some n =>
      if n <? 0 then Fail 500 "Failed to get tweets"
      else
        Json (Order.limit n
                (Order.order_by_desc Tweet.created_time
                   (Sql.select_where (fun r => Tweet.user_id r =? userId)
                      tweets)))
  end.

End Twitter.

(** * Properties of the route handlers *)

(** ** The schemas satisfy the laws the statements rely on *)

Lemma page_owner_set b r :
  Facebook.Page.user_id (Facebook.Page.set_is_selected b r) =
  Facebook.Page.user_id r.
Proof. reflexivity. Qed.

Lemma page_native_set b r :
  Facebook.Page.page_id (Facebook.Page.set_is_selected b r) =
  Facebook.Page.page_id r.
Proof. reflexivity. Qed.

Lemma page_flag_set b r :
  Facebook.Page.is_selected (Facebook.Page.set_is_selected b r) = b.
Proof. reflexivity. Qed.

Lemma ig_owner_set b r :
  Instagram.Account.user_id (Instagram.Account.set_is_selected b r) =
  Instagram.Account.user_id r.
Proof. reflexivity. Qed.

Lemma ig_native_set b r :
  Instagram.Account.instagram_id (Instagram.Account.set_is_selected b r) =
  Instagram.Account.instagram_id r.
Proof. reflexivity. Qed.

Lemma ig_flag_set b r :
  Instagram.Account.is_selected (Instagram.Account.set_is_selected b r) = b.
Proof. reflexivity. Qed.

Lemma tw_owner_set b r :
  Twitter.Account.user_id (Twitter.Account.set_is_selected b r) =
  Twitter.Account.user_id r.
Proof. reflexivity. Qed.

Lemma tw_native_set b r :
  Twitter.Account.twitter_id (Twitter.Account.set_is_selected b r) =
  Twitter.Account.twitter_id r.
Proof. reflexivity. Qed.

Lemma tw_flag_set b r :
  Twitter.Account.is_selected (Twitter.Account.set_is_selected b r) = b.
Proof. reflexivity. Qed.

(** ** Selection state *)

(** What a select request with a usable id does, whatever the table. *)
Lemma fb_select_page_cases u R pages :
  R <> "" ->
  let pages1 := Facebook.deselect_all u pages in
  Facebook.select_page u (Some R) pages =
  (Facebook.select_one u R pages1,
   match Facebook.select_one_returning u R pages1 with
   | [] => Fail 404 "Page not found"
   | page :: _ => Json page
   end).
Proof.
  intros HR. unfold Facebook.select_page.
  destruct (String.eqb_spec R ""); [contradiction|].
  simpl. now destruct (Facebook.select_one_returning _ _ _).
Qed.

Lemma tw_select_account_cases u R accounts :
  R <> "" ->
  let accounts1 := Twitter.deselect_all u accounts in
  Twitter.select_account u (Some R) accounts =
  (Twitter.select_one u R accounts1,
   match Twitter.select_one_returning u R accounts1 with
   | [] => Fail 404 "Twitter account not found"
   | account :: _ => Json account
   end).
Proof.
  intros HR. unfold Twitter.select_account.
  destruct (String.eqb_spec R ""); [contradiction|].
  simpl. now destruct (Twitter.select_one_returning _ _ _).
Qed.


(** A select that answers 200 was given a usable id. *)
Lemma fb_select_ok_id u R pages pages1 row :
  Facebook.select_page u (Some R) pages = (pages1, Json row) -> R <> "".
Proof.
  unfold Facebook.select_page. intros H ->. simpl in H. discriminate.
Qed.

Lemma tw_select_ok_id u R accounts accounts1 row :
  Twitter.select_account u (Some R) accounts = (accounts1, Json row) ->
  R <> "".
Proof.
  unfold Twitter.select_account. intros H ->. simpl in H. discriminate.
Qed.

(** One successful select on a table under its [UNIQUE] constraint. *)
Lemma fb_select_page_ok u R pages pages1 row :
  Sql.unique Facebook.Page.key pages ->
  Facebook.select_page u (Some R) pages = (pages1, Json row) ->
  Facebook.selected_rows u pages1 = [row] /\
  Facebook.Page.user_id row = u /\ Facebook.Page.page_id row = R /\
  Facebook.Page.is_selected row = true /\
  Sql.unique Facebook.Page.key pages1.
Proof.
  intros U S. pose proof (fb_select_ok_id _ _ _ _ _ S) as HR.
  rewrite (fb_select_page_cases u R pages HR) in S. simpl in S.
  destruct (Facebook.select_one_returning u R _) as [|r rest] eqn:E;
    [discriminate|].
  injection S as <- <-.
  destruct (Sql.select_one_success Facebook.Page.user_id Facebook.Page.page_id
              Facebook.Page.is_selected Facebook.Page.set_is_selected
              page_owner_set page_native_set page_flag_set
              u R pages r rest U E) as [_ [Hs [Ho [Hn Hf]]]].
  repeat split; auto.
  apply (Sql.unique_select_one _ _ _ page_owner_set page_native_set).
  now apply (Sql.unique_deselect_all _ _ _ page_owner_set page_native_set).
Qed.

Lemma tw_select_account_ok u R accounts accounts1 row :
  Sql.unique Twitter.Account.key accounts ->
  Twitter.select_account u (Some R) accounts = (accounts1, Json row) ->
  Twitter.selected_rows u accounts1 = [row] /\
  Twitter.Account.user_id row = u /\ Twitter.Account.twitter_id row = R /\
  Twitter.Account.is_selected row = true /\
  Sql.unique Twitter.Account.key accounts1.
Proof.
  intros U S. pose proof (tw_select_ok_id _ _ _ _ _ S) as HR.
  rewrite (tw_select_account_cases u R accounts HR) in S. simpl in S.
  destruct (Twitter.select_one_returning u R _) as [|r rest] eqn:E;
    [discriminate|].
  injection S as <- <-.
  destruct (Sql.select_one_success Twitter.Account.user_id
              Twitter.Account.twitter_id Twitter.Account.is_selected
              Twitter.Account.set_is_selected
              tw_owner_set tw_native_set tw_flag_set
              u R accounts r rest U E) as [_ [Hs [Ho [Hn Hf]]]].
  repeat split; auto.
  apply (Sql.unique_select_one _ _ _ tw_owner_set tw_native_set).
  now apply (Sql.unique_deselect_all _ _ _ tw_owner_set tw_native_set).
Qed.

(** The [UNIQUE(user_id, page_id)] constraint holds of the empty table and
    is kept by every route that writes facebook_pages. *)
Lemma unique_empty_pages :
  Sql.unique Facebook.Page.key (Sql.rows (@Sql.empty Facebook.Page.row)).
Proof. constructor. Qed.

Lemma get_pages_unique graph u now accounts pages :
  Sql.unique Facebook.Page.key (Sql.rows pages) ->
  Sql.unique Facebook.Page.key
    (Sql.rows (fst (fst (Facebook.get_pages graph u now accounts pages)))).
Proof.
  intros U. unfold Facebook.get_pages.
  destruct (Sql.select_where _ accounts) as [|account rest]; simpl; [exact U|].
  destruct (graph _) as [data|]; simpl; [|exact U].
  unfold Facebook.Page.store_pages.
  apply Sql.unique_upsert_all;
    [exact Sql.owner_key_eqb_eq|reflexivity|reflexivity|exact U].
Qed.

Lemma select_page_unique u pageId pages :
  Sql.unique Facebook.Page.key pages ->
  Sql.unique Facebook.Page.key (fst (Facebook.select_page u pageId pages)).
Proof.
  intros U. unfold Facebook.select_page.
  destruct pageId as [pid|]; [|exact U].
  destruct (String.eqb pid ""); [exact U|].
  assert (U2 : Sql.unique Facebook.Page.key
                 (Facebook.select_one u pid (Facebook.deselect_all u pages))).
  { apply (Sql.unique_select_one _ _ _ page_owner_set page_native_set).
    now apply (Sql.unique_deselect_all _ _ _ page_owner_set page_native_set). }
  now destruct (Facebook.select_one_returning _ _ _).
Qed.

(** C3: under sequential calls on a table that satisfies its [UNIQUE]
    constraint, after a successful select of [R] the selected-resource
    route returns the row of [R]; after a further successful select of [R']
    exactly one row of the owner is selected, the row of [R'].  Stated for
    the Facebook page routes and for the Twitter account routes. *)
Theorem select_then_get_selected :
  (forall u R pages pages1 row,
     Sql.unique Facebook.Page.key pages ->
     Facebook.select_page u (Some R) pages = (pages1, Json row) ->
     Facebook.get_selected_page u pages1 = Json (Some row) /\
     Facebook.Page.page_id row = R /\
     forall R' pages2 row',
       Facebook.select_page u (Some R') pages1 = (pages2, Json row') ->
       Facebook.selected_rows u pages2 = [row'] /\
       List.length (Facebook.selected_rows u pages2) = 1%nat /\
       Facebook.Page.page_id row' = R' /\
       Facebook.get_selected_page u pages2 = Json (Some row')) /\
  (forall u R accounts accounts1 row,
     Sql.unique Twitter.Account.key accounts ->
     Twitter.select_account u (Some R) accounts = (accounts1, Json row) ->
     Twitter.get_selected_account u accounts1 = Json (Some row) /\
     Twitter.Account.twitter_id row = R /\
     forall R' accounts2 row',
       Twitter.select_account u (Some R') accounts1 = (accounts2, Json row') ->
       Twitter.selected_rows u accounts2 = [row'] /\
       List.length (Twitter.selected_rows u accounts2) = 1%nat /\
       Twitter.Account.twitter_id row' = R' /\
       Twitter.get_selected_account u accounts2 = Json (Some row')).
Proof.
  split.
  - intros u R pages pages1 row U S.
    destruct (fb_select_page_ok u R pages pages1 row U S)
      as [Hs [_ [Hn [_ U1]]]].
    unfold Facebook.get_selected_page. rewrite Hs.
    repeat split; auto.
    all: destruct (fb_select_page_ok u R' pages1 pages2 row' U1 H)
      as [Hs' [_ [Hn' _]]]; rewrite ?Hs'; auto.
  - intros u R accounts accounts1 row U S.
    destruct (tw_select_account_ok u R accounts accounts1 row U S)
      as [Hs [_ [Hn [_ U1]]]].
    unfold Twitter.get_selected_account. rewrite Hs.
    repeat split; auto.
    all: destruct (tw_select_account_ok u R' accounts1 accounts2 row' U1 H)
      as [Hs' [_ [Hn' _]]]; rewrite ?Hs'; auto.
Qed.

(** Sample tables: user 1 manages pages 42 and 99, user 2 page 7. *)
Definition sample_pages : list Facebook.Page.row :=
  [ Facebook.Page.Row 1 1 "42" "A" "token-42" None 10 false 1000;
    Facebook.Page.Row 2 1 "99" "B" "token-99" None 25 false 1000;
    Facebook.Page.Row 3 2 "7" "C" "token-7" None 5 true 1000 ].

Definition sample_twitter_accounts : list Twitter.Account.row :=
  [ Twitter.Account.Row 1 1 "t42" "alice" None None 10 false "bearer-42"
      None 1000;
    Twitter.Account.Row 2 1 "t99" "alice2" None None 25 false "bearer-99"
      None 1000;
    Twitter.Account.Row 3 2 "t7" "bob" None None 5 true "bearer-7"
      None 1000 ].

Definition sample_instagram_accounts : list Instagram.Account.row :=
  [ Instagram.Account.Row 1 1 "i42" "alice" None None 10 false "ig-42" 1000;
    Instagram.Account.Row 2 2 "i7" "bob" None None 5 true "ig-7" 1000 ].

Lemma sample_pages_unique : Sql.unique Facebook.Page.key sample_pages.
Proof.
  unfold Sql.unique; simpl.
  repeat constructor; simpl; intuition discriminate.
Defined.

Lemma sample_twitter_accounts_unique :
  Sql.unique Twitter.Account.key sample_twitter_accounts.
Proof.
  unfold Sql.unique; simpl.
  repeat constructor; simpl; intuition discriminate.
Defined.

Lemma select_then_get_selected_witness :
  (let pages1 := fst (Facebook.select_page 1 (Some "42") sample_pages) in
   let pages2 := fst (Facebook.select_page 1 (Some "99") pages1) in
   Facebook.get_selected_page 1 pages1 =
     Json (Some (Facebook.Page.Row 1 1 "42" "A" "token-42" None 10 true 1000))
   /\ List.length (Facebook.selected_rows 1 pages2) = 1%nat) /\
  (let accounts1 :=
     fst (Twitter.select_account 1 (Some "t42") sample_twitter_accounts) in
   let accounts2 := fst (Twitter.select_account 1 (Some "t99") accounts1) in
   Twitter.get_selected_account 1 accounts1 =
     Json (Some (Twitter.Account.Row 1 1 "t42" "alice" None None 10 true
                   "bearer-42" None 1000))
   /\ List.length (Twitter.selected_rows 1 accounts2) = 1%nat).
Proof.
  destruct select_then_get_selected as [FB TW].
  split.
  - destruct (FB 1 "42" sample_pages
                (fst (Facebook.select_page 1 (Some "42") sample_pages))
                (Facebook.Page.Row 1 1 "42" "A" "token-42" None 10 true 1000)
                sample_pages_unique eq_refl) as [G [_ K]].
    split; [exact G|].
    destruct (K "99"
                (fst (Facebook.select_page 1 (Some "99")
                   (fst (Facebook.select_page 1 (Some "42") sample_pages))))
                (Facebook.Page.Row 2 1 "99" "B" "token-99" None 25 true 1000)
                eq_refl) as [_ [L _]].
    exact L.
  - destruct (TW 1 "t42" sample_twitter_accounts
                (fst (Twitter.select_account 1 (Some "t42")
                        sample_twitter_accounts))
                (Twitter.Account.Row 1 1 "t42" "alice" None None 10 true
                   "bearer-42" None 1000)
                sample_twitter_accounts_unique eq_refl) as [G [_ K]].
    split; [exact G|].
    destruct (K "t99"
                (fst (Twitter.select_account 1 (Some "t99")
                   (fst (Twitter.select_account 1 (Some "t42")
                           sample_twitter_accounts))))
                (Twitter.Account.Row 2 1 "t99" "alice2" None None 25 true
                   "bearer-99" None 1000)
                eq_refl) as [_ [L _]].
    exact L.
Defined.

(** A select request naming a resource the owner does not have answers 404
    after the deselect statement has run: the owner is left with no selected
    resource, and the rows of other owners are as before. *)
Lemma fb_select_missing u R pages :
  R <> "" ->
  Sql.conflict Sql.owner_key_eqb Facebook.Page.key (u, R) pages = false ->
  Facebook.select_page u (Some R) pages =
    (Facebook.deselect_all u pages, Fail 404 "Page not found") /\
  Facebook.get_selected_page u (Facebook.deselect_all u pages) = Json None.
Proof.
  intros HR C. rewrite (fb_select_page_cases u R pages HR). simpl.
  destruct (Sql.select_one_missing Facebook.Page.user_id Facebook.Page.page_id
              Facebook.Page.set_is_selected page_owner_set page_native_set
              u R pages C) as [E1 E2].
  unfold Facebook.select_one, Facebook.select_one_returning,
    Facebook.deselect_all, Facebook.get_selected_page, Facebook.selected_rows.
  rewrite E1, E2.
  now rewrite (Sql.selected_rows_deselect_all _ _ _ page_owner_set
                 page_flag_set).
Qed.

(** C2: user 2 has page 7 selected and asks to select page 42, a page of
    user 1.  The answer is 404, and page 7 is no longer selected: the
    selected-page route, which returned page 7 before the call, returns
    [null] after it.  The same happens on the Instagram and Twitter account
    routes. *)
Theorem select_foreign_resource_clears_selection :
  Facebook.get_selected_page 2 sample_pages =
    Json (Some (Facebook.Page.Row 3 2 "7" "C" "token-7" None 5 true 1000)) /\
  status (snd (Facebook.select_page 2 (Some "42") sample_pages)) = 404 /\
  Facebook.get_selected_page 2
    (fst (Facebook.select_page 2 (Some "42") sample_pages)) = Json None /\
  Twitter.get_selected_account 2 sample_twitter_accounts =
    Json (Some (Twitter.Account.Row 3 2 "t7" "bob" None None 5 true
                  "bearer-7" None 1000)) /\
  status (snd (Twitter.select_account 2 (Some "t42")
                 sample_twitter_accounts)) = 404 /\
  Twitter.get_selected_account 2
    (fst (Twitter.select_account 2 (Some "t42") sample_twitter_accounts)) =
    Json None /\
  Instagram.get_selected_account 2 sample_instagram_accounts =
    Json (Some (Instagram.Account.Row 2 2 "i7" "bob" None None 5 true
                  "ig-7" 1000)) /\
  status (snd (Instagram.select_account 2 (Some "i42")
                 sample_instagram_accounts)) = 404 /\
  Instagram.get_selected_account 2
    (fst (Instagram.select_account 2 (Some "i42")
            sample_instagram_accounts)) = Json None.
Proof. repeat split. Qed.

(** ** Publishing *)

Definition with_status (st : string) (r : ScheduledPost.row)
    : ScheduledPost.row :=
  ScheduledPost.Row (ScheduledPost.id r) (ScheduledPost.user_id r)
    (ScheduledPost.page_id r) (ScheduledPost.content r)
    (ScheduledPost.scheduled_time r) st (ScheduledPost.media_url r)
    (ScheduledPost.facebook_post_id r) (ScheduledPost.published_at r)
    (ScheduledPost.created_at r).

(** The stored rows with their [status] column rewritten by [f]. *)
Definition restatus (f : ScheduledPost.row -> string)
    (posts : list ScheduledPost.row) : list ScheduledPost.row :=
  map (fun r => with_status (f r) r) posts.

Lemma select_where_map {A} (c : A -> bool) (g : A -> A) (l : list A) :
  (forall r, c (g r) = c r) ->
  Sql.select_where c (map g l) = map g (Sql.select_where c l).
Proof.
  intros H. unfold Sql.select_where.
  induction l as [|r l IH]; simpl; [reflexivity|].
  rewrite H. destruct (c r); simpl; now rewrite IH.
Qed.

(** Every row an [UPDATE ... WHERE id = $3] matches carries the new values. *)
Lemma mark_published_rows remote now postId posts r :
  In r (ScheduledPost.mark_published remote now postId posts) ->
  ScheduledPost.has_id postId r = true ->
  ScheduledPost.status r = "published" /\
  ScheduledPost.facebook_post_id r = Some remote /\
  ScheduledPost.published_at r = Some now.
Proof.
  unfold ScheduledPost.mark_published. intros Hin Hid.
  apply Sql.in_update_where in Hin as [r0 [_ ->]].
  destruct (ScheduledPost.has_id postId r0) eqn:E; [now repeat split|].
  congruence.
Qed.

Lemma mark_published_keeps remote now postId posts r :
  In r posts ->
  exists r', In r' (ScheduledPost.mark_published remote now postId posts) /\
    ScheduledPost.id r' = ScheduledPost.id r /\
    ScheduledPost.user_id r' = ScheduledPost.user_id r.
Proof.
  intros Hin. unfold ScheduledPost.mark_published.
  exists (if ScheduledPost.has_id postId r
          then ScheduledPost.set_published "published" remote now r else r).
  split.
  - apply Sql.in_update_where. eauto.
  - now destruct (ScheduledPost.has_id postId r).
Qed.

Definition sample_posts : list ScheduledPost.row :=
  [ ScheduledPost.Row 1 1 (Some "42") "hello" 1500 "published" None
      (Some "fb-old") (Some 1600) 1000;
    ScheduledPost.Row 2 2 (Some "7") "from bob" 1500 "pending" None
      None None 1000 ].

(** C1, as stated, fails: post 1 of user 1 is already published, and the
    publish route still posts it to the page's feed, answers 200 and
    rewrites the row. *)
Lemma publish_of_published_post_calls_provider :
  let res :=
    Facebook.publish (fun _ => Some "fb-new") 1 2000 (Some 1)
      sample_pages sample_posts in
  map ScheduledPost.status
    (Sql.select_where (ScheduledPost.has_id_of (Some 1) 1) sample_posts) =
    ["published"] /\
  snd res = [Facebook.FeedRequest "42" "hello" "token-42" None] /\
  snd (fst res) = Json "fb-new" /\
  fst (fst res) =
    [ ScheduledPost.Row 1 1 (Some "42") "hello" 1500 "published" None
        (Some "fb-new") (Some 2000) 1000;
      ScheduledPost.Row 2 2 (Some "7") "from bob" 1500 "pending" None
        None None 1000 ].
Proof. repeat split. Qed.

(** C1, amended: the publish route never reads [status].  For a caller
    and a [postId] within the range of the [INTEGER] columns they are
    compared with, it answers 404 without calling the provider or writing
    when the caller owns no scheduled post with that id; its response and
    its provider calls are the same whatever the [status] column of the
    stored rows holds; and when it answers 200 every row with that id is
    published, with the provider's post id and [published_at = now]. *)
Theorem publish_does_not_read_status
    (graph : Facebook.feed_request -> option string) (u now : Z)
    (postId : option Z) (pages : list Facebook.Page.row)
    (posts : list ScheduledPost.row) :
  let res := Facebook.publish graph u now postId pages posts in
  (Sql.int4 u -> Sql.int4_opt postId ->
   Sql.select_where (ScheduledPost.has_id_of postId u) posts = [] ->
   res = (posts, Fail 404 "Post not found", [])) /\
  (forall f,
     let res' := Facebook.publish graph u now postId pages (restatus f posts) in
     snd (fst res') = snd (fst res) /\ snd res' = snd res) /\
  (forall remote,
     snd (fst res) = Json remote ->
     forall r, In r (fst (fst res)) ->
       ScheduledPost.has_id postId r = true ->
       ScheduledPost.status r = "published" /\
       ScheduledPost.facebook_post_id r = Some remote /\
       ScheduledPost.published_at r = Some now).
Proof.
  split; [|split].
  - unfold Facebook.publish. now intros _ _ ->.
  - intros f. unfold Facebook.publish, restatus.
    rewrite select_where_map by reflexivity.
    destruct (Sql.select_where (ScheduledPost.has_id_of postId u) posts)
      as [|post rest]; simpl; [auto|].
    destruct (Sql.select_where _ pages) as [|page rest']; simpl; [auto|].
    now destruct (graph _).
  - intros remote. unfold Facebook.publish.
    destruct (Sql.select_where (ScheduledPost.has_id_of postId u) posts)
      as [|post rest]; simpl; [discriminate|].
    destruct (Sql.select_where _ pages) as [|page rest']; simpl;
      [discriminate|].
    destruct (graph _) as [remote'|]; simpl; [|discriminate].
    intros [= ->] r. apply mark_published_rows.
Qed.

Lemma publish_does_not_read_status_witness :
  Facebook.publish (fun _ => Some "fb-new") 2 2000 (Some 1)
    sample_pages sample_posts =
  (sample_posts, Fail 404 "Post not found", []).
Proof.
  apply (publish_does_not_read_status (fun _ => Some "fb-new") 2 2000
           (Some 1) sample_pages sample_posts).
  - unfold Sql.int4; lia.
  - unfold Sql.int4_opt, Sql.int4; lia.
  - reflexivity.
Defined.

(** C8: when a provider call of a publish request fails, the
    scheduled_posts table is exactly as before (the post keeps its status,
    no remote id, no [published_at]) and the caller gets a 500 response.
    Stated for the Facebook publish route, the Twitter tweet route and the
    two provider calls of the Instagram publish route. *)
Theorem provider_failure_leaves_posts_unchanged :
  (forall graph u now postId pages posts,
     let res := Facebook.publish graph u now postId pages posts in
     (exists req, In req (snd res) /\ graph req = None) ->
     fst (fst res) = posts /\ status (snd (fst res)) = 500) /\
  (forall api u now postId text accounts posts,
     let res := Twitter.post_tweet api u now postId text accounts posts in
     (exists req, In req (snd res) /\ api req = None) ->
     fst (fst res) = posts /\ status (snd (fst res)) = 500) /\
  (forall graph u now postId caption imageUrl accounts posts,
     let res :=
       Instagram.publish graph u now postId caption imageUrl accounts posts in
     (exists req, In req (snd res) /\ graph req = None) ->
     fst (fst res) = posts /\ status (snd (fst res)) = 500).
Proof.
  split; [|split].
  - intros graph u now postId pages posts. unfold Facebook.publish.
    destruct (Sql.select_where _ posts) as [|post rest]; simpl;
      [intros [req [[] _]]|].
    destruct (Sql.select_where _ pages) as [|page rest']; simpl;
      [intros [req [[] _]]|].
    destruct (graph _) as [remote|] eqn:G; simpl; [|auto].
    intros [req [[<-|[]] N]]. congruence.
  - intros api u now postId text accounts posts. unfold Twitter.post_tweet.
    destruct (Twitter.text_missing text); simpl; [intros [req [[] _]]|].
    destruct (Twitter.text_too_long _); simpl; [intros [req [[] _]]|].
    destruct (Twitter.selected_rows u accounts) as [|account rest]; simpl;
      [intros [req [[] _]]|].
    destruct (api _) as [tweetId|] eqn:G; simpl; [|auto].
    intros [req [[<-|[]] N]]. congruence.
  - intros graph u now postId caption imageUrl accounts posts.
    unfold Instagram.publish.
    destruct (Js.truthy_string imageUrl); simpl; [|intros [req [[] _]]].
    destruct (Instagram.selected_rows u accounts) as [|account rest]; simpl;
      [intros [req [[] _]]|].
    destruct (graph (Instagram.CreateContainer _ _ _ _))
      as [containerId|] eqn:G1; simpl; [|auto].
    destruct (graph (Instagram.PublishContainer _ _ _))
      as [mediaId|] eqn:G2; simpl; [|auto].
    intros [req [[<-|[<-|[]]] N]]; congruence.
Qed.

Lemma provider_failure_leaves_posts_unchanged_witness :
  fst (fst (Facebook.publish (fun _ => None) 1 2000 (Some 1)
              sample_pages sample_posts)) = sample_posts /\
  fst (fst (Twitter.post_tweet (fun _ => None) 2 2000 (Some 2)
              (Some "good morning") sample_twitter_accounts sample_posts)) =
    sample_posts /\
  status (snd (fst (Instagram.publish
                      (fun req =>
                         match req with
                         | Instagram.CreateContainer _ _ _ _ => Some "c1"
                         | Instagram.PublishContainer _ _ _ => None
                         end)
                      2 2000 (Some 2) None (Some "http://img")
                      sample_instagram_accounts sample_posts))) = 500.
Proof.
  destruct provider_failure_leaves_posts_unchanged as [FB [TW IG]].
  split; [|split].
  - apply (FB (fun _ => None) 1 2000 (Some 1) sample_pages sample_posts).
    exists (Facebook.FeedRequest "42" "hello" "token-42" None).
    split; [now left|reflexivity].
  - apply (TW (fun _ => None) 2 2000 (Some 2) (Some "good morning")
             sample_twitter_accounts sample_posts).
    exists (Twitter.TweetRequest "good morning" "bearer-7").
    split; [now left|reflexivity].
  - apply (IG (fun req =>
                 match req with
                 | Instagram.CreateContainer _ _ _ _ => Some "c1"
                 | Instagram.PublishContainer _ _ _ => None
                 end)
             2 2000 (Some 2) None (Some "http://img")
             sample_instagram_accounts sample_posts).
    exists (Instagram.PublishContainer "i7" "c1" "ig-7").
    split; [right; now left|reflexivity].
Defined.

(** C9: the Twitter tweet route and the Instagram publish route, given a
    [postId], update scheduled_posts by [id] alone.  When [postId]
    identifies a scheduled post of another owner and the route answers 200,
    that owner's post is marked published, with the remote id and
    [published_at = now].  ([postId] is used as a condition first, so it is
    a non-zero number; serial ids start at 1.) *)
Theorem scheduled_post_marked_without_owner_check :
  (forall api u now pid text accounts posts p remote,
     pid <> 0 ->
     In p posts -> ScheduledPost.id p = pid ->
     ScheduledPost.user_id p <> u ->
     let res := Twitter.post_tweet api u now (Some pid) text accounts posts in
     snd (fst res) = Json remote ->
     (exists p', In p' (fst (fst res)) /\
        ScheduledPost.id p' = pid /\
        ScheduledPost.user_id p' = ScheduledPost.user_id p) /\
     (forall p', In p' (fst (fst res)) -> ScheduledPost.id p' = pid ->
        ScheduledPost.status p' = "published" /\
        ScheduledPost.facebook_post_id p' = Some remote /\
        ScheduledPost.published_at p' = Some now)) /\
  (forall graph u now pid caption imageUrl accounts posts p remote,
     pid <> 0 ->
     In p posts -> ScheduledPost.id p = pid ->
     ScheduledPost.user_id p <> u ->
     let res :=
       Instagram.publish graph u now (Some pid) caption imageUrl accounts
         posts in
     snd (fst res) = Json remote ->
     (exists p', In p' (fst (fst res)) /\
        ScheduledPost.id p' = pid /\
        ScheduledPost.user_id p' = ScheduledPost.user_id p) /\
     (forall p', In p' (fst (fst res)) -> ScheduledPost.id p' = pid ->
        ScheduledPost.status p' = "published" /\
        ScheduledPost.facebook_post_id p' = Some remote /\
        ScheduledPost.published_at p' = Some now)).
Proof.
  split.
  - intros api u now pid text accounts posts p remote Hpid Hin Hid _.
    unfold Twitter.post_tweet.
    destruct (Twitter.text_missing text); simpl; [discriminate|].
    destruct (Twitter.text_too_long _); simpl; [discriminate|].
    destruct (Twitter.selected_rows u accounts) as [|account rest]; simpl;
      [discriminate|].
    destruct (api _) as [tweetId|]; simpl; [|discriminate].
    intros [= ->].
    apply Z.eqb_neq in Hpid. rewrite Hpid. simpl. split.
    + destruct (mark_published_keeps remote now (Some pid) posts p Hin)
        as [p' [H1 [H2 H3]]].
      exists p'. repeat split; congruence.
    + intros p' H1 H2. apply (mark_published_rows _ _ _ _ _ H1).
      simpl. now apply Z.eqb_eq.
  - intros graph u now pid caption imageUrl accounts posts p remote
      Hpid Hin Hid _.
    unfold Instagram.publish.
    destruct (Js.truthy_string imageUrl); simpl; [|discriminate].
    destruct (Instagram.selected_rows u accounts) as [|account rest]; simpl;
      [discriminate|].
    destruct (graph (Instagram.CreateContainer _ _ _ _))
      as [containerId|]; simpl; [|discriminate].
    destruct (graph (Instagram.PublishContainer _ _ _))
      as [mediaId|]; simpl; [|discriminate].
    intros [= ->].
    apply Z.eqb_neq in Hpid. rewrite Hpid. simpl. split.
    + destruct (mark_published_keeps remote now (Some pid) posts p Hin)
        as [p' [H1 [H2 H3]]].
      exists p'. repeat split; congruence.
    + intros p' H1 H2. apply (mark_published_rows _ _ _ _ _ H1).
      simpl. now apply Z.eqb_eq.
Qed.

Definition pending_posts : list ScheduledPost.row :=
  [ ScheduledPost.Row 1 1 (Some "42") "hello" 1500 "pending" None
      None None 1000;
    ScheduledPost.Row 2 2 (Some "7") "from bob" 1500 "pending" None
      None None 1000 ].

Lemma scheduled_post_marked_without_owner_check_witness :
  (exists p',
     In p' (fst (fst (Twitter.post_tweet (fun _ => Some "tw-1") 2 2000
                        (Some 1) (Some "hi") sample_twitter_accounts
                        pending_posts))) /\
     ScheduledPost.id p' = 1 /\ ScheduledPost.user_id p' = 1) /\
  (exists p',
     In p' (fst (fst (Instagram.publish (fun _ => Some "ig-1") 2 2000
                        (Some 1) None (Some "http://img")
                        sample_instagram_accounts pending_posts))) /\
     ScheduledPost.id p' = 1 /\ ScheduledPost.user_id p' = 1).
Proof.
  destruct scheduled_post_marked_without_owner_check as [TW IG].
  split.
  - apply (TW (fun _ => Some "tw-1") 2 2000 1 (Some "hi")
             sample_twitter_accounts pending_posts
             (ScheduledPost.Row 1 1 (Some "42") "hello" 1500 "pending" None
                None None 1000) "tw-1").
    + discriminate.
    + now left.
    + reflexivity.
    + discriminate.
    + reflexivity.
  - apply (IG (fun _ => Some "ig-1") 2 2000 1 None (Some "http://img")
             sample_instagram_accounts pending_posts
             (ScheduledPost.Row 1 1 (Some "42") "hello" 1500 "pending" None
                None None 1000) "ig-1").
    + discriminate.
    + now left.
    + reflexivity.
    + discriminate.
    + reflexivity.
Defined.

(** The outcome on the sample tables: user 2 tweets with [postId = 1], a
    pending post of user 1, and that post becomes published. *)
Example tweet_marks_foreign_post :
  fst (fst (Twitter.post_tweet (fun _ => Some "tw-1") 2 2000 (Some 1)
              (Some "hi") sample_twitter_accounts pending_posts)) =
  [ ScheduledPost.Row 1 1 (Some "42") "hello" 1500 "published" None
      (Some "tw-1") (Some 2000) 1000;
    ScheduledPost.Row 2 2 (Some "7") "from bob" 1500 "pending" None
      None None 1000 ].
Proof. reflexivity. Qed.

(** The Facebook publish route, by contrast, loads the scheduled post by
    [id] and [user_id]: another owner's post is not found. *)
Example facebook_publish_checks_owner :
  Facebook.publish (fun _ => Some "fb-1") 2 2000 (Some 1) sample_pages
    pending_posts =
  (pending_posts, Fail 404 "Post not found", []).
Proof. reflexivity. Qed.

(** Its page lookup, however, is by [page_id] alone. *)
Lemma facebook_publish_page_lookup_ignores_owner pageId r :
  Facebook.page_of pageId r =
  Facebook.page_of pageId
    (Facebook.Page.Row (Facebook.Page.id r) 0 (Facebook.Page.page_id r)
       (Facebook.Page.page_name r) (Facebook.Page.page_access_token r)
       (Facebook.Page.profile_picture_url r) (Facebook.Page.followers_count r)
       (Facebook.Page.is_selected r) (Facebook.Page.created_at r)).
Proof. reflexivity. Qed.

(** ** Tweet validation *)

Lemma text_too_long_iff s :
  Twitter.text_too_long s = true <-> (280 < String.length s)%nat.
Proof. unfold Twitter.text_too_long. rewrite Z.ltb_lt. lia. Qed.

(** C10: a tweet request whose text is absent (or empty, which [!text]
    treats alike) or longer than 280 characters is answered 400 with no
    provider call and no write; a text of 280 characters or fewer passes the
    length check, and when it is not empty and an account is selected the
    request reaches the provider. *)
Theorem tweet_text_validation
    (api : Twitter.tweet_request -> option string) (u now : Z)
    (postId : option Z) (text : option string)
    (accounts : list Twitter.Account.row) (posts : list ScheduledPost.row) :
  let res := Twitter.post_tweet api u now postId text accounts posts in
  ((text = None \/ text = Some "" \/
    exists s, text = Some s /\ (280 < String.length s)%nat) ->
   res = (posts,
          Fail 400 (if Twitter.text_missing text then "Tweet text required"
                    else "Tweet must be 280 characters or less"),
          [])) /\
  (forall s, text = Some s -> (String.length s <= 280)%nat ->
     Twitter.text_too_long s = false /\
     snd (fst res) <> Fail 400 "Tweet must be 280 characters or less") /\
  (forall s account rest,
     text = Some s -> s <> "" -> (String.length s <= 280)%nat ->
     Twitter.selected_rows u accounts = account :: rest ->
     snd res = [Twitter.TweetRequest s (Twitter.Account.access_token account)]).
Proof.
  assert (L : forall s, (String.length s <= 280)%nat ->
              Twitter.text_too_long s = false).
  { intros s Hs. destruct (Twitter.text_too_long s) eqn:E; [|reflexivity].
    apply text_too_long_iff in E. lia. }
  split; [|split].
  - intros [->|[->|[s [-> Hs]]]]; try reflexivity.
    unfold Twitter.post_tweet, Twitter.text_missing; simpl.
    destruct (String.eqb_spec s "") as [->|Hne]; simpl; [reflexivity|].
    apply text_too_long_iff in Hs. now rewrite Hs.
  - intros s -> Hs. split; [now apply L|].
    unfold Twitter.post_tweet, Twitter.text_missing; simpl.
    destruct (String.eqb_spec s "") as [->|Hne]; simpl; [discriminate|].
    rewrite (L s Hs).
    destruct (Twitter.selected_rows u accounts); simpl; [discriminate|].
    destruct (api _); simpl; discriminate.
  - intros s account rest -> Hne Hs Hsel.
    unfold Twitter.post_tweet, Twitter.text_missing; simpl.
    destruct (String.eqb_spec s ""); [contradiction|]. simpl.
    rewrite (L s Hs), Hsel. now destruct (api _).
Qed.

Lemma tweet_text_validation_witness :
  Twitter.post_tweet (fun _ => Some "tw-1") 2 2000 None None
    sample_twitter_accounts pending_posts =
    (pending_posts, Fail 400 "Tweet text required", []) /\
  snd (Twitter.post_tweet (fun _ => Some "tw-1") 2 2000 None (Some "hi")
         sample_twitter_accounts pending_posts) =
    [Twitter.TweetRequest "hi" "bearer-7"].
Proof.
  split.
  - apply (tweet_text_validation (fun _ => Some "tw-1") 2 2000 None None
             sample_twitter_accounts pending_posts).
    now left.
  - apply (proj2 (proj2 (tweet_text_validation (fun _ => Some "tw-1") 2 2000
                           None (Some "hi") sample_twitter_accounts
                           pending_posts))
             "hi"
             (Twitter.Account.Row 3 2 "t7" "bob" None None 5 true "bearer-7"
                None 1000)
             []).
    + reflexivity.
    + discriminate.
    + simpl; lia.
    + reflexivity.
Defined.

(** The boundary: 280 characters pass, 281 do not. *)
Fixpoint repeat_char (n : nat) : string :=
  match n with
  | O => ""
  | S n => String "a"%char (repeat_char n)
  end.

Example tweet_length_boundary :
  Twitter.text_too_long (repeat_char 280) = false /\
  Twitter.text_too_long (repeat_char 281) = true.
Proof. split; vm_compute; reflexivity. Qed.

(** ** Insights: insert-only store *)

Lemma insight_key_eqb_eq a b : Facebook.Insight.key_eqb a b = true <-> a = b.
Proof.
  destruct a as [[p m] d], b as [[p' m'] d'].
  unfold Facebook.Insight.key_eqb; simpl.
  rewrite !andb_true_iff, !String.eqb_eq, Z.eqb_eq.
  split; [intros [[-> ->] ->]; reflexivity|intros [= -> -> ->]; auto].
Qed.

(** The statement finds the key taken and does nothing, or appends. *)
Lemma lookup_insert_or_ignore now u pid name v date t k :
  Sql.lookup Facebook.Insight.key_eqb Facebook.Insight.key k
    (Sql.rows (Facebook.Insight.insert_or_ignore now u pid name v date t)) =
  match Sql.lookup Facebook.Insight.key_eqb Facebook.Insight.key k
          (Sql.rows t) with
  | Some r => Some r
  | None =>
      if Facebook.Insight.key_eqb (pid, name, date) k
      then Some (Facebook.Insight.Row (Sql.serial t) u pid name v date now)
      else None
  end.
Proof.
  unfold Facebook.Insight.insert_or_ignore; simpl.
  destruct (Sql.conflict _ _ _ (Sql.rows t)) eqn:C.
  - destruct (Sql.lookup _ _ k (Sql.rows t)) as [r|] eqn:L; [reflexivity|].
    destruct (Facebook.Insight.key_eqb (pid, name, date) k) eqn:E;
      [|reflexivity].
    apply insight_key_eqb_eq in E; subst k.
    apply Sql.conflict_lookup in C as [r Hr]. congruence.
  - now rewrite Sql.lookup_app.
Qed.





(** Two samples of one metric for one day, in one reply: the first is
    stored. *)
Example insights_same_day_twice :
  map Facebook.Insight.metric_value
    (Sql.rows
       (Facebook.Insight.store_insights 5000 1 "42"
          [Facebook.Insight.Metric "page_fans"
             (Some [Facebook.Insight.Value 100 86400;
                    Facebook.Insight.Value 150 86401])]
          Sql.empty)) = [100].
Proof. reflexivity. Qed.

(** ** Mirror upserts *)

(** The columns no [DO UPDATE SET] clause assigns. *)
Definition page_fixed (r : Facebook.Page.row) :=
  (Facebook.Page.id r, Facebook.Page.user_id r, Facebook.Page.page_id r,
   Facebook.Page.profile_picture_url r, Facebook.Page.is_selected r,
   Facebook.Page.created_at r).

Definition media_fixed (r : Instagram.Media.row) :=
  (Instagram.Media.id r, Instagram.Media.user_id r,
   Instagram.Media.instagram_id r, Instagram.Media.media_id r,
   Instagram.Media.media_type r, Instagram.Media.media_url r,
   Instagram.Media.created_time r, Instagram.Media.fetched_at r).

Definition tweet_fixed (r : Twitter.Tweet.row) :=
  (Twitter.Tweet.id r, Twitter.Tweet.user_id r, Twitter.Tweet.twitter_id r,
   Twitter.Tweet.tweet_id r, Twitter.Tweet.created_time r,
   Twitter.Tweet.fetched_at r).

(** C6: no synchronisation deletes a mirror row.  Whatever the provider
    returns (a page of records, an empty page, or a failure), every row of
    the mirror table before [GET /pages], [GET /media] or [GET /tweets] is
    a row of the table afterwards, with its serial id, owner, native id and
    insertion timestamps. *)
Theorem sync_never_deletes_rows :
  (forall graph u now accounts pages r,
     In r (Sql.rows pages) ->
     let res := Facebook.get_pages graph u now accounts pages in
     exists r', In r' (Sql.rows (fst (fst res))) /\
                page_fixed r' = page_fixed r) /\
  (forall graph u now limit accounts media r,
     In r (Sql.rows media) ->
     let res := Instagram.get_media graph u now limit accounts media in
     exists r', In r' (Sql.rows (fst (fst res))) /\
                media_fixed r' = media_fixed r) /\
  (forall api u now limit accounts tweets r,
     In r (Sql.rows tweets) ->
     let res := Twitter.get_tweets api u now limit accounts tweets in
     exists r', In r' (Sql.rows (fst (fst res))) /\
                tweet_fixed r' = tweet_fixed r).
Proof.
  split; [|split].
  - intros graph u now accounts pages r Hin. unfold Facebook.get_pages.
    destruct (Sql.select_where _ accounts) as [|account rest]; simpl;
      [eauto|].
    destruct (graph _) as [data|]; simpl; [|eauto].
    unfold Facebook.Page.store_pages.
    apply Sql.upsert_all_keeps_rows; [reflexivity|exact Hin].
  - intros graph u now limit accounts media r Hin.
    unfold Instagram.get_media.
    destruct (Instagram.selected_rows u accounts) as [|account rest]; simpl;
      [eauto|].
    destruct (graph _) as [data|]; simpl; [|eauto].
    unfold Instagram.Media.store_media.
    apply Sql.upsert_all_keeps_rows; [reflexivity|exact Hin].
  - intros api u now limit accounts tweets r Hin.
    unfold Twitter.get_tweets.
    destruct (Twitter.selected_rows u accounts) as [|account rest]; simpl;
      [eauto|].
    destruct (api _) as [data|]; simpl; [|eauto].
    unfold Twitter.Tweet.store_tweets.
    apply Sql.upsert_all_keeps_rows; [reflexivity|exact Hin].
Qed.

Definition sample_accounts : list SocialAccount.row :=
  [ SocialAccount.Row 1 1 "facebook" (Some "user-token") None true 900 ].

Definition sample_mirror : Sql.table Facebook.Page.row :=
  Sql.Table sample_pages 4.

Definition sample_media : Sql.table Instagram.Media.row :=
  Sql.Table
    [ Instagram.Media.Row 1 2 "i7" "m1" (Some "sunset") (Some "IMAGE")
        (Some "http://img/1") 3 1 800 900 ] 2.

Definition sample_tweets : Sql.table Twitter.Tweet.row :=
  Sql.Table [ Twitter.Tweet.Row 1 2 "t7" "w1" (Some "hello") 3 1 0 800 900 ] 2.

Lemma sync_never_deletes_rows_witness :
  (exists r',
     In r' (Sql.rows (fst (fst (Facebook.get_pages
                                  (fun _ => Some (Some []))
                                  1 2000 sample_accounts sample_mirror))))
     /\ page_fixed r' =
        (2, 1, "99", @None string, false, 1000)) /\
  (exists r',
     In r' (Sql.rows (fst (fst (Instagram.get_media
                                  (fun _ => Some (Some []))
                                  2 2000 None sample_instagram_accounts
                                  sample_media))))
     /\ media_fixed r' =
        (1, 2, "i7", "m1", Some "IMAGE", Some "http://img/1", 800, 900)) /\
  (exists r',
     In r' (Sql.rows (fst (fst (Twitter.get_tweets
                                  (fun _ => Some (Some []))
                                  2 2000 None sample_twitter_accounts
                                  sample_tweets))))
     /\ tweet_fixed r' = (1, 2, "t7", "w1", 800, 900)).
Proof.
  destruct sync_never_deletes_rows as [FB [IG TW]].
  split; [|split].
  - apply (FB (fun _ => Some (Some [])) 1 2000 sample_accounts sample_mirror
             (Facebook.Page.Row 2 1 "99" "B" "token-99" None 25 false 1000)).
    simpl. right. now left.
  - apply (IG (fun _ => Some (Some [])) 2 2000 None
             sample_instagram_accounts sample_media
             (Instagram.Media.Row 1 2 "i7" "m1" (Some "sunset")
                (Some "IMAGE") (Some "http://img/1") 3 1 800 900)).
    simpl. now left.
  - apply (TW (fun _ => Some (Some [])) 2 2000 None
             sample_twitter_accounts sample_tweets
             (Twitter.Tweet.Row 1 2 "t7" "w1" (Some "hello") 3 1 0 800 900)).
    simpl. now left.
Defined.

(** Rows do leave the mirror on disconnect. *)
Lemma disconnect_removes_pages u pages accounts r :
  In r (fst (fst (Facebook.disconnect u pages accounts))) ->
  Facebook.Page.user_id r <> u.
Proof.
  unfold Facebook.disconnect, Sql.delete_where; simpl.
  intros H. apply filter_In in H as [_ H].
  apply negb_true_iff in H. now apply Z.eqb_neq.
Qed.

(** C4, as stated, fails: the upsert of a page whose key exists also
    overwrites the stored page token, and the upsert of a tweet its text;
    neither is an engagement count or a display name. *)
Lemma upsert_overwrites_token_and_text :
  (let t :=
     Facebook.Page.store_pages 1 100
       [Facebook.Page.Json "42" "A" "token-old" None (Some 10)] Sql.empty in
   let t' :=
     Facebook.Page.store_pages 1 200
       [Facebook.Page.Json "42" "A" "token-new" None (Some 10)] t in
   map Facebook.Page.page_access_token (Sql.rows t) = ["token-old"] /\
   map Facebook.Page.page_access_token (Sql.rows t') = ["token-new"]) /\
  (let t :=
     Twitter.Tweet.store_tweets 1 "t42" 100
       [Twitter.Tweet.Json "w1" (Some "first text") (Some 50) None]
       Sql.empty in
   let t' :=
     Twitter.Tweet.store_tweets 1 "t42" 200
       [Twitter.Tweet.Json "w1" (Some "edited text") (Some 50) None] t in
   map Twitter.Tweet.text (Sql.rows t) = [Some "first text"] /\
   map Twitter.Tweet.text (Sql.rows t') = [Some "edited text"]).
Proof. repeat split. Qed.

(** The database accepts an upsert statement when each parameter is a
    value of its column's type ([INTEGER], [VARCHAR(255)], [TEXT],
    [TIMESTAMP]), the user is a row of [users] and the sequence of the
    serial column has a value left. *)
Definition page_statement_accepted (users : list Z)
    (p : Facebook.Page.params) (t : Sql.table Facebook.Page.row) : Prop :=
  Sql.int4 (Facebook.Page.p_user_id p) /\
  Sql.references users (Facebook.Page.p_user_id p) /\
  Sql.varchar 255 (Facebook.Page.p_page_id p) /\
  Sql.varchar 255 (Facebook.Page.p_page_name p) /\
  Sql.text (Facebook.Page.p_page_access_token p) /\
  Sql.text_opt (Facebook.Page.p_profile_picture_url p) /\
  Sql.int4 (Facebook.Page.p_followers_count p) /\
  Sql.has_serial t 1.

Definition tweet_statement_accepted (users : list Z)
    (p : Twitter.Tweet.params) (t : Sql.table Twitter.Tweet.row) : Prop :=
  Sql.int4 (Twitter.Tweet.p_user_id p) /\
  Sql.references users (Twitter.Tweet.p_user_id p) /\
  Sql.varchar 255 (Twitter.Tweet.p_twitter_id p) /\
  Sql.varchar 255 (Twitter.Tweet.p_tweet_id p) /\
  Sql.text_opt (Twitter.Tweet.p_text p) /\
  Sql.int4 (Twitter.Tweet.p_likes_count p) /\
  Sql.int4 (Twitter.Tweet.p_retweets_count p) /\
  Sql.int4 (Twitter.Tweet.p_replies_count p) /\
  Sql.timestamp (Twitter.Tweet.p_created_time p) /\
  Sql.has_serial t 1.

(** C4, amended: the upsert of a record whose key exists, when the
    database accepts the statement, changes, in the
    existing row, the columns of the statement's [DO UPDATE SET] clause and
    nothing else.  For facebook_pages these are [page_name],
    [page_access_token] and [followers_count]; for twitter_tweets [text] and
    the three counts.  The serial id, the owner, the native id, the other
    columns and the insertion timestamps stay as inserted, the table keeps
    its number of rows, and the rows of other keys are as before.  In
    particular, page 42 upserted with 10 followers and then with 15 is one
    row with 15 followers and its first [created_at]. *)
Theorem upsert_existing_changes_set_columns_only
    (users : list Z) (u now : Z) (page : Facebook.Page.json)
    (t : Sql.table Facebook.Page.row) (r : Facebook.Page.row)
    (u' now' : Z) (twitterId : string) (tweet : Twitter.Tweet.json)
    (s : Sql.table Twitter.Tweet.row) (w : Twitter.Tweet.row) :
  (page_statement_accepted users (Facebook.Page.params_of u page) t ->
   Facebook.Page.lookup u (Facebook.Page.j_id page) t = Some r ->
   let t' := Facebook.Page.upsert now (Facebook.Page.params_of u page) t in
   Facebook.Page.lookup u (Facebook.Page.j_id page) t' =
     Some (Facebook.Page.Row
             (Facebook.Page.id r) (Facebook.Page.user_id r)
             (Facebook.Page.page_id r)
             (Facebook.Page.j_name page)
             (Facebook.Page.j_access_token page)
             (Facebook.Page.profile_picture_url r)
             (Js.or_zero (Facebook.Page.j_followers_count page))
             (Facebook.Page.is_selected r) (Facebook.Page.created_at r)) /\
   List.length (Sql.rows t') = List.length (Sql.rows t) /\
   forall r0, In r0 (Sql.rows t) ->
     Facebook.Page.key r0 <> (u, Facebook.Page.j_id page) ->
     In r0 (Sql.rows t')) /\
  (tweet_statement_accepted users
     (Twitter.Tweet.params_of u' twitterId now' tweet) s ->
   Twitter.Tweet.lookup twitterId (Twitter.Tweet.j_id tweet) s = Some w ->
   let s' :=
     Twitter.Tweet.upsert now'
       (Twitter.Tweet.params_of u' twitterId now' tweet) s in
   Twitter.Tweet.lookup twitterId (Twitter.Tweet.j_id tweet) s' =
     Some (Twitter.Tweet.Row
             (Twitter.Tweet.id w) (Twitter.Tweet.user_id w)
             (Twitter.Tweet.twitter_id w) (Twitter.Tweet.tweet_id w)
             (Twitter.Tweet.j_text tweet)
             (Twitter.Tweet.metric Twitter.Tweet.m_like_count tweet)
             (Twitter.Tweet.metric Twitter.Tweet.m_retweet_count tweet)
             (Twitter.Tweet.metric Twitter.Tweet.m_reply_count tweet)
             (Twitter.Tweet.created_time w) (Twitter.Tweet.fetched_at w)) /\
   List.length (Sql.rows s') = List.length (Sql.rows s) /\
   forall w0, In w0 (Sql.rows s) ->
     Twitter.Tweet.key w0 <> (twitterId, Twitter.Tweet.j_id tweet) ->
     In w0 (Sql.rows s')) /\
  (forall now1 now2 name token picture,
     page_statement_accepted users
       (Facebook.Page.params_of u
          (Facebook.Page.Json "42" name token picture (Some 10)))
       Sql.empty ->
     Sql.rows
       (Facebook.Page.store_pages u now2
          [Facebook.Page.Json "42" name token picture (Some 15)]
          (Facebook.Page.store_pages u now1
             [Facebook.Page.Json "42" name token picture (Some 10)]
             Sql.empty)) =
     [Facebook.Page.Row 1 u "42" name token (Js.or_null picture) 15 false
        now1]).
Proof.
  split; [|split].
  - intros _ L t'. unfold Facebook.Page.lookup, Facebook.Page.upsert in *.
    split; [|split].
    + unfold t'. rewrite Sql.lookup_upsert;
        [|exact Sql.owner_key_eqb_eq|reflexivity|reflexivity].
      change (Facebook.Page.params_key (Facebook.Page.params_of u page))
        with (u, Facebook.Page.j_id page).
      now rewrite (proj2 (Sql.owner_key_eqb_eq _ _) eq_refl), L.
    + apply Sql.upsert_existing_length.
      apply Sql.conflict_lookup. exists r. exact L.
    + intros r0 Hin Hk.
      apply Sql.upsert_other_rows; auto. exact Sql.owner_key_eqb_eq.
  - intros _ L s'. unfold Twitter.Tweet.lookup, Twitter.Tweet.upsert in *.
    split; [|split].
    + unfold s'. rewrite Sql.lookup_upsert;
        [|exact Sql.parent_key_eqb_eq|reflexivity|reflexivity].
      change (Twitter.Tweet.params_key
                (Twitter.Tweet.params_of u' twitterId now' tweet))
        with (twitterId, Twitter.Tweet.j_id tweet).
      now rewrite (proj2 (Sql.parent_key_eqb_eq _ _) eq_refl), L.
    + apply Sql.upsert_existing_length.
      apply Sql.conflict_lookup. exists w. exact L.
    + intros w0 Hin Hk.
      apply Sql.upsert_other_rows; auto. exact Sql.parent_key_eqb_eq.
  - intros now1 now2 name token picture _.
    unfold Facebook.Page.store_pages, Sql.upsert_all, Sql.upsert; simpl.
    unfold Sql.has_key, Sql.owner_key_eqb; simpl.
    now rewrite Z.eqb_refl.
Qed.

Lemma upsert_existing_changes_set_columns_only_witness :
  Facebook.Page.lookup 1 "42"
    (Facebook.Page.upsert 2000
       (Facebook.Page.params_of 1
          (Facebook.Page.Json "42" "A2" "token-new" None (Some 15)))
       sample_mirror) =
    Some (Facebook.Page.Row 1 1 "42" "A2" "token-new" None 15 false 1000) /\
  Twitter.Tweet.lookup "t7" "w1"
    (Twitter.Tweet.upsert 2000
       (Twitter.Tweet.params_of 2 "t7" 2000
          (Twitter.Tweet.Json "w1" (Some "edited") None
             (Some (Twitter.Tweet.Metrics (Some 9) None (Some 2)))))
       sample_tweets) =
    Some (Twitter.Tweet.Row 1 2 "t7" "w1" (Some "edited") 9 0 2 800 900).
Proof.
  destruct (upsert_existing_changes_set_columns_only [1; 2] 1 2000
              (Facebook.Page.Json "42" "A2" "token-new" None (Some 15))
              sample_mirror
              (Facebook.Page.Row 1 1 "42" "A" "token-42" None 10 false 1000)
              2 2000 "t7"
              (Twitter.Tweet.Json "w1" (Some "edited") None
                 (Some (Twitter.Tweet.Metrics (Some 9) None (Some 2))))
              sample_tweets
              (Twitter.Tweet.Row 1 2 "t7" "w1" (Some "hello") 3 1 0 800 900))
    as [FB [TW _]].
  split.
  - apply FB; [|reflexivity].
    unfold page_statement_accepted, Sql.int4, Sql.varchar, Sql.has_serial,
      Sql.references, Sql.text_opt, Sql.text;
      repeat split; simpl; first [reflexivity|lia].
  - apply TW; [|reflexivity].
    unfold tweet_statement_accepted, Sql.int4, Sql.varchar, Sql.has_serial,
      Sql.references, Sql.text_opt, Sql.text, Sql.timestamp;
      repeat split; simpl; unfold Twitter.Tweet.metric; simpl;
      first [reflexivity|lia].
Defined.

(** *** Replaying pages

    The upsert loops, seen as upserts whose parameters are the provider's
    records themselves. *)
Section PageReplay.
Variable u : Z.

Definition page_json_key (j : Facebook.Page.json) : Z * string :=
  (u, Facebook.Page.j_id j).

Definition page_json_inserted (serial now : Z) (j : Facebook.Page.json) :=
  Facebook.Page.inserted serial now (Facebook.Page.params_of u j).

Definition page_json_updated (j : Facebook.Page.json) :=
  Facebook.Page.updated (Facebook.Page.params_of u j).

Definition page_inserted_data (j : Facebook.Page.json) :=
  Facebook.Page.data (page_json_inserted 0 0 j).

Definition page_updated_data (j : Facebook.Page.json)
    (d : Z * string * string * string * option string * Z * bool) :=
  let '(uid, pid, _, _, picture, _, selected) := d in
  (uid, pid, Facebook.Page.j_name j, Facebook.Page.j_access_token j,
   picture, Js.or_zero (Facebook.Page.j_followers_count j), selected).

Lemma store_pages_as_json now pages t :
  Facebook.Page.store_pages u now pages t =
  Sql.upsert_all Sql.owner_key_eqb Facebook.Page.key page_json_key
    page_json_inserted page_json_updated now pages t.
Proof.
  unfold Facebook.Page.store_pages, Sql.upsert_all. revert t.
  induction pages as [|j pages IH]; intros t; simpl; [reflexivity|].
  now rewrite IH.
Qed.

Lemma store_calls_as_json calls t :
  Facebook.Page.store_calls u calls t =
  Sql.upsert_calls Sql.owner_key_eqb Facebook.Page.key page_json_key
    page_json_inserted page_json_updated calls t.
Proof.
  unfold Facebook.Page.store_calls, Sql.upsert_calls. revert t.
  induction calls as [|c calls IH]; intros t; simpl; [reflexivity|].
  rewrite IH. f_equal. apply store_pages_as_json.
Qed.

Lemma page_updated_data_twice p q d :
  page_updated_data p (page_updated_data q d) = page_updated_data p d.
Proof. now destruct d as [[[[[[a b] c] e] f] g] h]. Qed.

End PageReplay.

Section MediaReplay.
Variables (u : Z) (instagramId : string).

Definition media_json_key (j : Instagram.Media.json) : string * string :=
  (instagramId, Instagram.Media.j_id j).

Definition media_json_inserted (serial now : Z) (j : Instagram.Media.json) :=
  Instagram.Media.inserted serial now
    (Instagram.Media.params_of u instagramId now j).

(** The [DO UPDATE SET] clause does not use [$9], the only parameter that
    reads the clock. *)
Definition media_json_updated (j : Instagram.Media.json) :=
  Instagram.Media.updated (Instagram.Media.params_of u instagramId 0 j).

Definition media_inserted_data (j : Instagram.Media.json) :=
  Instagram.Media.data (media_json_inserted 0 0 j).

Definition media_updated_data (j : Instagram.Media.json)
    (d : Z * string * string * option string * option string * option string
         * Z * Z) :=
  let '(uid, iid, mid, _, type, url, _, _) := d in
  (uid, iid, mid, Js.or_null (Instagram.Media.j_caption j), type, url,
   Js.or_zero (Instagram.Media.j_like_count j),
   Js.or_zero (Instagram.Media.j_comments_count j)).

Lemma store_media_as_json now items t :
  Instagram.Media.store_media u instagramId now items t =
  Sql.upsert_all Sql.parent_key_eqb Instagram.Media.key media_json_key
    media_json_inserted media_json_updated now items t.
Proof.
  unfold Instagram.Media.store_media, Sql.upsert_all. revert t.
  induction items as [|j items IH]; intros t; simpl; [reflexivity|].
  now rewrite IH.
Qed.

Lemma store_media_calls_as_json calls t :
  Instagram.Media.store_calls u instagramId calls t =
  Sql.upsert_calls Sql.parent_key_eqb Instagram.Media.key media_json_key
    media_json_inserted media_json_updated calls t.
Proof.
  unfold Instagram.Media.store_calls, Sql.upsert_calls. revert t.
  induction calls as [|c calls IH]; intros t; simpl; [reflexivity|].
  rewrite IH. f_equal. apply store_media_as_json.
Qed.

Lemma media_updated_data_twice p q d :
  media_updated_data p (media_updated_data q d) = media_updated_data p d.
Proof. now destruct d as [[[[[[[a b] c] e] f] g] h] i]. Qed.

End MediaReplay.

(** The pages of a set are key-disjoint when no native id occurs in two
    of them. *)
Definition disjoint_ids {J : Type} (native_id : J -> string)
    (base : list (list J)) : Prop :=
  forall p q id, In p base -> In q base ->
    In id (map native_id p) -> In id (map native_id q) -> p = q.

Lemma disjoint_ids_pages {J Key : Type} (native_id : J -> string)
    (key_eqb : Key -> Key -> bool) (parent : string -> Key)
    (base : list (list J)) :
  (forall a b, key_eqb a b = true <-> a = b) ->
  (forall a b, parent a = parent b -> a = b) ->
  disjoint_ids native_id base ->
  Sql.disjoint_pages key_eqb (fun j => parent (native_id j)) base.
Proof.
  intros Heq Hinj D p q k Hp Hq Mp Mq.
  unfold Sql.mentions in Mp, Mq.
  apply existsb_exists in Mp as [jp [Hjp Ep]].
  apply existsb_exists in Mq as [jq [Hjq Eq]].
  apply Heq in Ep, Eq.
  apply (D p q (native_id jp)); auto.
  - now apply in_map.
  - assert (E : native_id jp = native_id jq) by (apply Hinj; congruence).
    rewrite E. now apply in_map.
Qed.

(** C5, as stated, fails: pages that carry one key with different values
    do not commute.  Both call sequences below apply each of the two pages
    exactly once; the mirror ends with 15 followers after one and 10 after
    the other, and a duplicated stale page brings 10 back. *)
Lemma overlapping_pages_do_not_commute :
  let p1 := [Facebook.Page.Json "42" "A" "token" None (Some 10)] in
  let p2 := [Facebook.Page.Json "42" "A" "token" None (Some 15)] in
  map Facebook.Page.followers_count
    (Sql.rows (Facebook.Page.store_calls 1 [(100, p1); (200, p2)] Sql.empty))
    = [15] /\
  map Facebook.Page.followers_count
    (Sql.rows (Facebook.Page.store_calls 1 [(100, p2); (200, p1)] Sql.empty))
    = [10] /\
  map Facebook.Page.followers_count
    (Sql.rows (Facebook.Page.store_calls 1
                 [(100, p1); (200, p2); (300, p1)] Sql.empty))
    = [10].
Proof. repeat split. Qed.

(** C5, amended: for a set of pages in which no native id occurs in two
    pages, any two sequences of synchronisations that replay the set (every
    call carries a page of the set, every page is carried at least once, in
    any order and at any instants) leave the same mirror content: for every
    key, the same row on every column but the serial id and the insertion
    timestamps, which record the call that first inserted the row.  Stated
    for the page mirror of [GET /pages] and the media mirror of
    [GET /media]. *)
Theorem mirror_replay_content :
  (forall u base calls1 calls2 t owner pageId,
     disjoint_ids Facebook.Page.j_id base ->
     Sql.replays base calls1 -> Sql.replays base calls2 ->
     option_map Facebook.Page.data
       (Facebook.Page.lookup owner pageId
          (Facebook.Page.store_calls u calls1 t)) =
     option_map Facebook.Page.data
       (Facebook.Page.lookup owner pageId
          (Facebook.Page.store_calls u calls2 t))) /\
  (forall u instagramId base calls1 calls2 t account mediaId,
     disjoint_ids Instagram.Media.j_id base ->
     Sql.replays base calls1 -> Sql.replays base calls2 ->
     option_map Instagram.Media.data
       (Instagram.Media.lookup account mediaId
          (Instagram.Media.store_calls u instagramId calls1 t)) =
     option_map Instagram.Media.data
       (Instagram.Media.lookup account mediaId
          (Instagram.Media.store_calls u instagramId calls2 t))).
Proof.
  split.
  - intros u base calls1 calls2 t owner pageId D R1 R2.
    rewrite !store_calls_as_json.
    apply (Sql.content_replays Sql.owner_key_eqb Sql.owner_key_eqb_eq
             Facebook.Page.key (page_json_key u) (page_json_inserted u)
             (page_json_updated u) (fun _ _ _ => eq_refl)
             (fun _ _ => eq_refl)
             Facebook.Page.data (page_inserted_data u) page_updated_data
             (fun _ _ _ => eq_refl) (fun _ _ => eq_refl)
             page_updated_data_twice (fun _ => eq_refl)
             base calls1 calls2 t (owner, pageId)); auto.
    apply (disjoint_ids_pages Facebook.Page.j_id Sql.owner_key_eqb
             (fun id => (u, id))); auto.
    + exact Sql.owner_key_eqb_eq.
    + now intros a b [= ->].
  - intros u instagramId base calls1 calls2 t account mediaId D R1 R2.
    rewrite !store_media_calls_as_json.
    apply (Sql.content_replays Sql.parent_key_eqb Sql.parent_key_eqb_eq
             Instagram.Media.key (media_json_key instagramId)
             (media_json_inserted u instagramId)
             (media_json_updated u instagramId) (fun _ _ _ => eq_refl)
             (fun _ _ => eq_refl)
             Instagram.Media.data (media_inserted_data u instagramId)
             media_updated_data
             (fun _ _ _ => eq_refl) (fun _ _ => eq_refl)
             media_updated_data_twice (fun _ => eq_refl)
             base calls1 calls2 t (account, mediaId)); auto.
    apply (disjoint_ids_pages Instagram.Media.j_id Sql.parent_key_eqb
             (fun id => (instagramId, id))); auto.
    + exact Sql.parent_key_eqb_eq.
    + now intros a b [= ->].
Qed.

Definition page_a : list Facebook.Page.json :=
  [Facebook.Page.Json "42" "A" "token-42" None (Some 10)].

Definition page_b : list Facebook.Page.json :=
  [Facebook.Page.Json "99" "B" "token-99" None (Some 25);
   Facebook.Page.Json "7" "C" "token-7" None None].

Definition media_a : list Instagram.Media.json :=
  [Instagram.Media.Json "m1" (Some "sunset") (Some "IMAGE")
     (Some "http://img/1") None (Some 3) (Some 1)].

Definition media_b : list Instagram.Media.json :=
  [Instagram.Media.Json "m2" None (Some "VIDEO") None (Some 700) None None].

Lemma mirror_replay_content_witness :
  option_map Facebook.Page.data
    (Facebook.Page.lookup 1 "42"
       (Facebook.Page.store_calls 1
          [(100, page_a); (200, page_b); (300, page_a)] Sql.empty)) =
  option_map Facebook.Page.data
    (Facebook.Page.lookup 1 "42"
       (Facebook.Page.store_calls 1 [(100, page_b); (200, page_a)]
          Sql.empty)) /\
  option_map Instagram.Media.data
    (Instagram.Media.lookup "i7" "m1"
       (Instagram.Media.store_calls 2 "i7"
          [(100, media_a); (200, media_b); (300, media_a)] Sql.empty)) =
  option_map Instagram.Media.data
    (Instagram.Media.lookup "i7" "m1"
       (Instagram.Media.store_calls 2 "i7" [(100, media_b); (200, media_a)]
          Sql.empty)).
Proof.
  destruct mirror_replay_content as [FB IG].
  split.
  - apply (FB 1 [page_a; page_b]).
    + intros p q id Hp Hq Hip Hiq.
      destruct Hp as [<-|[<-|[]]], Hq as [<-|[<-|[]]];
        try reflexivity; exfalso; simpl in Hip, Hiq;
        intuition congruence.
    + intros p; simpl; tauto.
    + intros p; simpl; tauto.
  - apply (IG 2 "i7" [media_a; media_b]).
    + intros p q id Hp Hq Hip Hiq.
      destruct Hp as [<-|[<-|[]]], Hq as [<-|[<-|[]]];
        try reflexivity; exfalso; simpl in Hip, Hiq;
        intuition congruence.
    + intros p; simpl; tauto.
    + intros p; simpl; tauto.
Defined.

(** On the sample calls the two replays differ in [created_at] alone. *)
Example replay_rows_differ_in_created_at :
  Facebook.Page.lookup 1 "42"
    (Facebook.Page.store_calls 1
       [(100, page_a); (200, page_b); (300, page_a)] Sql.empty) =
    Some (Facebook.Page.Row 1 1 "42" "A" "token-42" None 10 false 100) /\
  Facebook.Page.lookup 1 "42"
    (Facebook.Page.store_calls 1 [(100, page_b); (200, page_a)] Sql.empty) =
    Some (Facebook.Page.Row 3 1 "42" "A" "token-42" None 10 false 200).
Proof. split; reflexivity. Qed.

(** * Further properties of the routes *)

(** ** The bearer token *)

(** [p] occurs somewhere in [s]. *)
Fixpoint occurs (p s : string) : bool :=
  Auth.starts_with p s ||
  match s with
  | EmptyString => false
  | String _ s' => occurs p s'
  end.

Lemma remove_first_unfold p s :
  Auth.remove_first p s =
  if Auth.starts_with p s then Auth.skip (String.length p) s
  else match s with
       | EmptyString => EmptyString
       | String c s' => String c (Auth.remove_first p s')
       end.
Proof. now destruct s. Qed.

Lemma starts_with_append p t : Auth.starts_with p (p ++ t)%string = true.
Proof.
  induction p as [|a p IH]; simpl; [reflexivity|].
  now rewrite Ascii.eqb_refl, IH.
Qed.

Lemma skip_append p t : Auth.skip (String.length p) (p ++ t)%string = t.
Proof. induction p as [|a p IH]; simpl; [reflexivity|exact IH]. Qed.

Lemma remove_first_absent p s : occurs p s = false -> Auth.remove_first p s = s.
Proof.
  induction s as [|c s IH]; intros H; rewrite remove_first_unfold;
    simpl in H; apply orb_false_elim in H as [H1 H2]; rewrite H1;
    [reflexivity|].
  now rewrite IH.
Qed.

(** X1: the middleware strips the literal prefix [Bearer ] once and verifies
    what follows it; a header without the prefix is verified as it is; an
    absent or empty header is rejected without verification. *)
Theorem bearer_header_is_stripped_once
    (jwt_verify : string -> option Z) (t h : string) :
  Auth.verifyToken jwt_verify (Some ("Bearer " ++ t)%string) =
    match jwt_verify t with
    | Some userId => Auth.Next userId
    | None => Auth.Reject 403 "Invalid token"
    end /\
  (h <> "" -> occurs "Bearer " h = false ->
   Auth.verifyToken jwt_verify (Some h) =
     match jwt_verify h with
     | Some userId => Auth.Next userId
     | None => Auth.Reject 403 "Invalid token"
     end) /\
  Auth.verifyToken jwt_verify None = Auth.Reject 403 "Token required" /\
  Auth.verifyToken jwt_verify (Some "") = Auth.Reject 403 "Token required".
Proof.
  split; [|split; [|split; reflexivity]].
  - unfold Auth.verifyToken.
    change (Js.truthy_string (Some ("Bearer " ++ t)%string)) with true.
    cbv [negb Js.or_empty].
    rewrite remove_first_unfold, starts_with_append, skip_append.
    reflexivity.
  - intros Hne Hocc. unfold Auth.verifyToken. simpl.
    destruct (String.eqb_spec h ""); [contradiction|]. simpl.
    now rewrite remove_first_absent.
Qed.

Lemma bearer_header_is_stripped_once_witness :
  Auth.verifyToken (fun s => if String.eqb s "abc.def" then Some 7 else None)
    (Some "abc.def") = Auth.Next 7.
Proof.
  apply (bearer_header_is_stripped_once
           (fun s => if String.eqb s "abc.def" then Some 7 else None)
           "" "abc.def").
  - discriminate.
  - reflexivity.
Defined.

(** ** Ordered listings *)

Lemma In_firstn {A} (n : nat) (l : list A) x : In x (firstn n l) -> In x l.
Proof.
  revert n. induction l as [|y l IH]; intros [|n]; simpl; try tauto.
  intros [->|H]; [now left|right; eauto].
Qed.

Section OrderFacts.
Context {Row : Type}.
Variable column : Row -> Z.

Lemma insert_desc_perm r l :
  Permutation (Order.insert_desc column r l) (r :: l).
Proof.
  induction l as [|x l IH]; simpl; [reflexivity|].
  destruct (column x <=? column r); [reflexivity|].
  rewrite IH. apply perm_swap.
Qed.

Lemma order_by_desc_perm l : Permutation (Order.order_by_desc column l) l.
Proof.
  unfold Order.order_by_desc.
  induction l as [|x l IH]; simpl; [reflexivity|].
  rewrite insert_desc_perm. now constructor.
Qed.

(** Every later row has a value no larger than the head's. *)
Definition bounded_by (r : Row) (l : list Row) : Prop :=
  forall x, In x l -> column x <= column r.

Inductive sorted_desc : list Row -> Prop :=
| sorted_nil : sorted_desc []
| sorted_cons r l : bounded_by r l -> sorted_desc l -> sorted_desc (r :: l).

Lemma insert_desc_sorted r l :
  sorted_desc l -> sorted_desc (Order.insert_desc column r l).
Proof.
  induction 1 as [|x l B S IH]; simpl.
  - constructor; [intros y []|constructor].
  - destruct (column x <=? column r) eqn:E.
    + apply Z.leb_le in E. constructor; [|now constructor].
      intros y [<-|Hy]; [lia|]. specialize (B y Hy). lia.
    + apply Z.leb_gt in E. constructor; [|exact IH].
      intros y Hy.
      apply (Permutation_in _ (insert_desc_perm r l)) in Hy.
      destruct Hy as [<-|Hy]; [lia|now apply B].
Qed.

Lemma order_by_desc_sorted l : sorted_desc (Order.order_by_desc column l).
Proof.
  unfold Order.order_by_desc.
  induction l as [|x l IH]; simpl; [constructor|].
  now apply insert_desc_sorted.
Qed.

Lemma sorted_desc_descending l : sorted_desc l -> Order.descending column l.
Proof.
  induction 1 as [|r l B S IH]; intros i j a b Hij Ha Hb.
  - destruct i; discriminate.
  - destruct i as [|i], j as [|j]; simpl in Ha, Hb; try lia.
    + injection Ha as <-. injection Hb as <-. lia.
    + injection Ha as <-. apply B. eapply nth_error_In; eauto.
    + apply (IH i j); auto; lia.
Qed.

Lemma sorted_desc_firstn n l : sorted_desc l -> sorted_desc (firstn n l).
Proof.
  intros S. revert n.
  induction S as [|r l B S IH]; intros [|n]; simpl; try constructor.
  - intros x Hx. apply B. revert Hx. apply In_firstn.
  - apply IH.
Qed.

(** [ORDER BY column DESC LIMIT n] on the rows [l]: at most [n] rows, all
    of them rows of [l], in descending order, and none left out while
    there is room. *)
Lemma order_limit_facts n l :
  0 <= n ->
  let out := Order.limit n (Order.order_by_desc column l) in
  Order.descending column out /\
  (forall r, In r out -> In r l) /\
  List.length out = Nat.min (Z.to_nat n) (List.length l).
Proof.
  intros Hn out. unfold out, Order.limit. split; [|split].
  - apply sorted_desc_descending, sorted_desc_firstn, order_by_desc_sorted.
  - intros r Hr. apply In_firstn in Hr.
    now apply (Permutation_in _ (order_by_desc_perm l)).
  - rewrite length_firstn.
    now rewrite (Permutation_length (order_by_desc_perm l)).
Qed.

End OrderFacts.

Lemma select_where_In {A} (c : A -> bool) (l : list A) r :
  In r (Sql.select_where c l) <-> In r l /\ c r = true.
Proof. unfold Sql.select_where. apply filter_In. Qed.

(** X13: the stored-media and stored-tweets routes answer 500 when the limit
    is no number or is negative; otherwise they list rows of the caller
    only, newest first, at most [limit] of them (20 by default), and as
    many as the caller has up to that bound. *)
Theorem stored_listing_is_newest_first
    (parse_int : string -> option Z) (u : Z) (limit : option string)
    (media : list Instagram.Media.row) (tweets : list Twitter.Tweet.row) :
  let n := match limit with Some l => parse_int l | None => Some 20 end in
  (match n with
   | Some k =>
       if k <? 0
       then Instagram.get_stored_media parse_int u limit media =
              Fail 500 "Failed to get media"
       else exists rows,
            Instagram.get_stored_media parse_int u limit media = Json rows /\
            Order.descending Instagram.Media.created_time rows /\
            (forall r, In r rows ->
               In r media /\ Instagram.Media.user_id r = u) /\
            List.length rows =
              Nat.min (Z.to_nat k)
                (List.length
                   (Sql.select_where
                      (fun r => Instagram.Media.user_id r =? u) media))
   | None =>
       Instagram.get_stored_media parse_int u limit media =
         Fail 500 "Failed to get media"
   end) /\
  (match n with
   | Some k =>
       if k <? 0
       then Twitter.get_stored_tweets parse_int u limit tweets =
              Fail 500 "Failed to get tweets"
       else exists rows,
            Twitter.get_stored_tweets parse_int u limit tweets = Json rows /\
            Order.descending Twitter.Tweet.created_time rows /\
            (forall r, In r rows ->
               In r tweets /\ Twitter.Tweet.user_id r = u) /\
            List.length rows =
              Nat.min (Z.to_nat k)
                (List.length
                   (Sql.select_where
                      (fun r => Twitter.Tweet.user_id r =? u) tweets))
   | None =>
       Twitter.get_stored_tweets parse_int u limit tweets =
         Fail 500 "Failed to get tweets"
   end).
Proof.
  intros n. unfold Instagram.get_stored_media, Twitter.get_stored_tweets.
  fold n. destruct n as [k|]; [|split; reflexivity].
  destruct (k <? 0) eqn:E; [split; reflexivity|].
  apply Z.ltb_ge in E. split.
  - destruct (order_limit_facts Instagram.Media.created_time k
                (Sql.select_where (fun r => Instagram.Media.user_id r =? u)
                   media) E) as [D [I L]].
    eexists. split; [reflexivity|]. split; [exact D|]. split; [|exact L].
    intros r Hr. apply I, select_where_In in Hr as [H1 H2].
    split; [exact H1|now apply Z.eqb_eq].
  - destruct (order_limit_facts Twitter.Tweet.created_time k
                (Sql.select_where (fun r => Twitter.Tweet.user_id r =? u)
                   tweets) E) as [D [I L]].
    eexists. split; [reflexivity|]. split; [exact D|]. split; [|exact L].
    intros r Hr. apply I, select_where_In in Hr as [H1 H2].
    split; [exact H1|now apply Z.eqb_eq].
Qed.

(** ** Selection: what a select request leaves alone *)

Section SelectionFrame.
Context {Row : Type}.
Variables (owner : Row -> Z) (native : Row -> string).
Variables (flag : Row -> bool) (set_flag : bool -> Row -> Row).
Hypothesis owner_set : forall b r, owner (set_flag b r) = owner r.
Hypothesis native_set : forall b r, native (set_flag b r) = native r.
Hypothesis flag_set : forall b r, flag (set_flag b r) = b.
Hypothesis set_set : forall a b r, set_flag a (set_flag b r) = set_flag a r.

(** The two statements of a select request, one after the other. *)
Definition reselect (u : Z) (k : string) (t : list Row) : list Row :=
  Sql.select_one owner native set_flag u k
    (Sql.deselect_all owner set_flag u t).

Lemma reselect_other_owner u k v t :
  v <> u ->
  Sql.selected_rows owner flag v (reselect u k t) =
  Sql.selected_rows owner flag v t.
Proof.
  intros Hv. unfold reselect, Sql.selected_rows, Sql.select_where,
    Sql.select_one, Sql.deselect_all, Sql.update_where.
  induction t as [|r t IH]; simpl; [reflexivity|].
  rewrite IH. clear IH.
  destruct (Sql.owned_by owner u r) eqn:O.
  - assert (Ov : Sql.owned_by owner v r = false).
    { unfold Sql.owned_by in *. apply Z.eqb_eq in O. apply Z.eqb_neq.
      congruence. }
    assert (E : forall x, owner x = owner r ->
                Sql.owned_by owner v x = false).
    { intros x Hx. unfold Sql.owned_by in *. now rewrite Hx. }
    rewrite Ov; simpl.
    destruct (Sql.has_key _ _ _ (set_flag false r));
      rewrite E; auto; now rewrite ?owner_set.
  - assert (K : Sql.has_key Sql.owner_key_eqb (Sql.resource_key owner native)
                  (u, k) r = false).
    { destruct (Sql.has_key _ _ _ r) eqn:K; [|reflexivity].
      apply (Sql.has_resource_key_owned owner native) in K. congruence. }
    now rewrite K.
Qed.

(** Only the flag column is written. *)
Lemma reselect_flag_only u k t :
  map (set_flag false) (reselect u k t) = map (set_flag false) t.
Proof.
  unfold reselect, Sql.select_one, Sql.deselect_all, Sql.update_where.
  rewrite !map_map. apply map_ext. intros r.
  destruct (Sql.owned_by owner u r);
    destruct (Sql.has_key _ _ _ _); now rewrite ?set_set.
Qed.

Lemma reselect_at_most_one u k t :
  Sql.unique (Sql.resource_key owner native) t ->
  (List.length (Sql.selected_rows owner flag u (reselect u k t)) <= 1)%nat.
Proof.
  intros U. unfold reselect.
  rewrite (Sql.selected_rows_select_one owner native flag set_flag
             owner_set native_set flag_set).
  apply (Sql.select_one_returning_length owner native set_flag); auto.
  now apply (Sql.unique_deselect_all owner native set_flag).
Qed.

End SelectionFrame.

Lemma page_set_set a b r :
  Facebook.Page.set_is_selected a (Facebook.Page.set_is_selected b r) =
  Facebook.Page.set_is_selected a r.
Proof. reflexivity. Qed.

Lemma ig_set_set a b r :
  Instagram.Account.set_is_selected a (Instagram.Account.set_is_selected b r) =
  Instagram.Account.set_is_selected a r.
Proof. reflexivity. Qed.

Lemma tw_set_set a b r :
  Twitter.Account.set_is_selected a (Twitter.Account.set_is_selected b r) =
  Twitter.Account.set_is_selected a r.
Proof. reflexivity. Qed.

(** The table a select request leaves behind. *)
Lemma fb_select_page_table u pageId pages :
  fst (Facebook.select_page u pageId pages) =
  match pageId with
  | Some R =>
      if String.eqb R "" then pages
      else reselect Facebook.Page.user_id Facebook.Page.page_id
             Facebook.Page.set_is_selected u R pages
  | None => pages
  end.
Proof.
  unfold Facebook.select_page. destruct pageId as [R|]; [|reflexivity].
  destruct (String.eqb R ""); [reflexivity|].
  now destruct (Facebook.select_one_returning _ _ _).
Qed.

Lemma ig_select_account_table u instagramId accounts :
  fst (Instagram.select_account u instagramId accounts) =
  match instagramId with
  | Some R =>
      if String.eqb R "" then accounts
      else reselect Instagram.Account.user_id Instagram.Account.instagram_id
             Instagram.Account.set_is_selected u R accounts
  | None => accounts
  end.
Proof.
  unfold Instagram.select_account. destruct instagramId as [R|]; [|reflexivity].
  destruct (String.eqb R ""); [reflexivity|].
  now destruct (Instagram.select_one_returning _ _ _).
Qed.

Lemma tw_select_account_table u twitterId accounts :
  fst (Twitter.select_account u twitterId accounts) =
  match twitterId with
  | Some R =>
      if String.eqb R "" then accounts
      else reselect Twitter.Account.user_id Twitter.Account.twitter_id
             Twitter.Account.set_is_selected u R accounts
  | None => accounts
  end.
Proof.
  unfold Twitter.select_account. destruct twitterId as [R|]; [|reflexivity].
  destruct (String.eqb R ""); [reflexivity|].
  now destruct (Twitter.select_one_returning _ _ _).
Qed.

(** X2: a select request of one user, whatever its outcome, leaves the
    selected resources of every other user as they were, and writes no
    column but [is_selected].  Stated for the three select routes. *)
Theorem select_leaves_other_owners_alone
    (u v : Z) (id : option string)
    (pages : list Facebook.Page.row)
    (ig : list Instagram.Account.row) (tw : list Twitter.Account.row) :
  v <> u ->
  (Facebook.selected_rows v (fst (Facebook.select_page u id pages)) =
     Facebook.selected_rows v pages /\
   map (Facebook.Page.set_is_selected false)
     (fst (Facebook.select_page u id pages)) =
     map (Facebook.Page.set_is_selected false) pages) /\
  (Instagram.selected_rows v (fst (Instagram.select_account u id ig)) =
     Instagram.selected_rows v ig /\
   map (Instagram.Account.set_is_selected false)
     (fst (Instagram.select_account u id ig)) =
     map (Instagram.Account.set_is_selected false) ig) /\
  (Twitter.selected_rows v (fst (Twitter.select_account u id tw)) =
     Twitter.selected_rows v tw /\
   map (Twitter.Account.set_is_selected false)
     (fst (Twitter.select_account u id tw)) =
     map (Twitter.Account.set_is_selected false) tw).
Proof.
  intros Hv.
  rewrite fb_select_page_table, ig_select_account_table,
    tw_select_account_table.
  destruct id as [R|]; [|repeat split].
  destruct (String.eqb R ""); [repeat split|].
  split; [|split]; split.
  - apply (reselect_other_owner _ _ _ _ page_owner_set); auto.
  - apply (reselect_flag_only _ _ _ page_set_set).
  - apply (reselect_other_owner _ _ _ _ ig_owner_set); auto.
  - apply (reselect_flag_only _ _ _ ig_set_set).
  - apply (reselect_other_owner _ _ _ _ tw_owner_set); auto.
  - apply (reselect_flag_only _ _ _ tw_set_set).
Qed.

Lemma select_leaves_other_owners_alone_witness :
  Facebook.selected_rows 2
    (fst (Facebook.select_page 1 (Some "42") sample_pages)) =
  Facebook.selected_rows 2 sample_pages.
Proof.
  apply (select_leaves_other_owners_alone 1 2 (Some "42") sample_pages
           sample_instagram_accounts sample_twitter_accounts).
  discriminate.
Defined.

(** X3: on a table that satisfies its [UNIQUE] constraint, a select request
    that passes the id check leaves the caller with at most one selected
    resource, whether it answers 200 or 404.  Stated for the three select
    routes. *)
Theorem select_leaves_at_most_one_selected
    (u : Z) (R : string)
    (pages : list Facebook.Page.row)
    (ig : list Instagram.Account.row) (tw : list Twitter.Account.row) :
  R <> "" ->
  (Sql.unique Facebook.Page.key pages ->
   (List.length (Facebook.selected_rows u
                   (fst (Facebook.select_page u (Some R) pages))) <= 1)%nat) /\
  (Sql.unique Instagram.Account.key ig ->
   (List.length (Instagram.selected_rows u
                   (fst (Instagram.select_account u (Some R) ig))) <= 1)%nat)
  /\
  (Sql.unique Twitter.Account.key tw ->
   (List.length (Twitter.selected_rows u
                   (fst (Twitter.select_account u (Some R) tw))) <= 1)%nat).
Proof.
  intros HR.
  rewrite fb_select_page_table, ig_select_account_table,
    tw_select_account_table.
  destruct (String.eqb_spec R ""); [contradiction|].
  split; [|split]; intros U.
  - now apply (reselect_at_most_one _ _ _ _ page_owner_set page_native_set
                 page_flag_set).
  - now apply (reselect_at_most_one _ _ _ _ ig_owner_set ig_native_set
                 ig_flag_set).
  - now apply (reselect_at_most_one _ _ _ _ tw_owner_set tw_native_set
                 tw_flag_set).
Qed.

Lemma select_leaves_at_most_one_selected_witness :
  (List.length (Facebook.selected_rows 1
                  (fst (Facebook.select_page 1 (Some "99") sample_pages)))
   <= 1)%nat.
Proof.
  apply (select_leaves_at_most_one_selected 1 "99" sample_pages
           sample_instagram_accounts sample_twitter_accounts).
  - discriminate.
  - exact sample_pages_unique.
Defined.

(** ** Synchronisation: selection, listing and stored values *)

Section UpsertSelection.
Context {Key Row Params Ident : Type}.
Variable key_eqb : Key -> Key -> bool.
Variable row_key : Row -> Key.
Variable params_key : Params -> Key.
Variable inserted : Z -> Z -> Params -> Row.
Variable updated : Params -> Row -> Row.
Variable chosen : Row -> bool.
Variable ident : Row -> Ident.
Hypothesis chosen_updated : forall p r, chosen (updated p r) = chosen r.
Hypothesis ident_updated : forall p r, ident (updated p r) = ident r.
Hypothesis chosen_inserted : forall i now p, chosen (inserted i now p) = false.

Lemma upsert_chosen now p t :
  map ident
    (Sql.select_where chosen
       (Sql.rows (Sql.upsert key_eqb row_key params_key inserted updated
                    now p t))) =
  map ident (Sql.select_where chosen (Sql.rows t)).
Proof.
  unfold Sql.upsert; simpl.
  destruct (Sql.conflict key_eqb row_key (params_key p) (Sql.rows t)).
  - unfold Sql.update_where. rewrite select_where_map.
    + rewrite map_map. apply map_ext. intros r.
      now destruct (Sql.has_key key_eqb row_key (params_key p) r).
    + intros r. now destruct (Sql.has_key key_eqb row_key (params_key p) r).
  - unfold Sql.select_where. rewrite filter_app; simpl.
    now rewrite chosen_inserted, app_nil_r.
Qed.

Lemma upsert_all_chosen now page t :
  map ident
    (Sql.select_where chosen
       (Sql.rows (Sql.upsert_all key_eqb row_key params_key inserted updated
                    now page t))) =
  map ident (Sql.select_where chosen (Sql.rows t)).
Proof.
  unfold Sql.upsert_all. revert t.
  induction page as [|p page IH]; intros t; simpl; [reflexivity|].
  now rewrite IH, upsert_chosen.
Qed.

End UpsertSelection.

(** X4: fetching the pages never changes which page a user has selected: for
    every user the selected rows after [GET /pages] are the selected rows
    before it, on the columns the synchronisation does not refresh; a
    newly inserted page is not selected. *)
Theorem get_pages_keeps_selection
    (graph : option string -> option (option (list Facebook.Page.json)))
    (u now v : Z) (accounts : list SocialAccount.row)
    (pages : Sql.table Facebook.Page.row) :
  let pages' := fst (fst (Facebook.get_pages graph u now accounts pages)) in
  map page_fixed (Facebook.selected_rows v (Sql.rows pages')) =
  map page_fixed (Facebook.selected_rows v (Sql.rows pages)).
Proof.
  unfold Facebook.get_pages.
  destruct (Sql.select_where _ accounts) as [|account rest]; simpl;
    [reflexivity|].
  destruct (graph _) as [data|]; simpl; [|reflexivity].
  unfold Facebook.Page.store_pages, Facebook.selected_rows, Sql.selected_rows.
  apply upsert_all_chosen;
    [reflexivity|reflexivity|intros; apply andb_false_r].
Qed.

(** X5: the pages listed by [GET /pages] are the caller's rows of the table
    after the synchronisation, each once, by decreasing followers. *)
Theorem get_pages_lists_callers_pages
    (graph : option string -> option (option (list Facebook.Page.json)))
    (u now : Z) (accounts : list SocialAccount.row)
    (pages : Sql.table Facebook.Page.row) (listed : list Facebook.Page.row) :
  let res := Facebook.get_pages graph u now accounts pages in
  snd (fst res) = Json listed ->
  Order.descending Facebook.Page.followers_count listed /\
  Permutation listed
    (Sql.select_where (fun r => Facebook.Page.user_id r =? u)
       (Sql.rows (fst (fst res)))) /\
  (forall r, In r listed -> Facebook.Page.user_id r = u).
Proof.
  unfold Facebook.get_pages.
  destruct (Sql.select_where _ accounts) as [|account rest]; simpl;
    [discriminate|].
  destruct (graph _) as [data|]; simpl; [|discriminate].
  intros [= <-].
  change Facebook.Page.order_by_followers_desc
    with (Order.order_by_desc Facebook.Page.followers_count).
  split; [|split].
  - apply sorted_desc_descending, order_by_desc_sorted.
  - apply order_by_desc_perm.
  - intros r Hr.
    apply (Permutation_in _ (order_by_desc_perm _ _)) in Hr.
    apply select_where_In in Hr as [_ Hr]. now apply Z.eqb_eq.
Qed.

Lemma get_pages_lists_callers_pages_witness :
  Order.descending Facebook.Page.followers_count
    [ Facebook.Page.Row 2 1 "99" "B" "token-99" None 25 false 1000;
      Facebook.Page.Row 1 1 "42" "A" "token-42" None 10 false 1000 ].
Proof.
  apply (get_pages_lists_callers_pages (fun _ => Some None) 1 2000
           sample_accounts sample_mirror).
  reflexivity.
Defined.

(** In a page without repeated keys, the last statement for a record's key
    is the record's own. *)
Lemma last_for_nodup {Key Params : Type} (key_eqb : Key -> Key -> bool)
    (params_key : Params -> Key) (page : list Params) (p : Params) :
  (forall a b, key_eqb a b = true <-> a = b) ->
  NoDup (map params_key page) -> In p page ->
  Sql.last_for key_eqb params_key (params_key p) page = Some p.
Proof.
  intros Heq. induction page as [|q page IH]; intros N Hin; [destruct Hin|].
  simpl in N. inversion N as [|? ? Hq N']; subst. simpl.
  destruct Hin as [->|Hin].
  - assert (L : Sql.last_for key_eqb params_key (params_key p) page = None).
    { apply Sql.last_for_mentions.
      destruct (Sql.mentions key_eqb params_key (params_key p) page) eqn:M;
        [|reflexivity].
      unfold Sql.mentions in M. apply existsb_exists in M as [x [Hx Ex]].
      apply Heq in Ex. exfalso. apply Hq. rewrite <- Ex. now apply in_map. }
    rewrite L. now rewrite (proj2 (Heq _ _) eq_refl).
  - now rewrite IH.
Qed.

(** X6: after a successful [GET /pages] whose reply lists each page id once,
    every fetched page is a row of the caller with the fetched name, page
    token and followers count (0 when the reply has none), and the response
    lists that row. *)
Theorem fetched_pages_are_stored
    (graph : option string -> option (option (list Facebook.Page.json)))
    (u now : Z) (accounts : list SocialAccount.row)
    (pages pages' : Sql.table Facebook.Page.row)
    (listed : list Facebook.Page.row) (token : option string)
    (fetched : list Facebook.Page.json) (j : Facebook.Page.json) :
  Facebook.get_pages graph u now accounts pages =
    (pages', Json listed, [token]) ->
  graph token = Some (Some fetched) ->
  NoDup (map Facebook.Page.j_id fetched) ->
  In j fetched ->
  exists r,
    Facebook.Page.lookup u (Facebook.Page.j_id j) pages' = Some r /\
    In r listed /\
    Facebook.Page.user_id r = u /\
    Facebook.Page.page_id r = Facebook.Page.j_id j /\
    Facebook.Page.page_name r = Facebook.Page.j_name j /\
    Facebook.Page.page_access_token r = Facebook.Page.j_access_token j /\
    Facebook.Page.followers_count r =
      Js.or_zero (Facebook.Page.j_followers_count j).
Proof.
  unfold Facebook.get_pages.
  destruct (Sql.select_where _ accounts) as [|account rest]; simpl;
    [discriminate|].
  destruct (graph (SocialAccount.access_token account)) as [data|] eqn:G;
    simpl; [|discriminate].
  intros [= <- <- <-] G' N Hin. rewrite G in G'. injection G' as ->.
  assert (Nk : NoDup (map (page_json_key u) fetched)).
  { clear - N. induction fetched as [|x l IH]; simpl; [constructor|].
    inversion N as [|? ? Hx N']; subst. constructor; [|now apply IH].
    intros H. apply Hx. apply in_map_iff in H as [y [Ey Hy]].
    injection Ey as Ey. rewrite <- Ey. now apply in_map. }
  pose proof (last_for_nodup Sql.owner_key_eqb (page_json_key u) fetched j
                Sql.owner_key_eqb_eq Nk Hin) as L.
  pose proof (Sql.content_upsert_all Sql.owner_key_eqb Sql.owner_key_eqb_eq
                Facebook.Page.key (page_json_key u) (page_json_inserted u)
                (page_json_updated u) (fun _ _ _ => eq_refl)
                (fun _ _ => eq_refl)
                Facebook.Page.data (page_inserted_data u) page_updated_data
                (fun _ _ _ => eq_refl) (fun _ _ => eq_refl)
                now fetched pages (page_json_key u j)) as C.
  destruct (Sql.acts_settled Sql.owner_key_eqb (page_json_key u)
              (page_inserted_data u) page_updated_data
              page_updated_data_twice (fun _ => eq_refl)
              (page_json_key u j) fetched
              (Sql.content Sql.owner_key_eqb Facebook.Page.key
                 Facebook.Page.data pages (page_json_key u j))
              j L) as [d [A S]].
  rewrite A in C. rewrite <- store_pages_as_json in C.
  unfold Sql.content in C. unfold Facebook.Page.lookup.
  change (page_json_key u j) with (u, Facebook.Page.j_id j) in C.
  destruct (Sql.lookup Sql.owner_key_eqb Facebook.Page.key
              (u, Facebook.Page.j_id j)
              (Sql.rows (Facebook.Page.store_pages u now fetched pages)))
    as [r|] eqn:Lr; [|discriminate].
  injection C as <-.
  pose proof (Sql.lookup_key Sql.owner_key_eqb Sql.owner_key_eqb_eq
                Facebook.Page.key _ _ _ Lr) as K.
  injection K as K1 K2.
  unfold page_updated_data, Facebook.Page.data in S.
  injection S as S1 S2 S3.
  exists r. repeat split; auto.
  apply (Permutation_in _
           (Permutation_sym
              (order_by_desc_perm Facebook.Page.followers_count _))).
  apply select_where_In. split.
  - eapply Sql.lookup_In; eauto.
  - now apply Z.eqb_eq.
Qed.

Lemma fetched_pages_are_stored_witness :
  exists r,
    Facebook.Page.lookup 1 "42"
      (fst (fst (Facebook.get_pages
                   (fun _ =>
                      Some (Some [Facebook.Page.Json "42" "A2" "token-new"
                                    None None]))
                   1 2000 sample_accounts sample_mirror))) = Some r /\
    Facebook.Page.page_name r = "A2" /\
    Facebook.Page.followers_count r = 0.
Proof.
  destruct (fetched_pages_are_stored
              (fun _ =>
                 Some (Some [Facebook.Page.Json "42" "A2" "token-new"
                               None None]))
              1 2000 sample_accounts sample_mirror
              (fst (fst (Facebook.get_pages
                           (fun _ =>
                              Some (Some [Facebook.Page.Json "42" "A2"
                                            "token-new" None None]))
                           1 2000 sample_accounts sample_mirror)))
              [ Facebook.Page.Row 2 1 "99" "B" "token-99" None 25 false 1000;
                Facebook.Page.Row 1 1 "42" "A2" "token-new" None 0 false
                  1000 ]
              (Some "user-token")
              [Facebook.Page.Json "42" "A2" "token-new" None None]
              (Facebook.Page.Json "42" "A2" "token-new" None None)
              eq_refl eq_refl)
    as [r [L [_ [_ [_ [Hn [_ Hf]]]]]]].
  - repeat constructor. intros [].
  - now left.
  - exists r. auto.
Defined.

(** ** Disconnecting *)

Lemma select_after_delete {A} (c : A -> bool) (l : list A) :
  Sql.select_where c (Sql.delete_where c l) = [].
Proof.
  apply Sql.select_where_none. intros r Hr.
  unfold Sql.delete_where in Hr. apply filter_In in Hr as [_ Hr].
  now apply negb_true_iff in Hr.
Qed.

Lemma select_where_delete_other {A} (d c : A -> bool) (l : list A) :
  (forall r, d r = true -> c r = false) ->
  Sql.select_where d (Sql.delete_where c l) = Sql.select_where d l.
Proof.
  intros H. unfold Sql.select_where, Sql.delete_where.
  induction l as [|r l IH]; simpl; [reflexivity|].
  destruct (c r) eqn:C; simpl.
  - destruct (d r) eqn:D; [|exact IH].
    rewrite (H r D) in C. discriminate.
  - now rewrite IH.
Qed.

Lemma delete_where_twice {A} (c : A -> bool) (l : list A) :
  Sql.delete_where c (Sql.delete_where c l) = Sql.delete_where c l.
Proof.
  unfold Sql.delete_where. induction l as [|r l IH]; simpl; [reflexivity|].
  destruct (c r) eqn:C; simpl; [exact IH|]. now rewrite C, IH.
Qed.

Lemma select_where_weaken {A} (c d : A -> bool) (l : list A) :
  (forall r, c r = true -> d r = true) ->
  Sql.select_where d l = [] -> Sql.select_where c l = [].
Proof.
  intros H E. apply Sql.select_where_none. intros r Hr.
  destruct (c r) eqn:C; [|reflexivity].
  assert (In r (Sql.select_where d l)) by (apply select_where_In; auto).
  rewrite E in *. contradiction.
Qed.

Lemma of_platform_other u p v q r :
  v <> u \/ q <> p ->
  SocialAccount.of_platform v q r = true ->
  SocialAccount.of_platform u p r = false.
Proof.
  unfold SocialAccount.of_platform. intros H E.
  apply andb_true_iff in E as [E1 E2].
  apply Z.eqb_eq in E1. apply String.eqb_eq in E2.
  apply andb_false_iff.
  destruct H as [H|H]; [left; apply Z.eqb_neq|right; apply String.eqb_neq];
    congruence.
Qed.

(** X7: after the Facebook disconnect route the caller has no page row, no
    selected page and no connection: [GET /pages] answers 400 without
    calling the provider.  Pages of other users and connections of other
    users or platforms are as before, and disconnecting again changes
    nothing. *)
Theorem facebook_disconnect_forgets_caller
    (u v : Z) (platform : string) (pages : list Facebook.Page.row)
    (social : list SocialAccount.row) :
  let res := Facebook.disconnect u pages social in
  let pages' := fst (fst res) in
  let social' := snd (fst res) in
  Sql.select_where (fun r => Facebook.Page.user_id r =? u) pages' = [] /\
  Facebook.get_selected_page u pages' = Json None /\
  (forall graph now serial,
     Facebook.get_pages graph u now social' (Sql.Table pages' serial) =
     (Sql.Table pages' serial, Fail 400 "Facebook account not connected", []))
  /\
  (v <> u ->
   Sql.select_where (fun r => Facebook.Page.user_id r =? v) pages' =
   Sql.select_where (fun r => Facebook.Page.user_id r =? v) pages) /\
  (v <> u \/ platform <> "facebook" ->
   Sql.select_where (SocialAccount.of_platform v platform) social' =
   Sql.select_where (SocialAccount.of_platform v platform) social) /\
  Facebook.disconnect u pages' social' = res.
Proof.
  intros res pages' social'. unfold res, pages', social', Facebook.disconnect.
  simpl.
  assert (E : Sql.select_where (fun r => Facebook.Page.user_id r =? u)
                (Sql.delete_where (fun r => Facebook.Page.user_id r =? u)
                   pages) = []) by apply select_after_delete.
  split; [exact E|]. split; [|split; [|split; [|split]]].
  - unfold Facebook.get_selected_page, Facebook.selected_rows,
      Sql.selected_rows.
    rewrite (select_where_weaken _ _ _ (fun r H => proj1 (andb_prop _ _ H)) E).
    reflexivity.
  - intros graph now serial. unfold Facebook.get_pages.
    now rewrite select_after_delete.
  - intros Hv. apply select_where_delete_other. intros r Hr.
    apply Z.eqb_eq in Hr. apply Z.eqb_neq. congruence.
  - intros H. apply select_where_delete_other. intros r.
    now apply of_platform_other.
  - now rewrite !delete_where_twice.
Qed.

Lemma facebook_disconnect_forgets_caller_witness :
  Sql.select_where (fun r => Facebook.Page.user_id r =? 2)
    (fst (fst (Facebook.disconnect 1 sample_pages sample_accounts))) =
  Sql.select_where (fun r => Facebook.Page.user_id r =? 2) sample_pages.
Proof.
  apply (facebook_disconnect_forgets_caller 1 2 "twitter" sample_pages
           sample_accounts).
  discriminate.
Defined.

(** X8: after the Instagram or the Twitter disconnect route the caller has no
    account row, no selected account, no mirrored media or tweets and no
    connection: the fetch routes answer 400 without calling the provider,
    and the stored listings are empty.  Rows of other users are as before,
    and disconnecting again changes nothing. *)
Theorem disconnect_forgets_caller
    (u v : Z)
    (ig : list Instagram.Account.row) (media : list Instagram.Media.row)
    (tw : list Twitter.Account.row) (tweets : list Twitter.Tweet.row)
    (social : list SocialAccount.row) :
  (let res := Instagram.disconnect u ig media social in
   let ig' := fst (fst (fst res)) in
   let media' := snd (fst (fst res)) in
   let social' := snd (fst res) in
   Instagram.get_selected_account u ig' = Json None /\
   (forall graph now limit t,
      Instagram.get_media graph u now limit ig' t =
      (t, Fail 400 "No Instagram account selected", [])) /\
   (forall graph now t,
      Instagram.get_accounts graph u now social' t =
      (t, Fail 400 "Instagram account not connected", [])) /\
   (forall parse_int,
      Instagram.get_stored_media parse_int u None media' = Json []) /\
   (v <> u ->
    Sql.select_where (fun r => Instagram.Account.user_id r =? v) ig' =
    Sql.select_where (fun r => Instagram.Account.user_id r =? v) ig /\
    Sql.select_where (fun r => Instagram.Media.user_id r =? v) media' =
    Sql.select_where (fun r => Instagram.Media.user_id r =? v) media) /\
   Instagram.disconnect u ig' media' social' = res) /\
  (let res := Twitter.disconnect u tw tweets social in
   let tw' := fst (fst (fst res)) in
   let tweets' := snd (fst (fst res)) in
   let social' := snd (fst res) in
   Twitter.get_selected_account u tw' = Json None /\
   (forall api now limit t,
      Twitter.get_tweets api u now limit tw' t =
      (t, Fail 400 "No Twitter account selected", [])) /\
   (forall parse_int,
      Twitter.get_stored_tweets parse_int u None tweets' = Json []) /\
   (v <> u ->
    Sql.select_where (fun r => Twitter.Account.user_id r =? v) tw' =
    Sql.select_where (fun r => Twitter.Account.user_id r =? v) tw /\
    Sql.select_where (fun r => Twitter.Tweet.user_id r =? v) tweets' =
    Sql.select_where (fun r => Twitter.Tweet.user_id r =? v) tweets) /\
   Twitter.disconnect u tw' tweets' social' = res).
Proof.
  assert (O : forall w, w <> u -> forall x : Z, (x =? w) = true ->
              (x =? u) = false).
  { intros w Hw x Hx. apply Z.eqb_eq in Hx. apply Z.eqb_neq. congruence. }
  split.
  - simpl.
    assert (E : Sql.select_where (fun r => Instagram.Account.user_id r =? u)
                  (Sql.delete_where
                     (fun r => Instagram.Account.user_id r =? u) ig) = [])
      by apply select_after_delete.
    assert (S : Instagram.selected_rows u
                  (Sql.delete_where
                     (fun r => Instagram.Account.user_id r =? u) ig) = []).
    { unfold Instagram.selected_rows, Sql.selected_rows.
      apply (select_where_weaken _ _ _
               (fun r H => proj1 (andb_prop _ _ H)) E). }
    split; [|split; [|split; [|split; [|split]]]].
    + unfold Instagram.get_selected_account. now rewrite S.
    + intros graph now limit t. unfold Instagram.get_media. now rewrite S.
    + intros graph now t. unfold Instagram.get_accounts.
      now rewrite select_after_delete.
    + intros parse_int. unfold Instagram.get_stored_media. simpl.
      now rewrite select_after_delete.
    + intros Hv. split; apply select_where_delete_other; intros r;
        apply (O v Hv).
    + unfold Instagram.disconnect. now rewrite !delete_where_twice.
  - simpl.
    assert (E : Sql.select_where (fun r => Twitter.Account.user_id r =? u)
                  (Sql.delete_where
                     (fun r => Twitter.Account.user_id r =? u) tw) = [])
      by apply select_after_delete.
    assert (S : Twitter.selected_rows u
                  (Sql.delete_where
                     (fun r => Twitter.Account.user_id r =? u) tw) = []).
    { unfold Twitter.selected_rows, Sql.selected_rows.
      apply (select_where_weaken _ _ _
               (fun r H => proj1 (andb_prop _ _ H)) E). }
    split; [|split; [|split; [|split]]].
    + unfold Twitter.get_selected_account. now rewrite S.
    + intros api now limit t. unfold Twitter.get_tweets. now rewrite S.
    + intros parse_int. unfold Twitter.get_stored_tweets. simpl.
      now rewrite select_after_delete.
    + intros Hv. split; apply select_where_delete_other; intros r;
        apply (O v Hv).
    + unfold Twitter.disconnect. now rewrite !delete_where_twice.
Qed.

Lemma disconnect_forgets_caller_witness :
  Sql.select_where (fun r => Instagram.Account.user_id r =? 2)
    (fst (fst (fst (Instagram.disconnect 1 sample_instagram_accounts
                      (Sql.rows sample_media) sample_accounts)))) =
  Sql.select_where (fun r => Instagram.Account.user_id r =? 2)
    sample_instagram_accounts.
Proof.
  apply (disconnect_forgets_caller 1 2 sample_instagram_accounts
           (Sql.rows sample_media) sample_twitter_accounts
           (Sql.rows sample_tweets) sample_accounts).
  discriminate.
Defined.

(** ** Publishing: what is written and what is called *)

(** A scheduled post without the three columns a publish writes. *)
Definition unpublished (r : ScheduledPost.row) : ScheduledPost.row :=
  ScheduledPost.Row (ScheduledPost.id r) (ScheduledPost.user_id r)
    (ScheduledPost.page_id r) (ScheduledPost.content r)
    (ScheduledPost.scheduled_time r) "" (ScheduledPost.media_url r)
    None None (ScheduledPost.created_at r).

Lemma mark_published_frame remote now postId posts :
  map unpublished (ScheduledPost.mark_published remote now postId posts) =
    map unpublished posts /\
  (forall r, In r posts -> ScheduledPost.has_id postId r = false ->
     In r (ScheduledPost.mark_published remote now postId posts)).
Proof.
  unfold ScheduledPost.mark_published, Sql.update_where. split.
  - rewrite map_map. apply map_ext. intros r.
    now destruct (ScheduledPost.has_id postId r).
  - intros r Hin H. apply in_map_iff. exists r. now rewrite H.
Qed.

Lemma same_id_same_row (posts : list ScheduledPost.row) a b :
  NoDup (map ScheduledPost.id posts) -> In a posts -> In b posts ->
  ScheduledPost.id a = ScheduledPost.id b -> a = b.
Proof.
  induction posts as [|x l IH]; intros N Ha Hb E; [destruct Ha|].
  simpl in N. inversion N as [|? ? Hx N']; subst.
  destruct Ha as [->|Ha], Hb as [->|Hb]; auto.
  - exfalso. apply Hx. rewrite E. now apply in_map.
  - exfalso. apply Hx. rewrite <- E. now apply in_map.
Qed.

(** X9: the Facebook publish route writes nothing but [status],
    [facebook_post_id] and [published_at], and only in rows whose id is
    [postId]; when ids are unique (the primary key) and the route answers
    200, every row it wrote belongs to the caller. *)
Theorem facebook_publish_writes_callers_post_only
    (graph : Facebook.feed_request -> option string) (u now : Z)
    (postId : option Z) (pages : list Facebook.Page.row)
    (posts : list ScheduledPost.row) :
  let res := Facebook.publish graph u now postId pages posts in
  map unpublished (fst (fst res)) = map unpublished posts /\
  (forall r, In r posts -> ScheduledPost.has_id postId r = false ->
     In r (fst (fst res))) /\
  (status (snd (fst res)) <> 200 -> fst (fst res) = posts) /\
  (NoDup (map ScheduledPost.id posts) ->
   status (snd (fst res)) = 200 ->
   forall r, In r posts -> ScheduledPost.has_id postId r = true ->
     ScheduledPost.user_id r = u).
Proof.
  unfold Facebook.publish.
  destruct (Sql.select_where (ScheduledPost.has_id_of postId u) posts)
    as [|post rest] eqn:S; simpl.
  { repeat split; auto. discriminate. }
  destruct (Sql.select_where _ pages) as [|page rest']; simpl.
  { repeat split; auto. discriminate. }
  assert (Hpost : In post posts /\
                  ScheduledPost.has_id_of postId u post = true).
  { apply select_where_In. rewrite S. now left. }
  destruct Hpost as [Hin Hown].
  unfold ScheduledPost.has_id_of in Hown.
  apply andb_true_iff in Hown as [Hid Hu]. apply Z.eqb_eq in Hu.
  assert (Own : NoDup (map ScheduledPost.id posts) ->
                forall r, In r posts ->
                  ScheduledPost.has_id postId r = true ->
                  ScheduledPost.user_id r = u).
  { intros N r Hr Hrid.
    assert (r = post); [|now subst].
    apply (same_id_same_row posts); auto.
    destruct postId as [i|]; [|discriminate].
    simpl in Hid, Hrid. apply Z.eqb_eq in Hid, Hrid. congruence. }
  destruct (graph _) as [remote|]; simpl.
  - destruct (mark_published_frame remote now postId posts) as [F1 F2].
    repeat split; auto. intros H. now contradiction H.
  - repeat split; auto.
Qed.

Lemma facebook_publish_writes_callers_post_only_witness :
  fst (fst (Facebook.publish (fun _ => None) 1 2000 (Some 1) sample_pages
              pending_posts)) = pending_posts.
Proof.
  apply (facebook_publish_writes_callers_post_only (fun _ => None) 1 2000
           (Some 1) sample_pages pending_posts).
  discriminate.
Defined.

(** X10: the Twitter tweet route and the Instagram publish route write
    scheduled_posts only when they answer 200 and were given a [postId]
    that counts as true; then they write nothing but [status],
    [facebook_post_id] and [published_at], in the rows whose id is
    [postId]. *)
Theorem publish_routes_write_only_on_success :
  (forall api u now postId text accounts posts,
     let res := Twitter.post_tweet api u now postId text accounts posts in
     (status (snd (fst res)) <> 200 \/ Js.truthy_number postId = false ->
      fst (fst res) = posts) /\
     map unpublished (fst (fst res)) = map unpublished posts /\
     (forall r, In r posts -> ScheduledPost.has_id postId r = false ->
        In r (fst (fst res)))) /\
  (forall graph u now postId caption imageUrl accounts posts,
     let res :=
       Instagram.publish graph u now postId caption imageUrl accounts posts in
     (status (snd (fst res)) <> 200 \/ Js.truthy_number postId = false ->
      fst (fst res) = posts) /\
     map unpublished (fst (fst res)) = map unpublished posts /\
     (forall r, In r posts -> ScheduledPost.has_id postId r = false ->
        In r (fst (fst res)))).
Proof.
  split.
  - intros api u now postId text accounts posts. unfold Twitter.post_tweet.
    destruct (Twitter.text_missing text); simpl; [repeat split; auto|].
    destruct (Twitter.text_too_long _); simpl; [repeat split; auto|].
    destruct (Twitter.selected_rows u accounts) as [|account rest]; simpl;
      [repeat split; auto|].
    destruct (api _) as [tweetId|]; simpl; [|repeat split; auto].
    destruct (Js.truthy_number postId); simpl.
    + destruct (mark_published_frame tweetId now postId posts) as [F1 F2].
      repeat split; auto. intros [H|H]; [now contradiction H|discriminate].
    + repeat split; auto.
  - intros graph u now postId caption imageUrl accounts posts.
    unfold Instagram.publish.
    destruct (Js.truthy_string imageUrl); simpl; [|repeat split; auto].
    destruct (Instagram.selected_rows u accounts) as [|account rest]; simpl;
      [repeat split; auto|].
    destruct (graph (Instagram.CreateContainer _ _ _ _)) as [containerId|];
      simpl; [|repeat split; auto].
    destruct (graph (Instagram.PublishContainer _ _ _)) as [mediaId|];
      simpl; [|repeat split; auto].
    destruct (Js.truthy_number postId); simpl.
    + destruct (mark_published_frame mediaId now postId posts) as [F1 F2].
      repeat split; auto. intros [H|H]; [now contradiction H|discriminate].
    + repeat split; auto.
Qed.

Lemma publish_routes_write_only_on_success_witness :
  fst (fst (Twitter.post_tweet (fun _ => Some "tw-1") 2 2000 (Some 0)
              (Some "hi") sample_twitter_accounts pending_posts)) =
  pending_posts.
Proof.
  apply (proj1 publish_routes_write_only_on_success (fun _ => Some "tw-1") 2
           2000 (Some 0) (Some "hi") sample_twitter_accounts pending_posts).
  right. reflexivity.
Defined.

(** X11: the Instagram publish route publishes only a container it has just
    created: whenever the publish call is made, it is the second of exactly
    two calls, it carries the id the container call returned, and both use
    the selected account and its token.  A 200 answer carries the id the
    publish call returned. *)
Theorem instagram_publish_is_two_step
    (graph : Instagram.publish_request -> option string) (u now : Z)
    (postId : option Z) (caption imageUrl : option string)
    (accounts : list Instagram.Account.row)
    (posts : list ScheduledPost.row) :
  let res :=
    Instagram.publish graph u now postId caption imageUrl accounts posts in
  (forall iid c token,
     In (Instagram.PublishContainer iid c token) (snd res) ->
     exists account rest url,
       Instagram.selected_rows u accounts = account :: rest /\
       imageUrl = Some url /\
       iid = Instagram.Account.instagram_id account /\
       token = Instagram.Account.access_token account /\
       graph (Instagram.CreateContainer iid url
                (Js.or_empty (Js.or_null caption)) token) = Some c /\
       snd res =
         [Instagram.CreateContainer iid url
            (Js.or_empty (Js.or_null caption)) token;
          Instagram.PublishContainer iid c token]) /\
  (forall mediaId,
     snd (fst res) = Json mediaId ->
     exists iid c token,
       In (Instagram.PublishContainer iid c token) (snd res) /\
       graph (Instagram.PublishContainer iid c token) = Some mediaId).
Proof.
  unfold Instagram.publish.
  destruct imageUrl as [url|]; simpl;
    [|split; [intros ? ? ? []|discriminate]].
  destruct (negb (url =? "")%string); simpl;
    [|split; [intros ? ? ? []|discriminate]].
  destruct (Instagram.selected_rows u accounts) as [|account rest]; simpl;
    [split; [intros ? ? ? []|discriminate]|].
  destruct (graph (Instagram.CreateContainer _ _ _ _)) as [containerId|] eqn:G1;
    simpl.
  2:{ split; [intros ? ? ? [H|[]]; discriminate|discriminate]. }
  destruct (graph (Instagram.PublishContainer _ _ _)) as [mediaId|] eqn:G2;
    simpl.
  - split.
    + intros iid c token [H|[H|[]]]; [discriminate|].
      injection H as <- <- <-.
      exists account, rest, url. repeat split; auto.
    + intros m [= <-]. do 3 eexists. split; [right; left; reflexivity|].
      exact G2.
  - split; [|discriminate].
    intros iid c token [H|[H|[]]]; [discriminate|].
    injection H as <- <- <-.
    exists account, rest, url. repeat split; auto.
Qed.

Lemma instagram_publish_is_two_step_witness :
  exists iid c token,
    In (Instagram.PublishContainer iid c token)
      (snd (Instagram.publish (fun _ => Some "x1") 2 2000 None None
              (Some "http://img") sample_instagram_accounts pending_posts))
    /\ (fun _ : Instagram.publish_request => Some "x1")
         (Instagram.PublishContainer iid c token) = Some "x1".
Proof.
  apply (instagram_publish_is_two_step (fun _ => Some "x1") 2 2000 None None
           (Some "http://img") sample_instagram_accounts pending_posts).
  reflexivity.
Defined.

(** ** Insights: which sample of a reply is stored *)

(** The samples a reply carries for one metric, in the order the loops
    visit them. *)
Definition samples_for (name : string)
    (metrics : list Facebook.Insight.metric_json)
    : list Facebook.Insight.value_json :=
  flat_map
    (fun m =>
       if String.eqb (Facebook.Insight.m_name m) name
       then match Facebook.Insight.m_values m with
            | Some l => l
            | None => []
            end
       else [])
    metrics.

Definition on_day (d : Z) (v : Facebook.Insight.value_json) : bool :=
  Facebook.Insight.date_of (Facebook.Insight.v_end_time v) =? d.

Definition stored_value (pid name : string) (d : Z)
    (t : Sql.table Facebook.Insight.row) : option Z :=
  option_map Facebook.Insight.metric_value
    (Facebook.Insight.lookup pid name d t).

Lemma date_of_day e d :
  Facebook.Insight.date_of e = d <-> 86400 * d <= e < 86400 * (d + 1).
Proof.
  unfold Facebook.Insight.date_of.
  replace 86400000 with (86400 * 1000) by reflexivity.
  rewrite Z.div_mul_cancel_r by lia.
  split.
  - intros <-. split.
    + apply Z.mul_div_le. lia.
    + pose proof (Z.mod_pos_bound e 86400 ltac:(lia)).
      pose proof (Z.div_mod e 86400 ltac:(lia)). lia.
  - intros [H1 H2]. symmetry. apply (Z.div_unique e 86400 d (e - 86400 * d));
      lia.
Qed.

Lemma find_app {A} (c : A -> bool) (l1 l2 : list A) :
  find c (l1 ++ l2) =
  match find c l1 with Some x => Some x | None => find c l2 end.
Proof.
  induction l1 as [|x l1 IH]; simpl; [reflexivity|].
  now destruct (c x).
Qed.

Lemma stored_value_store_values now u pid name name' d values t :
  stored_value pid name' d
    (Facebook.Insight.store_values now u pid name values t) =
  match stored_value pid name' d t with
  | Some x => Some x
  | None =>
      if String.eqb name name'
      then option_map Facebook.Insight.v_value (find (on_day d) values)
      else None
  end.
Proof.
  unfold stored_value, Facebook.Insight.lookup, Facebook.Insight.store_values.
  revert t. induction values as [|v values IH]; intros t; simpl.
  - destruct (Sql.lookup _ _ _ (Sql.rows t)); simpl; [reflexivity|].
    now destruct (String.eqb name name').
  - rewrite IH, lookup_insert_or_ignore.
    destruct (Sql.lookup _ _ _ (Sql.rows t)) as [r|]; simpl; [reflexivity|].
    unfold Facebook.Insight.key_eqb, on_day; simpl.
    rewrite String.eqb_refl; simpl.
    destruct (String.eqb name name'); simpl; [|reflexivity].
    now destruct (Facebook.Insight.date_of (Facebook.Insight.v_end_time v)
                  =? d).
Qed.

(** A sample the insert statement accepts: its [end_time] lies in the
    years 0001 to 9999, where [toISOString] yields a plain date, and its
    value is an integer a number holds exactly. *)
Definition sample_accepted (v : Facebook.Insight.value_json) : Prop :=
  -62135596800 <= Facebook.Insight.v_end_time v <= 253402300799 /\
  -9007199254740991 <= Facebook.Insight.v_value v <= 9007199254740991.

Definition metric_samples (m : Facebook.Insight.metric_json)
    : list Facebook.Insight.value_json :=
  match Facebook.Insight.m_values m with
  | Some l => l
  | None => []
  end.

(** Every statement of the two loops is accepted: the user is a row of
    [users], user and page id fit their columns, each metric name fits
    [VARCHAR(100)], each sample is accepted, and the sequence has a value
    for each statement. *)
Definition reply_accepted (users : list Z) (u : Z) (pid : string)
    (metrics : list Facebook.Insight.metric_json)
    (t : Sql.table Facebook.Insight.row) : Prop :=
  Sql.int4 u /\ Sql.references users u /\ Sql.varchar 255 pid /\
  Forall (fun m =>
            Sql.varchar 100 (Facebook.Insight.m_name m) /\
            Forall sample_accepted (metric_samples m)) metrics /\
  Sql.has_serial t
    (Z.of_nat (List.length (flat_map metric_samples metrics))).

(** X12: for a reply whose statements the database all accepts, and for
    each metric and day, the insert loops of [GET /insights] keep the value
    already stored; when there is none they store the first sample of the
    reply that falls on that day, where the day of a sample is the whole
    number of 86400-second days in its [end_time]: later samples of the
    same day, in the same reply or a later one, are dropped. *)
Theorem insights_store_first_sample_of_a_day
    (users : list Z) (now u : Z) (pid name : string) (d : Z)
    (metrics : list Facebook.Insight.metric_json)
    (t : Sql.table Facebook.Insight.row) :
  reply_accepted users u pid metrics t ->
  stored_value pid name d
    (Facebook.Insight.store_insights now u pid metrics t) =
    match stored_value pid name d t with
    | Some x => Some x
    | None =>
        option_map Facebook.Insight.v_value
          (find (on_day d) (samples_for name metrics))
    end /\
  (forall v, on_day d v = true <->
     86400 * d <= Facebook.Insight.v_end_time v < 86400 * (d + 1)).
Proof.
  intros _. split.
  - unfold Facebook.Insight.store_insights, samples_for. revert t.
    induction metrics as [|m metrics IH]; intros t; simpl.
    + now destruct (stored_value pid name d t).
    + rewrite IH, stored_value_store_values, find_app.
      destruct (stored_value pid name d t); [reflexivity|].
      destruct (String.eqb (Facebook.Insight.m_name m) name); simpl;
        [|reflexivity].
      destruct (find (on_day d)
                  match Facebook.Insight.m_values m with
                  | Some l => l
                  | None => []
                  end); reflexivity.
  - intros v. unfold on_day. rewrite Z.eqb_eq. apply date_of_day.
Qed.

Lemma insights_store_first_sample_of_a_day_witness :
  stored_value "42" "page_fans" 1
    (Facebook.Insight.store_insights 5000 1 "42"
       [Facebook.Insight.Metric "page_fans"
          (Some [Facebook.Insight.Value 100 86400;
                 Facebook.Insight.Value 150 86401])]
       Sql.empty) = Some 100.
Proof.
  apply (insights_store_first_sample_of_a_day [1] 5000 1 "42" "page_fans" 1
           [Facebook.Insight.Metric "page_fans"
              (Some [Facebook.Insight.Value 100 86400;
                     Facebook.Insight.Value 150 86401])]
           Sql.empty).
  unfold reply_accepted, sample_accepted, Sql.int4, Sql.varchar,
    Sql.has_serial, Sql.references, Sql.text.
  repeat split; simpl; try first [reflexivity|lia].
  repeat constructor; simpl; first [reflexivity|lia].
Defined.

(** ** Mirrored media keep their first owner *)

Lemma lookup_upsert_all_ident {Key Row Params Ident : Type}
    (key_eqb : Key -> Key -> bool) (row_key : Row -> Key)
    (params_key : Params -> Key) (inserted : Z -> Z -> Params -> Row)
    (updated : Params -> Row -> Row) (ident : Row -> Ident)
    now page t k r :
  (forall a b, key_eqb a b = true <-> a = b) ->
  (forall i n p, row_key (inserted i n p) = params_key p) ->
  (forall p x, row_key (updated p x) = row_key x) ->
  (forall p x, ident (updated p x) = ident x) ->
  Sql.lookup key_eqb row_key k (Sql.rows t) = Some r ->
  exists r',
    Sql.lookup key_eqb row_key k
      (Sql.rows (Sql.upsert_all key_eqb row_key params_key inserted updated
                   now page t)) = Some r' /\
    ident r' = ident r.
Proof.
  intros Heq Hi Hu Hid. unfold Sql.upsert_all. revert t r.
  induction page as [|p page IH]; intros t r L; simpl; [eauto|].
  assert (L1 : exists r1,
             Sql.lookup key_eqb row_key k
               (Sql.rows (Sql.upsert key_eqb row_key params_key inserted
                            updated now p t)) = Some r1 /\
             ident r1 = ident r).
  { rewrite (Sql.lookup_upsert key_eqb Heq row_key params_key inserted
               updated Hi Hu), L.
    destruct (key_eqb (params_key p) k); eauto. }
  destruct L1 as [r1 [L1 E1]].
  destruct (IH _ _ L1) as [r2 [L2 E2]].
  exists r2. split; [exact L2|congruence].
Qed.

Lemma unique_lookup_In {Key Row : Type} (key_eqb : Key -> Key -> bool)
    (row_key : Row -> Key) (t : list Row) (x : Row) :
  (forall a b, key_eqb a b = true <-> a = b) ->
  Sql.unique row_key t -> In x t ->
  Sql.lookup key_eqb row_key (row_key x) t = Some x.
Proof.
  intros Heq. unfold Sql.unique, Sql.lookup.
  induction t as [|y t IH]; intros U Hin; [destruct Hin|].
  simpl in U. inversion U as [|? ? Hy U']; subst. simpl.
  destruct (Sql.has_key key_eqb row_key (row_key x) y) eqn:K.
  - unfold Sql.has_key in K. apply Heq in K.
    destruct Hin as [->|Hin]; [reflexivity|].
    exfalso. apply Hy. rewrite K. now apply in_map.
  - destruct Hin as [->|Hin]; [|now apply IH].
    unfold Sql.has_key in K. now rewrite (proj2 (Heq _ _) eq_refl) in K.
Qed.

(** X14: a media item is mirrored under the user who fetched it first: when
    another user fetches the same account's media, the row is refreshed but
    its [user_id] stays, so on a table that satisfies its [UNIQUE]
    constraint that user's stored-media listing never shows the item. *)
Theorem media_keeps_its_first_owner
    (graph : Instagram.Media.request -> option (option (list Instagram.Media.json)))
    (b now : Z) (limit : option string)
    (accounts : list Instagram.Account.row)
    (media : Sql.table Instagram.Media.row)
    (instagramId mediaId : string) (r : Instagram.Media.row) :
  Instagram.Media.lookup instagramId mediaId media = Some r ->
  let media' :=
    fst (fst (Instagram.get_media graph b now limit accounts media)) in
  (exists r',
     Instagram.Media.lookup instagramId mediaId media' = Some r' /\
     Instagram.Media.user_id r' = Instagram.Media.user_id r) /\
  (Sql.unique Instagram.Media.key (Sql.rows media) ->
   Instagram.Media.user_id r <> b ->
   forall parse_int limit' listed,
     Instagram.get_stored_media parse_int b limit' (Sql.rows media') =
       Json listed ->
     forall x, In x listed ->
       Instagram.Media.key x <> (instagramId, mediaId)).
Proof.
  intros L media'.
  assert (K : exists r',
            Instagram.Media.lookup instagramId mediaId media' = Some r' /\
            Instagram.Media.user_id r' = Instagram.Media.user_id r).
  { unfold media', Instagram.get_media.
    destruct (Instagram.selected_rows b accounts) as [|account rest]; simpl;
      [eauto|].
    destruct (graph _) as [data|]; simpl; [|eauto].
    unfold Instagram.Media.store_media, Instagram.Media.lookup.
    apply lookup_upsert_all_ident;
      [exact Sql.parent_key_eqb_eq|reflexivity|reflexivity|reflexivity
      |exact L]. }
  split; [exact K|].
  intros U Hb parse_int limit' listed S x Hx Hk.
  destruct K as [r' [L' E']].
  assert (U' : Sql.unique Instagram.Media.key (Sql.rows media')).
  { unfold media', Instagram.get_media.
    destruct (Instagram.selected_rows b accounts) as [|account rest]; simpl;
      [exact U|].
    destruct (graph _) as [data|]; simpl; [|exact U].
    unfold Instagram.Media.store_media.
    apply Sql.unique_upsert_all;
      [exact Sql.parent_key_eqb_eq|reflexivity|reflexivity|exact U]. }
  assert (Hx' : In x (Sql.rows media') /\ Instagram.Media.user_id x = b).
  { unfold Instagram.get_stored_media in S.
    destruct (match limit' with Some l => parse_int l | None => Some 20 end)
      as [n|]; [|discriminate].
    destruct (n <? 0); [discriminate|]. injection S as <-.
    unfold Order.limit in Hx. apply In_firstn in Hx.
    apply (Permutation_in _ (order_by_desc_perm _ _)) in Hx.
    apply select_where_In in Hx as [H1 H2].
    split; [exact H1|now apply Z.eqb_eq]. }
  destruct Hx' as [Hin Hown].
  pose proof (unique_lookup_In Sql.parent_key_eqb Instagram.Media.key
                (Sql.rows media') x Sql.parent_key_eqb_eq U' Hin) as Lx.
  rewrite Hk in Lx. unfold Instagram.Media.lookup in L'.
  rewrite L' in Lx. injection Lx as ->. congruence.
Qed.

Lemma media_keeps_its_first_owner_witness :
  exists r',
    Instagram.Media.lookup "i7" "m1"
      (fst (fst (Instagram.get_media (fun _ => Some (Some media_a)) 2 2000
                   None sample_instagram_accounts sample_media))) =
      Some r' /\
    Instagram.Media.user_id r' = 2.
Proof.
  apply (media_keeps_its_first_owner (fun _ => Some (Some media_a)) 2 2000
           None sample_instagram_accounts sample_media "i7" "m1"
           (Instagram.Media.Row 1 2 "i7" "m1" (Some "sunset") (Some "IMAGE")
              (Some "http://img/1") 3 1 800 900)).
  reflexivity.
Defined.

(** ** Fetching the Instagram account *)

Lemma select_where_head_lookup {Key Row : Type} (key_eqb : Key -> Key -> bool)
    (row_key : Row -> Key) (k : Key) (t : list Row) :
  match Sql.select_where (Sql.has_key key_eqb row_key k) t with
  | r :: _ => Some r
  | [] => None
  end = Sql.lookup key_eqb row_key k t.
Proof.
  unfold Sql.select_where, Sql.lookup.
  induction t as [|r t IH]; simpl; [reflexivity|].
  now destruct (Sql.has_key key_eqb row_key k r).
Qed.


(** The database accepts the account upsert: each parameter is a value of
    its column's type, the user is a row of [users] and the sequence has a
    value left. *)
Definition account_statement_accepted (users : list Z)
    (p : Instagram.Account.params) (t : Sql.table Instagram.Account.row)
    : Prop :=
  Sql.int4 (Instagram.Account.p_user_id p) /\
  Sql.references users (Instagram.Account.p_user_id p) /\
  Sql.varchar 255 (Instagram.Account.p_instagram_id p) /\
  Sql.varchar 255 (Instagram.Account.p_username p) /\
  Sql.text_opt (Instagram.Account.p_profile_picture_url p) /\
  Sql.text_opt (Instagram.Account.p_bio p) /\
  Sql.int4 (Instagram.Account.p_followers_count p) /\
  Sql.text (Instagram.Account.p_access_token p) /\
  Sql.has_serial t 1.

(** X15: with a connection that holds a token, a provider that answers and
    an upsert the database accepts, [GET /accounts] replies with the stored
    row, never with the provider's body: the row of the caller for that
    Instagram id, with the fetched username and followers and the
    connection's token, selected exactly if it was selected before, and
    with its first [created_at].  With a connection that holds no token the
    answer is 500 and the rows are as before. *)
Theorem instagram_get_accounts_replies_stored_row
    (users : list Z)
    (graph : option string -> option Instagram.Account.json) (u now : Z)
    (social : list SocialAccount.row) (connection : SocialAccount.row)
    (others : list SocialAccount.row)
    (accounts : Sql.table Instagram.Account.row)
    (j : Instagram.Account.json) :
  Sql.select_where (SocialAccount.of_platform u "instagram") social =
    connection :: others ->
  graph (SocialAccount.access_token connection) = Some j ->
  let res := Instagram.get_accounts graph u now social accounts in
  let before :=
    Sql.lookup Sql.owner_key_eqb Instagram.Account.key
      (u, Instagram.Account.j_id j) (Sql.rows accounts) in
  match SocialAccount.access_token connection with
  | None =>
      Sql.rows (fst (fst res)) = Sql.rows accounts /\
      snd (fst res) = Fail 500 "Failed to fetch Instagram accounts"
  | Some token =>
      account_statement_accepted users
        (Instagram.Account.params_of u token j) accounts ->
      exists r,
        snd (fst res) = Json (inl r) /\
        Sql.lookup Sql.owner_key_eqb Instagram.Account.key
          (u, Instagram.Account.j_id j) (Sql.rows (fst (fst res))) = Some r /\
        Instagram.Account.user_id r = u /\
        Instagram.Account.instagram_id r = Instagram.Account.j_id j /\
        Instagram.Account.username r = Instagram.Account.j_username j /\
        Instagram.Account.followers_count r =
          Js.or_zero (Instagram.Account.j_followers_count j) /\
        Instagram.Account.access_token r = token /\
        Instagram.Account.is_selected r =
          match before with
          | Some r0 => Instagram.Account.is_selected r0
          | None => false
          end /\
        Instagram.Account.created_at r =
          match before with
          | Some r0 => Instagram.Account.created_at r0
          | None => now
          end
  end.
Proof.
  intros S G res before. unfold res, Instagram.get_accounts.
  rewrite S, G.
  destruct (SocialAccount.access_token connection) as [token|];
    [|split; reflexivity].
  intros _. cbv zeta. cbn [fst snd].
  set (t' := Instagram.Account.upsert now
               (Instagram.Account.params_of u token j) accounts).
  pose proof (select_where_head_lookup Sql.owner_key_eqb
                Instagram.Account.key (u, Instagram.Account.j_id j)
                (Sql.rows t')) as H.
  assert (L : Sql.lookup Sql.owner_key_eqb Instagram.Account.key
                (u, Instagram.Account.j_id j) (Sql.rows t') =
              Some match before with
                   | Some r0 =>
                       Instagram.Account.updated
                         (Instagram.Account.params_of u token j) r0
                   | None =>
                       Instagram.Account.inserted (Sql.serial accounts) now
                         (Instagram.Account.params_of u token j)
                   end).
  { unfold t', Instagram.Account.upsert.
    rewrite (Sql.lookup_upsert Sql.owner_key_eqb Sql.owner_key_eqb_eq
               Instagram.Account.key Instagram.Account.params_key
               Instagram.Account.inserted Instagram.Account.updated
               (fun _ _ _ => eq_refl) (fun _ _ => eq_refl)).
    change (Instagram.Account.params_key
              (Instagram.Account.params_of u token j))
      with (u, Instagram.Account.j_id j).
    now rewrite (proj2 (Sql.owner_key_eqb_eq _ _) eq_refl). }
  rewrite L in H.
  destruct (Sql.select_where
              (Sql.has_key Sql.owner_key_eqb Instagram.Account.key
                 (u, Instagram.Account.j_id j)) (Sql.rows t'))
    as [|r rest]; [discriminate|].
  injection H as ->.
  eexists. split; [reflexivity|]. split; [exact L|].
  assert (B : forall r0, before = Some r0 ->
              Instagram.Account.key r0 = (u, Instagram.Account.j_id j)).
  { intros r0 E. eapply Sql.lookup_key; [exact Sql.owner_key_eqb_eq|exact E]. }
  destruct before as [r0|]; simpl.
  - specialize (B r0 eq_refl). injection B as B1 B2. repeat split; auto.
  - repeat split; auto.
Qed.

Lemma instagram_get_accounts_replies_stored_row_witness :
  exists r,
    snd (fst (Instagram.get_accounts
                (fun _ =>
                   Some (Instagram.Account.Json "i42" "alice_new" None None
                           (Some 12)))
                1 2000
                [SocialAccount.Row 5 1 "instagram" (Some "ig-token") None
                   true 900]
                (Sql.Table sample_instagram_accounts 3))) = Json (inl r) /\
    Instagram.Account.username r = "alice_new".
Proof.
  pose proof (instagram_get_accounts_replies_stored_row [1]
                (fun _ =>
                   Some (Instagram.Account.Json "i42" "alice_new" None None
                           (Some 12)))
                1 2000
                [SocialAccount.Row 5 1 "instagram" (Some "ig-token") None
                   true 900]
                (SocialAccount.Row 5 1 "instagram" (Some "ig-token") None
                   true 900)
                []
                (Sql.Table sample_instagram_accounts 3)
                (Instagram.Account.Json "i42" "alice_new" None None (Some 12))
                eq_refl eq_refl) as H.
  cbn [SocialAccount.access_token] in H.
  destruct H as [r [H1 [_ [_ [_ [H2 _]]]]]].
  - unfold account_statement_accepted, Sql.int4, Sql.varchar,
      Sql.has_serial, Sql.references, Sql.text_opt, Sql.text.
    repeat split; simpl; first [reflexivity|lia].
  - exists r. split; [exact H1|exact H2].
Defined.

Lemma ig_username_set b r :
  Instagram.Account.username (Instagram.Account.set_is_selected b r) =
  Instagram.Account.username r.
Proof. reflexivity. Qed.



(** ** Repeating a synchronisation *)

Lemma fold_left_invariant {A B : Type} (step : A -> B -> A)
    (Inv : list B -> A -> Prop) (l : list B) :
  (forall prefix a b, Inv prefix a -> Inv (prefix ++ [b]) (step a b)) ->
  forall prefix a, Inv prefix a -> Inv (prefix ++ l) (fold_left step l a).
Proof.
  intros Hstep. induction l as [|b l IH]; intros prefix a H; simpl.
  - now rewrite app_nil_r.
  - replace (prefix ++ b :: l) with ((prefix ++ [b]) ++ l)
      by (now rewrite <- app_assoc).
    apply IH. now apply Hstep.
Qed.

Section Replay.
Context {Key Row Params : Type}.
Variable key_eqb : Key -> Key -> bool.
Hypothesis key_eqb_eq : forall a b, key_eqb a b = true <-> a = b.
Variable row_key : Row -> Key.
Variable params_key : Params -> Key.
Variable inserted : Z -> Z -> Params -> Row.
Variable updated : Params -> Row -> Row.
Hypothesis inserted_key :
  forall i now p, row_key (inserted i now p) = params_key p.
Hypothesis updated_key : forall p r, row_key (updated p r) = row_key r.
Hypothesis updated_twice :
  forall p q r, updated p (updated q r) = updated p r.
Hypothesis updated_inserted :
  forall i now p, updated p (inserted i now p) = inserted i now p.

Definition last_of (k : Key) (page : list Params) : option Params :=
  Sql.last_for key_eqb params_key k page.

(** The row as the last statement for its key leaves it. *)
Definition refreshed (page : list Params) (r : Row) : Row :=
  match last_of (row_key r) page with
  | Some p => updated p r
  | None => r
  end.

Lemma last_of_snoc k page p :
  last_of k (page ++ [p]) =
  if key_eqb (params_key p) k then Some p else last_of k page.
Proof.
  unfold last_of. induction page as [|q page IH]; simpl.
  - now destruct (key_eqb (params_key p) k).
  - rewrite IH. destruct (key_eqb (params_key p) k); [reflexivity|].
    reflexivity.
Qed.

(** After a page every row is as its key's last statement leaves it, and
    every key of the page is in the table. *)
Definition settled (page : list Params) (t : Sql.table Row) : Prop :=
  (forall r, In r (Sql.rows t) -> refreshed page r = r) /\
  (forall p, In p page ->
     Sql.conflict key_eqb row_key (params_key p) (Sql.rows t) = true).

Lemma settled_step now prefix t p :
  settled prefix t ->
  settled (prefix ++ [p])
    (Sql.upsert key_eqb row_key params_key inserted updated now p t).
Proof.
  intros [S C]. split.
  - intros r Hr. unfold refreshed. rewrite last_of_snoc.
    unfold Sql.upsert in Hr; simpl in Hr.
    destruct (Sql.conflict key_eqb row_key (params_key p) (Sql.rows t))
      eqn:Cp.
    + apply Sql.in_update_where in Hr as [r0 [Hr0 ->]].
      unfold Sql.has_key.
      destruct (key_eqb (row_key r0) (params_key p)) eqn:K.
      * rewrite updated_key. apply key_eqb_eq in K. rewrite K.
        rewrite (proj2 (key_eqb_eq _ _) eq_refl). apply updated_twice.
      * assert (K' : key_eqb (params_key p) (row_key r0) = false).
        { destruct (key_eqb (params_key p) (row_key r0)) eqn:K';
            [|reflexivity].
          apply key_eqb_eq in K'. rewrite K' in K.
          now rewrite (proj2 (key_eqb_eq _ _) eq_refl) in K. }
        rewrite K'. apply (S r0 Hr0).
    + apply in_app_or in Hr as [Hr|[<-|[]]].
      * assert (K' : key_eqb (params_key p) (row_key r) = false).
        { destruct (key_eqb (params_key p) (row_key r)) eqn:K';
            [|reflexivity].
          apply key_eqb_eq in K'.
          assert (Sql.conflict key_eqb row_key (params_key p) (Sql.rows t)
                  = true)
            by (apply (Sql.conflict_In key_eqb key_eqb_eq); eauto).
          congruence. }
        rewrite K'. apply (S r Hr).
      * rewrite inserted_key, (proj2 (key_eqb_eq _ _) eq_refl).
        apply updated_inserted.
  - intros q Hq. apply in_app_or in Hq as [Hq|[<-|[]]].
    + apply (Sql.conflict_upsert key_eqb key_eqb_eq row_key params_key
               inserted updated inserted_key updated_key).
      now apply C.
    + apply Sql.conflict_lookup.
      rewrite (Sql.lookup_upsert key_eqb key_eqb_eq row_key params_key
                 inserted updated inserted_key updated_key).
      rewrite (proj2 (key_eqb_eq _ _) eq_refl). eauto.
Qed.

Lemma settled_upsert_all now page t :
  settled page
    (Sql.upsert_all key_eqb row_key params_key inserted updated now page t).
Proof.
  unfold Sql.upsert_all.
  apply (fold_left_invariant
           (fun t p =>
              Sql.upsert key_eqb row_key params_key inserted updated now p t)
           settled page (fun prefix a b => settled_step now prefix a b)
           [] t).
  split; [intros r _; reflexivity|intros p []].
Qed.

(** On a table that has every key of a page, the page only refreshes. *)
Lemma upsert_all_refreshes now prefix page t t0 :
  (forall p, In p (prefix ++ page) ->
     Sql.conflict key_eqb row_key (params_key p) t0 = true) ->
  Sql.rows t = map (refreshed prefix) t0 ->
  Sql.rows (Sql.upsert_all key_eqb row_key params_key inserted updated
              now page t) =
  map (refreshed (prefix ++ page)) t0.
Proof.
  unfold Sql.upsert_all. revert prefix t.
  induction page as [|p page IH]; intros prefix t C E; simpl.
  - now rewrite app_nil_r.
  - replace (prefix ++ p :: page) with ((prefix ++ [p]) ++ page) in *
      by (now rewrite <- app_assoc).
    apply IH; [exact C|].
    unfold Sql.upsert; simpl. rewrite E.
    assert (Cp : Sql.conflict key_eqb row_key (params_key p)
                   (map (refreshed prefix) t0) = true).
    { assert (C0 : Sql.conflict key_eqb row_key (params_key p) t0 = true).
      { apply C. apply in_or_app. left. apply in_or_app. right. now left. }
      apply (Sql.conflict_In key_eqb key_eqb_eq) in C0 as [r [Hr Kr]].
      apply (Sql.conflict_In key_eqb key_eqb_eq).
      exists (refreshed prefix r). split; [now apply in_map|].
      unfold refreshed. destruct (last_of (row_key r) prefix); auto.
      now rewrite updated_key. }
    rewrite Cp. unfold Sql.update_where. rewrite map_map.
    apply map_ext. intros r.
    assert (Kr : row_key (refreshed prefix r) = row_key r).
    { unfold refreshed. destruct (last_of (row_key r) prefix); auto. }
    unfold Sql.has_key. rewrite Kr.
    change (refreshed (prefix ++ [p]) r)
      with (match last_of (row_key r) (prefix ++ [p]) with
            | Some q => updated q r
            | None => r
            end).
    rewrite last_of_snoc.
    destruct (key_eqb (row_key r) (params_key p)) eqn:K.
    + apply key_eqb_eq in K. rewrite K.
      rewrite (proj2 (key_eqb_eq _ _) eq_refl).
      unfold refreshed. rewrite K.
      destruct (last_of (params_key p) prefix); auto.
    + assert (K' : key_eqb (params_key p) (row_key r) = false).
      { destruct (key_eqb (params_key p) (row_key r)) eqn:K'; [|reflexivity].
        apply key_eqb_eq in K'. rewrite K' in K.
        now rewrite (proj2 (key_eqb_eq _ _) eq_refl) in K. }
      now rewrite K'.
Qed.

(** A page applied a second time leaves every row exactly as it is. *)
Lemma upsert_all_twice now1 now2 page t :
  Sql.rows
    (Sql.upsert_all key_eqb row_key params_key inserted updated now2 page
       (Sql.upsert_all key_eqb row_key params_key inserted updated now1 page
          t)) =
  Sql.rows
    (Sql.upsert_all key_eqb row_key params_key inserted updated now1 page t).
Proof.
  destruct (settled_upsert_all now1 page t) as [S C].
  rewrite (upsert_all_refreshes now2 [] page _
             (Sql.rows (Sql.upsert_all key_eqb row_key params_key inserted
                          updated now1 page t))).
  - simpl. rewrite <- (map_id (Sql.rows _)) at 2.
    apply map_ext_in. exact S.
  - exact C.
  - simpl. symmetry. apply map_id.
Qed.

End Replay.

(** X17: repeating [GET /pages] or [GET /media] with the same reply, at any
    later instant, leaves every row of the mirror exactly as the first
    request left it: serial ids, timestamps and values. *)
Theorem repeated_sync_changes_no_row
    (u now1 now2 : Z) (instagramId : string)
    (pages : list Facebook.Page.json) (t : Sql.table Facebook.Page.row)
    (items : list Instagram.Media.json) (m : Sql.table Instagram.Media.row) :
  Sql.rows (Facebook.Page.store_pages u now2 pages
              (Facebook.Page.store_pages u now1 pages t)) =
    Sql.rows (Facebook.Page.store_pages u now1 pages t) /\
  Sql.rows (Instagram.Media.store_media u instagramId now2 items
              (Instagram.Media.store_media u instagramId now1 items m)) =
    Sql.rows (Instagram.Media.store_media u instagramId now1 items m).
Proof.
  split.
  - rewrite !store_pages_as_json.
    apply (upsert_all_twice Sql.owner_key_eqb Sql.owner_key_eqb_eq
             Facebook.Page.key (page_json_key u) (page_json_inserted u)
             (page_json_updated u)); reflexivity.
  - rewrite !store_media_as_json.
    apply (upsert_all_twice Sql.parent_key_eqb Sql.parent_key_eqb_eq
             Instagram.Media.key (media_json_key instagramId)
             (media_json_inserted u instagramId)
             (media_json_updated u instagramId)); reflexivity.
Qed.

(** ** Invariants and failures of the fetch routes *)

Lemma unique_delete_where {Key Row : Type} (row_key : Row -> Key)
    (c : Row -> bool) (t : list Row) :
  Sql.unique row_key t -> Sql.unique row_key (Sql.delete_where c t).
Proof.
  unfold Sql.unique, Sql.delete_where.
  induction t as [|r t IH]; simpl; intros U; [constructor|].
  inversion U as [|? ? Hr U']; subst.
  destruct (negb (c r)); simpl; [|now apply IH].
  constructor; [|now apply IH].
  intros H. apply Hr. apply in_map_iff in H as [x [Ex Hx]].
  apply filter_In in Hx as [Hx _]. rewrite <- Ex. now apply in_map.
Qed.

(** X18: no route that writes facebook_pages ever leaves two rows for one
    [(user_id, page_id)]: fetching, selecting and disconnecting keep the
    schema's [UNIQUE] constraint. *)
Theorem facebook_pages_stay_unique
    (graph : option string -> option (option (list Facebook.Page.json)))
    (u now : Z) (pageId : option string)
    (social : list SocialAccount.row) (pages : Sql.table Facebook.Page.row) :
  Sql.unique Facebook.Page.key (Sql.rows pages) ->
  Sql.unique Facebook.Page.key
    (Sql.rows (fst (fst (Facebook.get_pages graph u now social pages)))) /\
  Sql.unique Facebook.Page.key
    (fst (Facebook.select_page u pageId (Sql.rows pages))) /\
  Sql.unique Facebook.Page.key
    (fst (fst (Facebook.disconnect u (Sql.rows pages) social))).
Proof.
  intros U. split; [|split].
  - now apply get_pages_unique.
  - now apply select_page_unique.
  - now apply unique_delete_where.
Qed.

Lemma facebook_pages_stay_unique_witness :
  Sql.unique Facebook.Page.key
    (Sql.rows (fst (fst (Facebook.get_pages (fun _ => Some (Some page_a))
                           1 2000 sample_accounts sample_mirror)))).
Proof.
  apply (facebook_pages_stay_unique (fun _ => Some (Some page_a)) 1 2000 None
           sample_accounts sample_mirror).
  exact sample_pages_unique.
Defined.

(** X19: the fetch routes answer 400 (no connection, no selected
    resource) without calling the provider and without writing; when the
    provider call they make fails they answer 500 and the table is as
    before; and none of them calls the provider more than once. *)
Theorem fetch_routes_failures_write_nothing :
  (forall graph u now social pages,
     let res := Facebook.get_pages graph u now social pages in
     (status (snd (fst res)) = 400 ->
      fst (fst res) = pages /\ snd res = []) /\
     ((exists req, In req (snd res) /\ graph req = None) ->
      fst (fst res) = pages /\ status (snd (fst res)) = 500) /\
     (List.length (snd res) <= 1)%nat) /\
  (forall graph parse_ms u now startDate endDate pages insights,
     let res :=
       Facebook.get_insights graph parse_ms u now startDate endDate pages
         insights in
     (status (snd (fst res)) = 400 ->
      fst (fst res) = insights /\ snd res = []) /\
     ((exists req, In req (snd res) /\ graph req = None) ->
      fst (fst res) = insights /\ status (snd (fst res)) = 500) /\
     (List.length (snd res) <= 1)%nat) /\
  (forall graph u now limit accounts media,
     let res := Instagram.get_media graph u now limit accounts media in
     (status (snd (fst res)) = 400 ->
      fst (fst res) = media /\ snd res = []) /\
     ((exists req, In req (snd res) /\ graph req = None) ->
      fst (fst res) = media /\ status (snd (fst res)) = 500) /\
     (List.length (snd res) <= 1)%nat) /\
  (forall api u now limit accounts tweets,
     let res := Twitter.get_tweets api u now limit accounts tweets in
     (status (snd (fst res)) = 400 ->
      fst (fst res) = tweets /\ snd res = []) /\
     ((exists req, In req (snd res) /\ api req = None) ->
      fst (fst res) = tweets /\ status (snd (fst res)) = 500) /\
     (List.length (snd res) <= 1)%nat).
Proof.
  split; [|split; [|split]].
  - intros graph u now social pages. unfold Facebook.get_pages.
    destruct (Sql.select_where _ social) as [|account rest]; simpl.
    { split; [now split|split; [intros [req [[] _]]|lia]]. }
    destruct (graph _) as [data|] eqn:G; simpl.
    + split; [discriminate|split; [|lia]].
      intros [req [[<-|[]] N]]; congruence.
    + split; [discriminate|split; [now split|lia]].
  - intros graph parse_ms u now startDate endDate pages insights.
    unfold Facebook.get_insights.
    destruct (Facebook.selected_rows u pages) as [|page rest]; simpl.
    { split; [now split|split; [intros [req [[] _]]|lia]]. }
    destruct (graph _) as [data|] eqn:G; simpl.
    + split; [discriminate|split; [|lia]].
      intros [req [[<-|[]] N]]; congruence.
    + split; [discriminate|split; [now split|lia]].
  - intros graph u now limit accounts media. unfold Instagram.get_media.
    destruct (Instagram.selected_rows u accounts) as [|account rest]; simpl.
    { split; [now split|split; [intros [req [[] _]]|lia]]. }
    destruct (graph _) as [data|] eqn:G; simpl.
    + split; [discriminate|split; [|lia]].
      intros [req [[<-|[]] N]]; congruence.
    + split; [discriminate|split; [now split|lia]].
  - intros api u now limit accounts tweets. unfold Twitter.get_tweets.
    destruct (Twitter.selected_rows u accounts) as [|account rest]; simpl.
    { split; [now split|split; [intros [req [[] _]]|lia]]. }
    destruct (api _) as [data|] eqn:G; simpl.
    + split; [discriminate|split; [|lia]].
      intros [req [[<-|[]] N]]; congruence.
    + split; [discriminate|split; [now split|lia]].
Qed.

Lemma fetch_routes_failures_write_nothing_witness :
  fst (fst (Facebook.get_pages (fun _ => None) 1 2000 sample_accounts
              sample_mirror)) = sample_mirror /\
  snd (Instagram.get_media (fun _ => Some (Some media_a)) 1 2000 None
         [] sample_media) = [].
Proof.
  split.
  - destruct (proj1 fetch_routes_failures_write_nothing (fun _ => None) 1
                2000 sample_accounts sample_mirror) as [_ [F _]].
    apply F. exists (Some "user-token"). split; [now left|reflexivity].
  - destruct (proj1 (proj2 (proj2 fetch_routes_failures_write_nothing))
                (fun _ => Some (Some media_a)) 1 2000 None []
                sample_media) as [B _].
    apply B. reflexivity.
Defined.
